(** * The signing core of hyperliquid-go (package [utils])

    A shallow embedding of the encode, hash and sign pipeline of the signing
    file of the package; line numbers refer to that file.  It has the numeric
    codec ([FloatToWire], [FloatToInt]), the wire model ([OrderTypeToWire],
    [OrderWiresToOrderAction]), the action hasher ([ActionHash]), the agent
    and typed-data builders ([ConstructPhantomAgent], [L1Payload],
    [UserSignedPayload]) and the signer ([SignInner], [SignL1Action],
    [SignUserSignedAction]).

    Go values are modelled as follows.
    - [float64] is [spec_float] at precision 53 and maximal exponent 1024,
      with the operations of [SpecFloat] (IEEE 754 binary64).
    - [uint64], [int64], [int] and [byte] are [Z]; wrap-around is written out.
    - [string] is [string]; [[]byte] is [list Z] of values below 256.
    - [map[string]interface{}] is [gmap string Value]; a Go map is a
      reference, so the function that assigns to one threads a store.
    - [(T, error)] results are [result T].

    The functions of the Go standard library and of the imported packages
    that the code calls are modelled next to their first use, each under the
    name of the Go function it stands for. *)

From Stdlib Require Import ZArith Lia List String Ascii Bool SpecFloat.
From stdpp Require Import gmap strings list.

Open Scope Z_scope.

(** ** Results and errors *)

(** The [error] values the pipeline can return.  The package builds them with
    [fmt.Errorf] or passes on those of the libraries it calls. *)
Inductive error : Type :=
  | ErrFloatToWireRounding   (* "float_to_wire causes rounding: %f" *)
  | ErrFloatToIntRounding    (* "float_to_int causes rounding: %f" *)
  | ErrInvalidOrderType      (* "invalid order type" *)
  | ErrSignatureChainId      (* "signatureChainId not found or not string" *)
  | ErrParseFloat            (* error of strconv.ParseFloat *)
  | ErrParseInt              (* error of strconv.ParseInt *)
  | ErrHexDecode             (* error of hex.DecodeString *)
  | ErrHashStruct            (* error of TypedData.HashStruct *)
  | ErrSign.                 (* error of crypto.Sign *)

(** The error taxonomy of the specification. *)
Inductive error_kind : Type :=
  | PrecisionError
  | SchemaError
  | SigningError
  | LibraryError.

Definition kind_of (e : error) : error_kind :=
  match e with
  | ErrFloatToWireRounding | ErrFloatToIntRounding => PrecisionError
  | ErrInvalidOrderType | ErrSignatureChainId | ErrParseInt => SchemaError
  | ErrHashStruct | ErrSign => SigningError
  | ErrParseFloat | ErrHexDecode => LibraryError
  end.

Inductive result (A : Type) : Type :=
  | Ok (a : A)
  | Err (e : error).
Arguments Ok {A} a.
Arguments Err {A} e.

Definition bind {A B : Type} (r : result A) (k : A -> result B) : result B :=
  match r with
  | Ok a => k a
  | Err e => Err e
  end.

Notation "'try' x := r 'in' k" := (bind r (fun x => k))
  (at level 10, x name, r at level 100, k at level 200).

(** ** float64 *)

Definition float64 : Type := spec_float.

Definition f64_mul : float64 -> float64 -> float64 := SFmul 53 1024.
Definition f64_sub : float64 -> float64 -> float64 := SFsub 53 1024.
Definition f64_abs : float64 -> float64 := SFabs.
(** [a >= b] on float64: false as soon as one side is NaN. *)
Definition f64_ge (a b : float64) : bool := SFleb b a.
Definition f64_valid (x : float64) : bool := valid_binary 53 1024 x.

Definition is_finite (x : float64) : bool :=
  match x with
  | S754_zero _ | S754_finite _ _ _ => true
  | S754_infinity _ | S754_nan => false
  end.

(** The float64 nearest to [num / den] (ties to even), with the sign [neg];
    [num >= 0] and [den > 0].  This is the rounding of a decimal literal by
    the compiler and of a decimal string by [strconv.ParseFloat]. *)
Definition f64_of_ratio (neg : bool) (num den : Z) : float64 :=
  match num with
  | Z0 => S754_zero neg
  | _ =>
      let '(mz, ez, lz) := SFdiv_core_binary 53 1024 num 0 den 0 in
      binary_round_aux 53 1024 neg mz ez lz
  end.

(** The float64 of the decimal constant [num * 10^-scale]. *)
Definition f64_lit (num : Z) (scale : Z) : float64 :=
  f64_of_ratio (num <? 0) (Z.abs num) (10 ^ scale).

(** The float64 of an integer (exact below 2^53). *)
Definition f64_of_Z (n : Z) : float64 := binary_normalize 53 1024 n 0 false.

(** The integer part of a float, truncated towards zero. *)
Definition f64_trunc (x : float64) : option Z :=
  match x with
  | S754_zero _ => Some 0
  | S754_finite s m e =>
      Some (cond_Zopp s (if 0 <=? e then Zpos m * 2 ^ e else Zpos m / 2 ^ (- e)))
  | S754_infinity _ | S754_nan => None
  end.

(** ** Strings and decimal digits *)

Definition char_code (c : ascii) : Z := Z.of_N (N_of_ascii c).
Definition char_of_code (n : Z) : ascii := ascii_of_N (Z.to_N n).

Definition is_digit (c : ascii) : bool := (48 <=? char_code c) && (char_code c <=? 57).

Definition in_cutset (c : ascii) (cutset : string) : bool :=
  existsb (Ascii.eqb c) (list_ascii_of_string cutset).

(** [strings.TrimRight(s, cutset)]: [s] without its longest suffix made of
    characters of [cutset]. *)
Fixpoint strings_TrimRight (s cutset : string) : string :=
  match s with
  | EmptyString => EmptyString
  | String c s' =>
      match strings_TrimRight s' cutset with
      | EmptyString => if in_cutset c cutset then EmptyString else String c EmptyString
      | t => String c t
      end
  end.

(** [s] without the prefix [pre], if it starts with it. *)
Fixpoint strip_prefix (s pre : string) {struct pre} : option string :=
  match pre with
  | EmptyString => Some s
  | String p pre' =>
      match s with
      | String c s' => if Ascii.eqb c p then strip_prefix s' pre' else None
      | EmptyString => None
      end
  end.

(** [strings.TrimPrefix(s, prefix)]: [s] without the leading [prefix], and [s]
    itself if it does not start with [prefix]. *)
Definition strings_TrimPrefix (s pre : string) : string :=
  default s (strip_prefix s pre).

(** The decimal digit [d]. *)
Definition digit_char (d : Z) : ascii := char_of_code (48 + d).

Fixpoint decimal_loop (fuel : nat) (n : Z) (acc : string) : string :=
  match fuel with
  | O => acc
  | S fuel' =>
      let acc' := String (digit_char (n mod 10)) acc in
      if n <? 10 then acc' else decimal_loop fuel' (n / 10) acc'
  end.

(** The decimal digits of a natural number, without leading zeros. *)
Definition decimal (n : Z) : string :=
  decimal_loop (S (Z.to_nat (Z.log2 n))) n EmptyString.

(** The [width] low decimal digits of [n], zero padded. *)
Fixpoint zero_padded (width : nat) (n : Z) : string :=
  match width with
  | O => EmptyString
  | S w => zero_padded w (n / 10) +:+ String (digit_char (n mod 10)) EmptyString
  end.

(** ** fmt.Sprintf("%.8f", x) and strconv.ParseFloat(s, 64) *)

(** [num / den] rounded to the nearest integer, ties to even. *)
Definition round_half_even (num den : Z) : Z :=
  let q := num / den in
  let r := num mod den in
  match 2 * r ?= den with
  | Lt => q
  | Gt => q + 1
  | Eq => if Z.even q then q else q + 1
  end.

(** [m * 2^e * 10^8] rounded to the nearest integer, ties to even: the digits
    that the verb [%.8f] prints for the float of mantissa [m] and exponent
    [e]. *)
Definition scaled8 (m : positive) (e : Z) : Z :=
  if 0 <=? e then Zpos m * 2 ^ e * 10 ^ 8
  else round_half_even (Zpos m * 10 ^ 8) (2 ^ (- e)).

(** A sign, the integer digits, a point and eight fractional digits. *)
Definition fixed8 (neg : bool) (n : Z) : string :=
  (if neg then "-" else "") +:+ decimal (n / 10 ^ 8) +:+ "." +:+ zero_padded 8 (n mod 10 ^ 8).

(** [fmt.Sprintf("%.8f", x)]: the exact value of [x] rounded to eight
    fractional digits (ties to even); a negative zero, and a negative value
    that rounds to zero, keep their sign. *)
Definition fmt_Sprintf_8f (x : float64) : string :=
  match x with
  | S754_zero s => fixed8 s 0
  | S754_finite s m e => fixed8 s (scaled8 m e)
  | S754_infinity s => if s then "-Inf" else "+Inf"
  | S754_nan => "NaN"
  end.

Fixpoint digits_value (s : string) (acc : Z) : option Z :=
  match s with
  | EmptyString => Some acc
  | String c s' =>
      if is_digit c then digits_value s' (10 * acc + (char_code c - 48)) else None
  end.

(** The text before the first point, and the text after it if there is one. *)
Fixpoint split_point (s : string) : string * option string :=
  match s with
  | EmptyString => (EmptyString, None)
  | String c s' =>
      if Ascii.eqb c "." then (EmptyString, Some s')
      else let '(a, b) := split_point s' in (String c a, b)
  end.

Definition parse_decimal (neg : bool) (s : string) : result float64 :=
  let '(ip, fp) := split_point s in
  let fp := default EmptyString fp in
  if (String.length ip + String.length fp =? 0)%nat then Err ErrParseFloat
  else
    match digits_value (ip +:+ fp) 0 with
    | None => Err ErrParseFloat
    | Some num =>
        let x := f64_of_ratio neg num (10 ^ Z.of_nat (String.length fp)) in
        if is_finite x then Ok x else Err ErrParseFloat
    end.

(** [strconv.ParseFloat(s, 64)] on the texts that [%.8f] prints: an optional
    sign, digits, and an optional point followed by digits, correctly rounded
    (ties to even), with a range error when the value rounds to an infinity;
    and the three spellings of the non-finite values.  The exponent,
    hexadecimal and underscore forms never reach this function and are not
    modelled: they are errors here. *)
Definition strconv_ParseFloat (s : string) : result float64 :=
  if String.eqb s "+Inf" then Ok (S754_infinity false)
  else if String.eqb s "-Inf" then Ok (S754_infinity true)
  else if String.eqb s "NaN" then Ok S754_nan
  else
    match s with
    | String c s' =>
        if Ascii.eqb c "-" then parse_decimal true s'
        else if Ascii.eqb c "+" then parse_decimal false s'
        else parse_decimal false s
    | EmptyString => parse_decimal false s
    end.

(** ** NumericCodec *)

(** The constant [1e-12] at type float64. *)
Definition c_1e_12 : float64 := f64_lit 1 12.
(** The constant [1e-3] at type float64. *)
Definition c_1e_3 : float64 := f64_lit 1 3.

(** [FloatToWire] (lines 218-241). *)
Definition FloatToWire (x : float64) : result string :=
  let rounded := fmt_Sprintf_8f x in
  try parsedRounded := strconv_ParseFloat rounded in
  if f64_ge (f64_abs (f64_sub parsedRounded x)) c_1e_12
  then Err ErrFloatToWireRounding
  else
    let rounded := if String.eqb rounded "-0.00000000" then "0.00000000"%string else rounded in
    let trimmed := strings_TrimRight rounded "0" in
    let trimmed := strings_TrimRight trimmed "." in
    let trimmed := if String.eqb trimmed "" then "0"%string else trimmed in
    Ok trimmed.

(** Addition, division and [a < b] on float64. *)
Definition f64_add : float64 -> float64 -> float64 := SFadd 53 1024.
Definition f64_div : float64 -> float64 -> float64 := SFdiv 53 1024.
Definition f64_lt (a b : float64) : bool := SFltb a b.

(** [math.Frexp(x)] for a finite [x] that is not zero: a fraction in
    [[1/2, 1)] and the power of two, [10 = 0.625 * 2^4]; and
    [math.Ldexp(frac, exp)]: [frac * 2^exp] rounded to float64, an infinity
    on overflow, a subnormal or a zero on underflow. *)
Definition math_Frexp (x : float64) : float64 * Z := SFfrexp 53 1024 x.
Definition math_Ldexp (frac : float64) (exp : Z) : float64 := SFldexp 53 1024 frac exp.

(** The loop of [pow] (package math): [ans *= x**yi] by repeated squaring,
    on the fraction [x1] and the exponent [xe] of [x], with the result in
    [a1 * 2^ae].  Every product is a float64 product and is rounded.
    [i] is an [int64] that is not negative, so the loop ends within 63
    turns.
<<
    for i := int64(yi); i != 0; i >>= 1 {
        if xe < -1<<12 || 1<<12 < xe { ae += xe; break }
        if i&1 == 1 { a1 *= x1; ae += xe }
        x1 *= x1
        xe <<= 1
        if x1 < .5 { x1 += x1; xe-- }
    }
>> *)
Fixpoint pow_loop (fuel : nat) (i : Z) (x1 : float64) (xe : Z) (a1 : float64) (ae : Z)
    : float64 * Z :=
  match fuel with
  | O => (a1, ae)
  | S fuel' =>
      if i =? 0 then (a1, ae)
      else if (xe <? - 2 ^ 12) || (2 ^ 12 <? xe) then (a1, ae + xe)
      else
        let '(a1, ae) := if Z.odd i then (f64_mul a1 x1, ae + xe) else (a1, ae) in
        let x1 := f64_mul x1 x1 in
        let xe := 2 * xe in
        let '(x1, xe) :=
          if f64_lt x1 (f64_lit 5 1) then (f64_add x1 x1, xe - 1) else (x1, xe) in
        pow_loop fuel' (i / 2) x1 xe a1 ae
  end.

(** [math.Pow(10, float64(power))] for an [int] [power]: the function [pow]
    of package math (Go has an assembly version on s390x only) on the base 10
    and an integral exponent [y = float64(power)].  Of its special cases
    these are reached: [y == 0] gives 1 and [y == 1] gives 10.  Then
    [yi, yf := Modf(Abs(y))] has [yf = 0]; for [yi >= 1<<63] the result is 0
    when [y < 0] and [+Inf] otherwise; else the loop runs on
    [x1, xe := Frexp(10)] from [a1 = 1], [ae = 0], a negative [y] takes
    [a1 = 1 / a1] and [ae = -ae], and the result is [Ldexp(a1, ae)].
    For [0 <= power <= 22] the result is [10^power] exactly; beyond, it need
    not be the float64 nearest to [10^power]. *)
Definition math_Pow10 (power : Z) : float64 :=
  let x := f64_of_Z 10 in
  let y := f64_of_Z power in
  if power =? 0 then f64_of_Z 1
  else if power =? 1 then x
  else
    match f64_trunc (f64_abs y) with
    | None => S754_nan (* not reached: [y] is finite *)
    | Some yi =>
        if 2 ^ 63 <=? yi
        then (if power <? 0 then S754_zero false else S754_infinity false)
        else
          let '(x1, xe) := math_Frexp x in
          let '(a1, ae) := pow_loop 64 yi x1 xe (f64_of_Z 1) 0 in
          let '(a1, ae) := if power <? 0 then (f64_div (f64_of_Z 1) a1, - ae) else (a1, ae) in
          math_Ldexp a1 ae
    end.

(** [math.Round(x)]: the nearest integer, halves away from zero;
    [Round(±0) = ±0], [Round(±Inf) = ±Inf], [Round(NaN) = NaN], and a value
    that rounds to zero keeps its sign. *)
Definition math_Round (x : float64) : float64 :=
  match x with
  | S754_finite s m e =>
      if 0 <=? e then x
      else
        let d := 2 ^ (- e) in
        let q := Zpos m / d in
        let r := Zpos m mod d in
        let n := if d <=? 2 * r then q + 1 else q in
        match n with
        | Z0 => S754_zero s
        | _ => binary_normalize 53 1024 (cond_Zopp s n) 0 s
        end
  | _ => x
  end.

(** The value of an [int64] bit pattern. *)
Definition wrap_int64 (z : Z) : Z := (z + 2 ^ 63) mod 2 ^ 64 - 2 ^ 63.

Section Conversion.

(** The Go specification leaves the conversion of a float that no [int64]
    can represent implementation-dependent: it succeeds with some [int64].
    [unrepresentable] is that choice of the platform. *)
Variable unrepresentable : float64 -> Z.

(** The conversion [int64(x)]. *)
Definition int64_of_float64 (x : float64) : Z :=
  match f64_trunc x with
  | Some z =>
      if (- 2 ^ 63 <=? z) && (z <? 2 ^ 63) then z else wrap_int64 (unrepresentable x)
  | None => wrap_int64 (unrepresentable x)
  end.

(** [FloatToInt] (lines 254-263). *)
Definition FloatToInt (x : float64) (power : Z) : result Z :=
  let withDecimals := f64_mul x (math_Pow10 power) in
  let rounded := math_Round withDecimals in
  if f64_ge (f64_abs (f64_sub rounded withDecimals)) c_1e_3
  then Err ErrFloatToIntRounding
  else Ok (int64_of_float64 rounded).

(** [FloatToIntForHashing] and [FloatToUSDInt] (lines 244-251). *)
Definition FloatToIntForHashing (x : float64) : result Z := FloatToInt x 8.
Definition FloatToUSDInt (x : float64) : result Z := FloatToInt x 6.

End Conversion.

(** *** The codec in terms of exact values *)

(** The sign bit of a float. *)
Definition f64_sign (x : float64) : bool :=
  match x with
  | S754_zero s | S754_infinity s | S754_finite s _ _ => s
  | S754_nan => false
  end.

(** The digits that [%.8f] prints for a finite float: its absolute value
    times [10^8], rounded to the nearest integer (ties to even). *)
Definition digits8 (x : float64) : Z :=
  match x with
  | S754_finite _ m e => scaled8 m e
  | _ => 0
  end.

(** The text of [%.8f] for the digits [n], without the sign. *)
Definition unsigned8 (n : Z) : string :=
  decimal (n / 10 ^ 8) +:+ String "." (zero_padded 8 (n mod 10 ^ 8)).

(** The text that [FloatToWire] returns for the text [rounded] of [%.8f]
    (lines 229-238). *)
Definition trimmed_of (rounded : string) : string :=
  let rounded := if String.eqb rounded "-0.00000000" then "0.00000000"%string else rounded in
  let trimmed := strings_TrimRight rounded "0" in
  let trimmed := strings_TrimRight trimmed "." in
  if String.eqb trimmed "" then "0"%string else trimmed.

(** The integer nearest to the exact value of a finite float, halves away
    from zero. *)
Definition nearest_integer (w : float64) : option Z :=
  match w with
  | S754_zero _ => Some 0
  | S754_finite s m e =>
      Some (cond_Zopp s (if 0 <=? e then Zpos m * 2 ^ e
                         else (2 * Zpos m + 2 ^ (- e)) / (2 * 2 ^ (- e))))
  | S754_infinity _ | S754_nan => None
  end.

(** The integer that a float is, if it is one. *)
Definition f64_integer_value (x : float64) : option Z :=
  match x with
  | S754_zero _ => Some 0
  | S754_finite s m e =>
      if 0 <=? e then Some (cond_Zopp s (Zpos m * 2 ^ e))
      else if Zpos m mod 2 ^ (- e) =? 0 then Some (cond_Zopp s (Zpos m / 2 ^ (- e)))
      else None
  | S754_infinity _ | S754_nan => None
  end.

(** The float64 [1e19], an integer above the largest [int64]. *)
Definition x_1e19 : float64 := f64_of_Z (10 ^ 19).

(** The canonical decimal format of the specification: an optional leading
    [-], at least one integer digit, and optionally a point followed by one to
    eight fractional digits, the last of which is not [0]. *)
Fixpoint all_digits (s : string) : bool :=
  match s with
  | EmptyString => true
  | String c s' => is_digit c && all_digits s'
  end.

Fixpoint last_char (s : string) : option ascii :=
  match s with
  | EmptyString => None
  | String c EmptyString => Some c
  | String _ s' => last_char s'
  end.

Definition canonical_unsigned (s : string) : bool :=
  let '(ip, fp) := split_point s in
  (0 <? String.length ip)%nat && all_digits ip
  && match fp with
     | None => true
     | Some f =>
         (1 <=? String.length f)%nat && (String.length f <=? 8)%nat && all_digits f
         && match last_char f with
            | Some c => negb (Ascii.eqb c "0")
            | None => false
            end
     end.

Definition canonical_decimal (s : string) : bool :=
  match s with
  | String c s' => if Ascii.eqb c "-" then canonical_unsigned s' else canonical_unsigned s
  | EmptyString => false
  end.

(** ** WireModel *)

(** [type TIF string], [type TPSL string], [type Grouping string]. *)
Definition TIF : Type := string.
Definition TIFAlo : TIF := "Alo".
Definition TIFIoc : TIF := "Ioc".
Definition TIFGtc : TIF := "Gtc".

Definition TPSL : Type := string.
Definition TPSLTp : TPSL := "tp".
Definition TPSLSl : TPSL := "sl".

Definition Grouping : Type := string.
Definition GroupingNA : Grouping := "na".
Definition GroupingNormalTpsl : Grouping := "normalTpsl".
Definition GroupingPositionTpsl : Grouping := "positionTpsl".

Record LimitOrderType : Type := { lim_TIF : TIF }.

Record TriggerOrderType : Type :=
  { trg_TriggerPx : float64; trg_IsMarket : bool; trg_TPSL : TPSL }.

Record TriggerOrderTypeWire : Type :=
  { trw_TriggerPx : string; trw_IsMarket : bool; trw_TPSL : TPSL }.

(** A nil pointer is [None]. *)
Record OrderType : Type :=
  { ot_Limit : option LimitOrderType; ot_Trigger : option TriggerOrderType }.

Record OrderTypeWire : Type :=
  { otw_Limit : option LimitOrderType; otw_Trigger : option TriggerOrderTypeWire }.

Record OrderRequest : Type :=
  { req_Coin : string;
    req_IsBuy : bool;
    req_Sz : float64;
    req_LimitPx : float64;
    req_OrderType : OrderType;
    req_ReduceOnly : bool;
    req_Cloid : option string }.

Record OrderWire : Type :=
  { ow_A : Z;              (* asset *)
    ow_B : bool;           (* is_buy *)
    ow_P : string;         (* price *)
    ow_S : string;         (* size *)
    ow_R : bool;           (* reduce_only *)
    ow_T : OrderTypeWire;  (* order_type *)
    ow_C : option string   (* cloid *) }.

(** [OrderTypeToWire] (lines 271-288). *)
Definition OrderTypeToWire (orderType : OrderType) : result OrderTypeWire :=
  match ot_Limit orderType with
  | Some limit => Ok {| otw_Limit := Some limit; otw_Trigger := None |}
  | None =>
      match ot_Trigger orderType with
      | Some trigger =>
          try triggerPxWire := FloatToWire (trg_TriggerPx trigger) in
          Ok {| otw_Limit := None;
                otw_Trigger := Some {| trw_IsMarket := trg_IsMarket trigger;
                                       trw_TriggerPx := triggerPxWire;
                                       trw_TPSL := trg_TPSL trigger |} |}
      | None => Err ErrInvalidOrderType
      end
  end.

(** [OrderRequestToOrderWire] (lines 485-515). *)
Definition OrderRequestToOrderWire (order : OrderRequest) (asset : Z) : result OrderWire :=
  try limitPxWire := FloatToWire (req_LimitPx order) in
  try szWire := FloatToWire (req_Sz order) in
  try orderTypeWire := OrderTypeToWire (req_OrderType order) in
  Ok {| ow_A := asset;
        ow_B := req_IsBuy order;
        ow_P := limitPxWire;
        ow_S := szWire;
        ow_R := req_ReduceOnly order;
        ow_T := orderTypeWire;
        ow_C := req_Cloid order |}.

(** The dynamic values ([interface{}]) that the actions of the package hold.
    A slice or a map here is one that is not nil; a nil slice, which
    [msgpack.Marshal] writes as nil, has no value of its own. *)
#[warnings="-register-all"] Inductive Value : Type :=
  | VNil
  | VBool (b : bool)
  | VInt (n : Z)                      (* int *)
  | VUint64 (n : Z)                   (* uint64 *)
  | VString (s : string)
  | VOrderWires (l : list OrderWire)  (* []OrderWire *)
  | VSlice (l : list Value)           (* []interface{} *)
  | VMap (m : gmap string Value).     (* map[string]interface{} *)

(** [OrderWiresToOrderAction] (lines 518-530). *)
Definition OrderWiresToOrderAction (orderWires : list OrderWire) (builder : option string)
  : gmap string Value :=
  let action : gmap string Value :=
    <["grouping" := VString "na"]>
      (<["orders" := VOrderWires orderWires]>
         (<["type" := VString "order"]> ∅)) in
  match builder with
  | Some b => <["builder" := VString b]> action
  | None => action
  end.

(** ** Bytes and hexadecimal text *)

(** The bytes of a Go string. *)
Definition bytes_of_string (s : string) : list Z := map char_code (list_ascii_of_string s).

(** The [k] low bytes of [n], most significant first. *)
Fixpoint be_bytes (k : nat) (n : Z) : list Z :=
  match k with
  | O => []
  | S k' => (n / 256 ^ Z.of_nat k') mod 256 :: be_bytes k' n
  end.

(** The number that a sequence of bytes denotes, most significant first. *)
Definition be_value (bs : list Z) : Z := fold_left (fun acc b => 256 * acc + b) bs 0.

Definition is_byte (b : Z) : Prop := 0 <= b < 256.

(** [fromHexChar] of [encoding/hex]. *)
Definition fromHexChar (c : ascii) : option Z :=
  let n := char_code c in
  if (48 <=? n) && (n <=? 57) then Some (n - 48)
  else if (97 <=? n) && (n <=? 102) then Some (n - 97 + 10)
  else if (65 <=? n) && (n <=? 70) then Some (n - 65 + 10)
  else None.

(** [hex.DecodeString(s)]: an odd length and a character that is no
    hexadecimal digit are errors. *)
Fixpoint hex_DecodeString (s : string) : result (list Z) :=
  match s with
  | EmptyString => Ok []
  | String _ EmptyString => Err ErrHexDecode
  | String a (String b s') =>
      match fromHexChar a, fromHexChar b with
      | Some x, Some y =>
          try rest := hex_DecodeString s' in
          Ok (16 * x + y :: rest)
      | _, _ => Err ErrHexDecode
      end
  end.

(** The lower-case hexadecimal digit of a value below 16. *)
Definition hex_digit (d : Z) : ascii :=
  if d <? 10 then char_of_code (48 + d) else char_of_code (87 + d).

(** [hex.EncodeToString(bs)]. *)
Fixpoint hex_EncodeToString (bs : list Z) : string :=
  match bs with
  | [] => EmptyString
  | b :: bs' => String (hex_digit (b / 16)) (String (hex_digit (b mod 16)) (hex_EncodeToString bs'))
  end.

(** [hexutil.Encode(bs)]: hexadecimal with the prefix [0x]. *)
Definition hexutil_Encode (bs : list Z) : string := "0x" +:+ hex_EncodeToString bs.

(** [AddressToBytes] (lines 291-294). *)
Definition AddressToBytes (address : string) : result (list Z) :=
  let address := strings_TrimPrefix address "0x" in
  hex_DecodeString address.

(** [strings.ToLower] on ASCII text. *)
Definition to_lower_char (c : ascii) : ascii :=
  if (65 <=? char_code c) && (char_code c <=? 90) then char_of_code (char_code c + 32) else c.

Fixpoint strings_ToLower (s : string) : string :=
  match s with
  | EmptyString => EmptyString
  | String c s' => String (to_lower_char c) (strings_ToLower s')
  end.

Definition is_hex_char (c : ascii) : bool :=
  match fromHexChar c with
  | Some _ => true
  | None => false
  end.

(** An address as the exchange writes it: [0x] and forty hexadecimal digits. *)
Definition is_address (s : string) : bool :=
  match strip_prefix s "0x" with
  | Some body =>
      (String.length body =? 40)%nat && forallb is_hex_char (list_ascii_of_string body)
  | None => false
  end.

(** ** sha3.NewLegacyKeccak256

    Keccak with a rate of 136 bytes, the padding [0x01 .. 0x80] and an output
    of 32 bytes, over a state of 25 lanes of 64 bits. *)

Definition keccak_RC : list Z :=
  [0x0000000000000001; 0x0000000000008082; 0x800000000000808A; 0x8000000080008000;
   0x000000000000808B; 0x0000000080000001; 0x8000000080008081; 0x8000000000008009;
   0x000000000000008A; 0x0000000000000088; 0x0000000080008009; 0x000000008000000A;
   0x000000008000808B; 0x800000000000008B; 0x8000000000008089; 0x8000000000008003;
   0x8000000000008002; 0x8000000000000080; 0x000000000000800A; 0x800000008000000A;
   0x8000000080008081; 0x8000000000008080; 0x0000000080000001; 0x8000000080008008].

(** The rotation of the lane at [(x, y)], at the index [x + 5 * y]. *)
Definition keccak_ROT : list Z :=
  [ 0;  1; 62; 28; 27;
   36; 44;  6; 55; 20;
    3; 10; 43; 25; 39;
   41; 45; 15; 21;  8;
   18;  2; 61; 56; 14].

Definition rotl64 (x n : Z) : Z :=
  Z.lor (Z.shiftl x n mod 2 ^ 64) (Z.shiftr x (64 - n)).

Definition lane (A : list Z) (x y : Z) : Z :=
  nth (Z.to_nat (x mod 5 + 5 * (y mod 5))) A 0.

Definition keccak_coords : list (Z * Z) :=
  flat_map (fun y => map (fun x => (x, y)) [0; 1; 2; 3; 4]) [0; 1; 2; 3; 4].

Definition keccak_theta (A : list Z) : list Z :=
  let C x :=
    Z.lxor (lane A x 0)
      (Z.lxor (lane A x 1) (Z.lxor (lane A x 2) (Z.lxor (lane A x 3) (lane A x 4)))) in
  let D x := Z.lxor (C (x + 4)) (rotl64 (C (x + 1)) 1) in
  map (fun '(x, y) => Z.lxor (lane A x y) (D x)) keccak_coords.

(** The lane at [(x, y)] is rotated and moved to [(y, 2x + 3y)]. *)
Definition keccak_rho_pi (A : list Z) : list Z :=
  map (fun '(X, Y) =>
         let y := X in
         let x := ((Y + 2 * X) * 3) mod 5 in
         rotl64 (lane A x y) (nth (Z.to_nat (x + 5 * y)) keccak_ROT 0)) keccak_coords.

Definition keccak_chi (B : list Z) : list Z :=
  map (fun '(x, y) =>
         Z.lxor (lane B x y)
           (Z.land (Z.lxor (lane B (x + 1) y) (2 ^ 64 - 1)) (lane B (x + 2) y))) keccak_coords.

Definition keccak_iota (rc : Z) (A : list Z) : list Z :=
  match A with
  | a :: A' => Z.lxor a rc :: A'
  | [] => []
  end.

Definition keccak_round (A : list Z) (rc : Z) : list Z :=
  keccak_iota rc (keccak_chi (keccak_rho_pi (keccak_theta A))).

Definition keccak_f (A : list Z) : list Z := fold_left keccak_round keccak_RC A.

(** A lane from its bytes, least significant first, and back. *)
Fixpoint le_value (bs : list Z) : Z :=
  match bs with
  | [] => 0
  | b :: bs' => b + 256 * le_value bs'
  end.

Definition le_bytes8 (l : Z) : list Z :=
  map (fun i => Z.shiftr l (8 * i) mod 256) [0; 1; 2; 3; 4; 5; 6; 7].

Fixpoint lanes_of (n : nat) (bs : list Z) : list Z :=
  match n with
  | O => []
  | S n' => le_value (firstn 8 bs) :: lanes_of n' (skipn 8 bs)
  end.

Definition keccak_rate : nat := 136.

Definition keccak_pad (msg : list Z) : list Z :=
  let q := (keccak_rate - length msg mod keccak_rate)%nat in
  match q with
  | 1%nat => msg ++ [0x81]
  | _ => msg ++ [0x01] ++ repeat 0 (q - 2) ++ [0x80]
  end.

Definition keccak_absorb_block (A : list Z) (block : list Z) : list Z :=
  keccak_f (zip_with Z.lxor A (lanes_of 17 block ++ repeat 0 8)).

Fixpoint keccak_absorb (blocks : nat) (A : list Z) (bs : list Z) : list Z :=
  match blocks with
  | O => A
  | S n => keccak_absorb n (keccak_absorb_block A (firstn keccak_rate bs)) (skipn keccak_rate bs)
  end.

(** The digest of [msg]: the first four lanes of the state after absorbing
    the padded message. *)
Definition sha3_Keccak256 (msg : list Z) : list Z :=
  let p := keccak_pad msg in
  let A := keccak_absorb (length p / keccak_rate) (repeat 0 25) p in
  le_bytes8 (lane A 0 0) ++ le_bytes8 (lane A 1 0) ++ le_bytes8 (lane A 2 0) ++ le_bytes8 (lane A 3 0).

(** ** msgpack.Marshal

    The MessagePack encoding of [github.com/vmihailenco/msgpack/v5] with the
    default encoder: a struct is a map of its fields by their Go names, in the
    order of declaration; a [map[string]interface{}] is written by a [range]
    over the map (the encoder does not sort keys unless asked to). *)

Definition msgpack_string (s : string) : list Z :=
  let l := Z.of_nat (String.length s) in
  (if l <? 32 then [Z.lor 0xa0 l]
   else if l <? 256 then [0xd9; l]
   else if l <=? 65535 then 0xda :: be_bytes 2 l
   else 0xdb :: be_bytes 4 l) ++ bytes_of_string s.

Definition msgpack_uint (n : Z) : list Z :=
  if n <=? 127 then [n]
  else if n <=? 255 then [0xcc; n]
  else if n <=? 65535 then 0xcd :: be_bytes 2 n
  else if n <=? 4294967295 then 0xce :: be_bytes 4 n
  else 0xcf :: be_bytes 8 n.

Definition msgpack_int (n : Z) : list Z :=
  if 0 <=? n then msgpack_uint n
  else if - 32 <=? n then [n + 256]
  else if - 128 <=? n then [0xd0; n + 256]
  else if - 32768 <=? n then 0xd1 :: be_bytes 2 (n + 2 ^ 16)
  else if - 2147483648 <=? n then 0xd2 :: be_bytes 4 (n + 2 ^ 32)
  else 0xd3 :: be_bytes 8 (n + 2 ^ 64).

Definition msgpack_bool (b : bool) : list Z := [if b then 0xc3 else 0xc2].
Definition msgpack_nil : list Z := [0xc0].

Definition msgpack_array_len (l : Z) : list Z :=
  if l <? 16 then [Z.lor 0x90 l]
  else if l <=? 65535 then 0xdc :: be_bytes 2 l
  else 0xdd :: be_bytes 4 l.

Definition msgpack_map_len (l : Z) : list Z :=
  if l <? 16 then [Z.lor 0x80 l]
  else if l <=? 65535 then 0xde :: be_bytes 2 l
  else 0xdf :: be_bytes 4 l.

Definition msgpack_pointer {A : Type} (enc : A -> list Z) (p : option A) : list Z :=
  match p with
  | Some a => enc a
  | None => msgpack_nil
  end.

Definition msgpack_LimitOrderType (l : LimitOrderType) : list Z :=
  msgpack_map_len 1 ++ msgpack_string "TIF" ++ msgpack_string (lim_TIF l).

Definition msgpack_TriggerOrderTypeWire (t : TriggerOrderTypeWire) : list Z :=
  msgpack_map_len 3
    ++ msgpack_string "TriggerPx" ++ msgpack_string (trw_TriggerPx t)
    ++ msgpack_string "IsMarket" ++ msgpack_bool (trw_IsMarket t)
    ++ msgpack_string "TPSL" ++ msgpack_string (trw_TPSL t).

Definition msgpack_OrderTypeWire (t : OrderTypeWire) : list Z :=
  msgpack_map_len 2
    ++ msgpack_string "Limit" ++ msgpack_pointer msgpack_LimitOrderType (otw_Limit t)
    ++ msgpack_string "Trigger" ++ msgpack_pointer msgpack_TriggerOrderTypeWire (otw_Trigger t).

Definition msgpack_OrderWire (w : OrderWire) : list Z :=
  msgpack_map_len 7
    ++ msgpack_string "A" ++ msgpack_int (ow_A w)
    ++ msgpack_string "B" ++ msgpack_bool (ow_B w)
    ++ msgpack_string "P" ++ msgpack_string (ow_P w)
    ++ msgpack_string "S" ++ msgpack_string (ow_S w)
    ++ msgpack_string "R" ++ msgpack_bool (ow_R w)
    ++ msgpack_string "T" ++ msgpack_OrderTypeWire (ow_T w)
    ++ msgpack_string "C" ++ msgpack_pointer msgpack_string (ow_C w).

Section ActionHasher.

(** The order in which a [range] over a map visits its keys.  The Go
    specification leaves it unspecified, and the runtime starts every
    iteration at a random position: [range_order] is the choice made in one
    run, as a rearrangement of the keys of the map. *)
Variable range_order : list string -> list string.

(** The keys of [m] in the order of this run's [range]. *)
Definition range_keys {A : Type} (m : gmap string A) : list string :=
  range_order (map_to_list m).*1.

(** [msgpack.Marshal(v)]. *)
Fixpoint msgpack_Marshal (v : Value) : list Z :=
  match v with
  | VNil => msgpack_nil
  | VBool b => msgpack_bool b
  | VInt n => msgpack_int n
  | VUint64 n => 0xcf :: be_bytes 8 n
  | VString s => msgpack_string s
  | VOrderWires l =>
      msgpack_array_len (Z.of_nat (length l)) ++ concat (map msgpack_OrderWire l)
  | VSlice l =>
      msgpack_array_len (Z.of_nat (length l)) ++ concat (map msgpack_Marshal l)
  | VMap m =>
      let encoded := msgpack_Marshal <$> m in
      msgpack_map_len (Z.of_nat (size m))
        ++ concat (map (fun k => msgpack_string k ++ default [] (encoded !! k)) (range_keys m))
  end.

(** The loop [for i := 7; i >= 0; i-- { bytes[i] = byte(v & 0xff); v >>= 8 }],
    with [i] iterations left. *)
Fixpoint put_big_endian (i : nat) (bytes : list Z) (v : Z) : list Z :=
  match i with
  | O => bytes
  | S i' => put_big_endian i' (<[i' := Z.land v 0xff]> bytes) (Z.shiftr v 8)
  end.

(** [ActionHash] (lines 297-338).  [msgpack.Marshal] returns an error for a
    Go value of a kind that it has no encoder for (a channel, a function);
    [Value] has the kinds that the package puts into an action, which all
    encode, so the check of that error (lines 299-301) has no case here. *)
Definition ActionHash (action : Value) (vaultAddress : option string) (nonce : Z)
    (expiresAfter : option Z) : result (list Z) :=
  let data := msgpack_Marshal action in
  let nonceBytes := put_big_endian 8 (replicate 8 0) nonce in
  let data := data ++ nonceBytes in
  try data :=
    match vaultAddress with
    | None => Ok (data ++ [0x00])
    | Some vault =>
        let data := data ++ [0x01] in
        try vaultBytes := AddressToBytes vault in
        Ok (data ++ vaultBytes)
    end in
  let data :=
    match expiresAfter with
    | Some expires =>
        let data := data ++ [0x00] in
        let expiresBytes := put_big_endian 8 (replicate 8 0) expires in
        data ++ expiresBytes
    | None => data
    end in
  Ok (sha3_Keccak256 data).

End ActionHasher.

(** ** strconv.ParseInt(s, 0, 64) *)

(** [lower(c)] of strconv: [c | ('x' - 'X')]. *)
Definition lower (c : ascii) : ascii := char_of_code (Z.lor (char_code c) 32).

Inductive last_seen : Type := SawStart | SawDigit | SawUnderscore | SawOther.

Fixpoint underscore_scan (hex : bool) (saw : last_seen) (s : string) : bool :=
  match s with
  | EmptyString => match saw with SawUnderscore => false | _ => true end
  | String c s' =>
      if is_digit c || (hex && (97 <=? char_code (lower c)) && (char_code (lower c) <=? 102))
      then underscore_scan hex SawDigit s'
      else if Ascii.eqb c "_"
      then match saw with SawDigit => underscore_scan hex SawUnderscore s' | _ => false end
      else match saw with SawUnderscore => false | _ => underscore_scan hex SawOther s' end
  end.

(** [underscoreOK(s)]: an underscore may only separate digits, or a base
    prefix from a digit. *)
Definition underscoreOK (s : string) : bool :=
  let s :=
    match s with
    | String c s' => if Ascii.eqb c "-" || Ascii.eqb c "+" then s' else s
    | EmptyString => s
    end in
  match s with
  | String z (String p s') =>
      if Ascii.eqb z "0"
         && (Ascii.eqb (lower p) "b" || Ascii.eqb (lower p) "o" || Ascii.eqb (lower p) "x")
      then underscore_scan (Ascii.eqb (lower p) "x") SawDigit s'
      else underscore_scan false SawStart s
  | _ => underscore_scan false SawStart s
  end.

(** The digit loop of [ParseUint] in base 0; [None] is a syntax or a range
    error. *)
Fixpoint parse_uint_digits (base : Z) (s : string) (n : Z) : option Z :=
  match s with
  | EmptyString => Some n
  | String c s' =>
      if Ascii.eqb c "_" then parse_uint_digits base s' n
      else
        let d :=
          if is_digit c then Some (char_code c - 48)
          else if (97 <=? char_code (lower c)) && (char_code (lower c) <=? 122)
          then Some (char_code (lower c) - 97 + 10)
          else None in
        match d with
        | None => None
        | Some d =>
            if base <=? d then None
            else
              let n1 := n * base + d in
              if 2 ^ 64 <=? n1 then None else parse_uint_digits base s' n1
        end
  end.

(** [strconv.ParseUint(s, 0, 64)]. *)
Definition strconv_ParseUint (s : string) : option Z :=
  match s with
  | EmptyString => None
  | String c rest =>
      let '(base, digits) :=
        if Ascii.eqb c "0" then
          match rest with
          | String p r =>
              if (3 <=? String.length s)%nat && Ascii.eqb (lower p) "b" then (2, r)
              else if (3 <=? String.length s)%nat && Ascii.eqb (lower p) "o" then (8, r)
              else if (3 <=? String.length s)%nat && Ascii.eqb (lower p) "x" then (16, r)
              else (8, rest)
          | EmptyString => (8, rest)
          end
        else (10, s) in
      match parse_uint_digits base digits 0 with
      | None => None
      | Some n =>
          if existsb (Ascii.eqb "_") (list_ascii_of_string digits) && negb (underscoreOK s)
          then None else Some n
      end
  end.

(** [strconv.ParseInt(s, 0, 64)]: an optional sign, then an unsigned number
    whose base is given by its prefix ([0b], [0o], [0x], [0], or none for
    base 10); a value outside [int64] is a range error. *)
Definition strconv_ParseInt (s : string) : result Z :=
  match s with
  | EmptyString => Err ErrParseInt
  | String c s' =>
      let '(neg, body) :=
        if Ascii.eqb c "+" then (false, s')
        else if Ascii.eqb c "-" then (true, s')
        else (false, s) in
      match strconv_ParseUint body with
      | None => Err ErrParseInt
      | Some un =>
          if negb neg && (2 ^ 63 <=? un) then Err ErrParseInt
          else if neg && (2 ^ 63 <? un) then Err ErrParseInt
          else Ok (if neg then - un else un)
      end
  end.

(** ** Typed data *)

(** [apitypes.Type]. *)
Record apitypes_Type : Type := { ty_Name : string; ty_Type : string }.

(** [apitypes.TypedDataDomain]; [ChainId] is a pointer to a big integer. *)
Record TypedDataDomain : Type :=
  { dom_Name : string;
    dom_Version : string;
    dom_ChainId : option Z;
    dom_VerifyingContract : string;
    dom_Salt : string }.

(** [apitypes.TypedData]. *)
Record TypedData : Type :=
  { td_Types : gmap string (list apitypes_Type);
    td_PrimaryType : string;
    td_Domain : TypedDataDomain;
    td_Message : gmap string Value }.

(** [TypedDataDomain.Map()]: the fields that are set. *)
Definition TypedDataDomain_Map (d : TypedDataDomain) : gmap string Value :=
  let m : gmap string Value := ∅ in
  let m := match dom_ChainId d with Some c => <["chainId" := VInt c]> m | None => m end in
  let m := if (0 <? String.length (dom_Name d))%nat then <["name" := VString (dom_Name d)]> m else m in
  let m := if (0 <? String.length (dom_Version d))%nat
           then <["version" := VString (dom_Version d)]> m else m in
  let m := if (0 <? String.length (dom_VerifyingContract d))%nat
           then <["verifyingContract" := VString (dom_VerifyingContract d)]> m else m in
  let m := if (0 <? String.length (dom_Salt d))%nat then <["salt" := VString (dom_Salt d)]> m else m in
  m.

Definition EIP712Domain_types : list apitypes_Type :=
  [ {| ty_Name := "name"; ty_Type := "string" |};
    {| ty_Name := "version"; ty_Type := "string" |};
    {| ty_Name := "chainId"; ty_Type := "uint256" |};
    {| ty_Name := "verifyingContract"; ty_Type := "address" |} ].

Definition zero_address : string := "0x0000000000000000000000000000000000000000".

(** The signing types of the user-signed actions (lines 142-202, 566-582). *)
Definition string_field (n : string) : apitypes_Type := {| ty_Name := n; ty_Type := "string" |}.
Definition uint64_field (n : string) : apitypes_Type := {| ty_Name := n; ty_Type := "uint64" |}.
Definition bool_field (n : string) : apitypes_Type := {| ty_Name := n; ty_Type := "bool" |}.
Definition address_field (n : string) : apitypes_Type := {| ty_Name := n; ty_Type := "address" |}.
Definition bytes32_field (n : string) : apitypes_Type := {| ty_Name := n; ty_Type := "bytes32" |}.

Definition USDSendSignTypes : list apitypes_Type :=
  [string_field "hyperliquidChain"; string_field "destination"; string_field "amount";
   uint64_field "time"].
Definition SpotTransferSignTypes : list apitypes_Type :=
  [string_field "hyperliquidChain"; string_field "destination"; string_field "token";
   string_field "amount"; uint64_field "time"].
Definition WithdrawSignTypes : list apitypes_Type :=
  [string_field "hyperliquidChain"; string_field "destination"; string_field "amount";
   uint64_field "time"].
Definition USDClassTransferSignTypes : list apitypes_Type :=
  [string_field "hyperliquidChain"; string_field "amount"; bool_field "toPerp";
   uint64_field "nonce"].
Definition SendAssetSignTypes : list apitypes_Type :=
  [string_field "hyperliquidChain"; string_field "destination"; string_field "sourceDex";
   string_field "destinationDex"; string_field "token"; string_field "amount";
   string_field "fromSubAccount"; uint64_field "nonce"].
Definition TokenDelegateTypes : list apitypes_Type :=
  [string_field "hyperliquidChain"; address_field "validator"; uint64_field "wei";
   bool_field "isUndelegate"; uint64_field "nonce"].
Definition ConvertToMultiSigUserSignTypes : list apitypes_Type :=
  [string_field "hyperliquidChain"; string_field "signers"; uint64_field "nonce"].
Definition MultiSigEnvelopeSignTypes : list apitypes_Type :=
  [string_field "hyperliquidChain"; bytes32_field "multiSigActionHash"; uint64_field "nonce"].
Definition agentSignTypes : list apitypes_Type :=
  [string_field "hyperliquidChain"; address_field "agentAddress"; string_field "agentName";
   uint64_field "nonce"].
Definition builderFeeSignTypes : list apitypes_Type :=
  [string_field "hyperliquidChain"; string_field "maxFeeRate"; address_field "builder";
   uint64_field "nonce"].

Record Signature : Type := { sig_R : string; sig_S : string; sig_V : Z }.

Record PhantomAgent : Type := { pa_Source : string; pa_ConnectionID : string }.

(** [ConstructPhantomAgent] (lines 341-350). *)
Definition ConstructPhantomAgent (hash : list Z) (isMainnet : bool) : PhantomAgent :=
  let source := if isMainnet then "a"%string else "b"%string in
  {| pa_Source := source; pa_ConnectionID := hexutil_Encode hash |}.

(** [L1Payload] (lines 353-379). *)
Definition L1Payload (phantomAgent : PhantomAgent) : TypedData :=
  {| td_Types :=
       <["Agent" := [ {| ty_Name := "source"; ty_Type := "string" |};
                      {| ty_Name := "connectionId"; ty_Type := "bytes32" |} ]]>
         (<["EIP712Domain" := EIP712Domain_types]> ∅);
     td_PrimaryType := "Agent";
     td_Domain :=
       {| dom_Name := "Exchange";
          dom_Version := "1";
          dom_ChainId := Some 1337;
          dom_VerifyingContract := zero_address;
          dom_Salt := "" |};
     td_Message :=
       <["connectionId" := VString (pa_ConnectionID phantomAgent)]>
         (<["source" := VString (pa_Source phantomAgent)]> ∅) |}.

(** [UserSignedPayload] (lines 382-419).  The message is a new map with the
    entries of [action]. *)
Definition UserSignedPayload (primaryType : string) (payloadTypes : list apitypes_Type)
    (action : gmap string Value) : result TypedData :=
  match action !! "signatureChainId" with
  | Some (VString chainIDStr) =>
      try chainID := strconv_ParseInt chainIDStr in
      let types : gmap string (list apitypes_Type) :=
        <[primaryType := payloadTypes]> (<["EIP712Domain" := EIP712Domain_types]> ∅) in
      let message : gmap string Value := action in
      Ok {| td_Types := types;
            td_PrimaryType := primaryType;
            td_Domain :=
              {| dom_Name := "HyperliquidSignTransaction";
                 dom_Version := "1";
                 dom_ChainId := Some chainID;
                 dom_VerifyingContract := zero_address;
                 dom_Salt := "" |};
            td_Message := message |}
  | _ => Err ErrSignatureChainId
  end.

(** ** Signer *)

(** The maps that the callers hold: a Go map is a reference to an object of
    the store. *)
Abbreviation Store := (gmap nat (gmap string Value)).

(** The assignment [m[k] = v] through the reference [a]; an assignment to an
    entry of a nil map panics ([None]). *)
Definition map_assign (a : nat) (k : string) (v : Value) (σ : Store) : option Store :=
  match σ !! a with
  | Some m => Some (<[a := <[k := v]> m]> σ)
  | None => None
  end.

(** The library functions that the signer calls on key material and typed
    data. *)
Class Crypto : Type :=
  { (** [*ecdsa.PrivateKey]. *)
    PrivateKey : Type;
    (** [TypedData.HashStruct(primaryType, data)]: the struct hash of EIP-712,
        with an error for a field whose type it cannot encode. *)
    HashStruct : TypedData -> string -> gmap string Value -> result (list Z);
    (** [crypto.Sign(digest, key)]: the ECDSA signature over secp256k1, 65
        bytes [R || S || V] where [V] is 0 or 1. *)
    crypto_Sign : list Z -> PrivateKey -> result (list Z) }.

Section Signer.

Context `{Crypto}.

Variable range_order : list string -> list string.

(** [SignInner] (lines 422-451). *)
Definition SignInner (privateKey : PrivateKey) (data : TypedData) : result Signature :=
  try domainSeparator := HashStruct data "EIP712Domain" (TypedDataDomain_Map (td_Domain data)) in
  try typedDataHash := HashStruct data (td_PrimaryType data) (td_Message data) in
  let rawData := [0x19; 0x01] ++ (domainSeparator ++ typedDataHash) in
  let hash := sha3_Keccak256 rawData in
  try signature := crypto_Sign hash privateKey in
  let r := hexutil_Encode (firstn 32 signature) in
  let s := hexutil_Encode (firstn 32 (skipn 32 signature)) in
  let v := (nth 64 signature 0 + 27) mod 256 in
  Ok {| sig_R := r; sig_S := s; sig_V := v |}.

(** [SignL1Action] (lines 454-464). *)
Definition SignL1Action (privateKey : PrivateKey) (action : Value) (activePool : option string)
    (nonce : Z) (expiresAfter : option Z) (isMainnet : bool) : result Signature :=
  try hash := ActionHash range_order action activePool nonce expiresAfter in
  let phantomAgent := ConstructPhantomAgent hash isMainnet in
  let data := L1Payload phantomAgent in
  SignInner privateKey data.

(** [SignL1Action] on a map that the caller holds at [action]: the function
    reads the map and assigns to no entry of it. *)
Definition SignL1Action_map (privateKey : PrivateKey) (action : nat) (activePool : option string)
    (nonce : Z) (expiresAfter : option Z) (isMainnet : bool) (σ : Store)
  : Store * result Signature :=
  (σ, SignL1Action privateKey (from_option VMap VNil (σ !! action)) activePool nonce
        expiresAfter isMainnet).

(** [SignUserSignedAction] (lines 467-482), on the map that the caller holds
    at [action]. *)
Definition SignUserSignedAction (privateKey : PrivateKey) (action : nat)
    (payloadTypes : list apitypes_Type) (primaryType : string) (isMainnet : bool) (σ : Store)
  : option (Store * result Signature) :=
  σ ← map_assign action "signatureChainId" (VString "0x66eee") σ;
  σ ← (if isMainnet
       then map_assign action "hyperliquidChain" (VString "Mainnet") σ
       else map_assign action "hyperliquidChain" (VString "Testnet") σ);
  m ← σ !! action;
  Some (σ, (try data := UserSignedPayload primaryType payloadTypes m in
            SignInner privateKey data)).

(** The signing functions of the action kinds (lines 535-589). *)
Definition SignUSDTransferAction privateKey action isMainnet :=
  SignUserSignedAction privateKey action USDSendSignTypes
    "HyperliquidTransaction:UsdSend" isMainnet.
Definition SignSpotTransferAction privateKey action isMainnet :=
  SignUserSignedAction privateKey action SpotTransferSignTypes
    "HyperliquidTransaction:SpotSend" isMainnet.
Definition SignWithdrawFromBridgeAction privateKey action isMainnet :=
  SignUserSignedAction privateKey action WithdrawSignTypes
    "HyperliquidTransaction:Withdraw" isMainnet.
Definition SignUSDClassTransferAction privateKey action isMainnet :=
  SignUserSignedAction privateKey action USDClassTransferSignTypes
    "HyperliquidTransaction:UsdClassTransfer" isMainnet.
Definition SignSendAssetAction privateKey action isMainnet :=
  SignUserSignedAction privateKey action SendAssetSignTypes
    "HyperliquidTransaction:SendAsset" isMainnet.
Definition SignConvertToMultiSigUserAction privateKey action isMainnet :=
  SignUserSignedAction privateKey action ConvertToMultiSigUserSignTypes
    "HyperliquidTransaction:ConvertToMultiSigUser" isMainnet.
Definition SignAgent privateKey action isMainnet :=
  SignUserSignedAction privateKey action agentSignTypes
    "HyperliquidTransaction:ApproveAgent" isMainnet.
Definition SignApproveBuilderFee privateKey action isMainnet :=
  SignUserSignedAction privateKey action builderFeeSignTypes
    "HyperliquidTransaction:ApproveBuilderFee" isMainnet.
Definition SignTokenDelegateAction privateKey action isMainnet :=
  SignUserSignedAction privateKey action TokenDelegateTypes
    "HyperliquidTransaction:TokenDelegate" isMainnet.

End Signer.

(** The map of a user-signed action after the two assignments of
    [SignUserSignedAction]. *)
Definition with_chain_fields (isMainnet : bool) (m : gmap string Value) : gmap string Value :=
  <["hyperliquidChain" := VString (if isMainnet then "Mainnet" else "Testnet")]>
    (<["signatureChainId" := VString "0x66eee"]> m).

(** ** Examples *)

(** Stand-ins for the two library functions that the signer is parametric in,
    to run it on examples: a struct hash that hashes the name of the primary
    type, and a signature made of the digest twice and the recovery id 1. *)
Definition example_crypto : Crypto :=
  {| PrivateKey := unit;
     HashStruct := fun _ primaryType _ => Ok (sha3_Keccak256 (bytes_of_string primaryType));
     crypto_Sign := fun digest _ => Ok (firstn 32 digest ++ firstn 32 digest ++ [1]) |}.

(** A vault address. *)
Definition example_vault : string := "0x1234567890123456789012345678901234567890".

(** The typed data of an L1 action on mainnet for the hash [01 02 03 04]. *)
Definition example_data : TypedData := L1Payload (ConstructPhantomAgent [1; 2; 3; 4] true).

Definition example_domainSeparator : list Z :=
  Eval vm_compute in sha3_Keccak256 (bytes_of_string "EIP712Domain").
Definition example_typedDataHash : list Z :=
  Eval vm_compute in sha3_Keccak256 (bytes_of_string "Agent").
Definition example_signature : list Z :=
  Eval vm_compute in
    (let digest :=
       sha3_Keccak256 (0x19 :: 0x01 :: example_domainSeparator ++ example_typedDataHash) in
     firstn 32 digest ++ firstn 32 digest ++ [1]).

(** The USD transfer of the signing test. *)
Definition transfer_action : gmap string Value :=
  <["time" := VUint64 1700000000000]>
    (<["amount" := VString "1000000"]>
       (<["destination" := VString "0x1234567890123456789012345678901234567890"]> ∅)).

(** * The client: order ids, asset tables and the exchange

    The code around the signing core: the client order ids ([Cloid], file
    types.go of package [utils]), the tables of the info client ([NewInfo],
    [setPerpMeta], [NameToAsset], file info.go of package [hyperliquid]) and
    the methods of the exchange client that sign an action and post it
    (file exchange.go).  A result [(T, error)] of these packages is an
    [outcome T]; a panic is [None]. *)

(** ** Errors of the client packages *)

(** An error made by [fmt.Errorf]: its message, the text before [: %w] and
    the wrapped error for a format that ends in [%w]; or an error of the
    signing core passed on. *)
Inductive fmt_error : Type :=
  | fmt_Errorf (msg : string)
  | fmt_Errorf_w (msg : string) (cause : fmt_error)
  | core_error (e : error).

(** A result [(T, error)] of the client packages. *)
Inductive outcome (A : Type) : Type :=
  | Done (a : A)
  | Failed (e : fmt_error).
Arguments Done {A} a.
Arguments Failed {A} e.

(** ** fmt.Sprintf with the verbs [%02x] and [%#034x] *)

Fixpoint hex_loop (fuel : nat) (n : Z) (acc : string) : string :=
  match fuel with
  | O => acc
  | S fuel' =>
      let acc' := String (hex_digit (n mod 16)) acc in
      if n <? 16 then acc' else hex_loop fuel' (n / 16) acc'
  end.

(** The hexadecimal digits of a natural number, without leading zeros. *)
Definition hex_digits (n : Z) : string :=
  hex_loop (S (Z.to_nat (Z.log2 n))) n EmptyString.

(** [s] with copies of [c] in front of it, up to the length [width]. *)
Definition pad_left (c : ascii) (width : nat) (s : string) : string :=
  string_of_list_ascii (repeat c (width - String.length s)) +:+ s.

(** [fmt.Sprintf] of an integer with the verb [x], the flag [0] and a width,
    with or without the flag [#] ([fmtInteger] of package fmt): the flag [0]
    asks for [width] digits, one less for a negative number; the prefix [0x]
    of the flag [#] and the sign come in front of these digits, they do not
    count in the width. *)
Definition fmt_Sprintf_0x (sharp : bool) (width : nat) (n : Z) : string :=
  let negative := n <? 0 in
  let u := Z.abs n in
  let prec := if negative then (width - 1)%nat else width in
  let digits := pad_left "0" prec (hex_digits u) in
  let digits := if sharp then "0x" +:+ digits else digits in
  let text := if negative then "-" +:+ digits else digits in
  pad_left " " width text.

(** ** Client order ids *)

(** [strings.HasPrefix]. *)
Definition strings_HasPrefix (s pre : string) : bool :=
  match strip_prefix s pre with
  | Some _ => true
  | None => false
  end.

(** The slice [s[n:]] of a string that has [n] bytes at least. *)
Fixpoint string_from (n : nat) (s : string) : string :=
  match n, s with
  | S n', String _ s' => string_from n' s'
  | _, _ => s
  end.

Record Cloid : Type := { rawCloid : string }.

(** [Cloid.validate]; [None] is the nil error. *)
Definition Cloid_validate (c : Cloid) : option fmt_error :=
  if negb (strings_HasPrefix (rawCloid c) "0x")
  then Some (fmt_Errorf "cloid is not a hex string")
  else if negb (String.length (string_from 2 (rawCloid c)) =? 32)%nat
  then Some (fmt_Errorf "cloid is not 16 bytes")
  else None.

(** [NewCloid]. *)
Definition NewCloid (rawCloid : string) : outcome Cloid :=
  let c := {| rawCloid := rawCloid |} in
  match Cloid_validate c with
  | Some err => Failed err
  | None => Done c
  end.

(** [NewCloidFromInt]: the cloid is not validated. *)
Definition NewCloidFromInt (cloid : Z) : Cloid :=
  {| rawCloid := fmt_Sprintf_0x true 34 cloid |}.

(** [NewCloidFromStr]. *)
Definition NewCloidFromStr (cloid : string) : outcome Cloid := NewCloid cloid.

(** [Cloid.String] and [Cloid.ToRaw]. *)
Definition Cloid_String (c : Cloid) : string := rawCloid c.
Definition Cloid_ToRaw (c : Cloid) : string := rawCloid c.

(** [Cloid.ToInt]. *)
Definition Cloid_ToInt (c : Cloid) : result Z := strconv_ParseInt (rawCloid c).

(** ** The info client: names, coins and assets

    The part of the info client (package [hyperliquid]) that the exchange
    client resolves names with: the three maps that [NewInfo] fills, and
    [NameToAsset].  The requests that [NewInfo] sends when it is not given
    the metadata are answered by the network: their answers are parameters. *)

(** A value decoded from JSON into an [interface{}]. *)
#[warnings="-register-all"] Inductive Json : Type :=
  | JNull
  | JBool (b : bool)
  | JNumber (x : float64)
  | JString (s : string)
  | JArray (l : list Json)
  | JObject (m : gmap string Json).

Record AssetInfo : Type := { asset_Name : string; asset_SzDecimals : Z }.

Record Meta : Type := { meta_Universe : list AssetInfo }.

Record SpotAssetInfo : Type :=
  { spot_Name : string;
    spot_Tokens : Z * Z;
    spot_Index : Z;
    spot_IsCanonical : bool }.

Record SpotTokenInfo : Type :=
  { token_Name : string;
    token_SzDecimals : Z;
    token_WeiDecimals : Z;
    token_Index : Z;
    token_TokenID : string;
    token_IsCanonical : bool;
    token_EvmContract : option string;
    token_FullName : option string }.

Record SpotMeta : Type :=
  { spotMeta_Universe : list SpotAssetInfo; spotMeta_Tokens : list SpotTokenInfo }.

(** [Info]: the address of the API client, whether a WebSocket manager was
    started, and the three maps. *)
Record Info : Type :=
  { info_baseURL : string;
    info_wsManager : bool;
    coinToAsset : gmap string Z;
    nameToCoins : gmap string string;
    assetToSzDecimals : gmap Z Z }.

(** The element [l[i]] of a slice; an index out of range panics ([None]). *)
Definition slice_index {A : Type} (l : list A) (i : Z) : option A :=
  if i <? 0 then None else l !! Z.to_nat i.

(** The loop of [setPerpMeta] from the position [asset] on. *)
Fixpoint setPerpMeta_loop (universe : list AssetInfo) (asset : Z) (offset : Z) (i : Info) : Info :=
  match universe with
  | [] => i
  | assetInfo :: rest =>
      let assetID := asset + offset in
      setPerpMeta_loop rest (asset + 1) offset
        {| info_baseURL := info_baseURL i;
           info_wsManager := info_wsManager i;
           coinToAsset := <[asset_Name assetInfo := assetID]> (coinToAsset i);
           nameToCoins := <[asset_Name assetInfo := asset_Name assetInfo]> (nameToCoins i);
           assetToSzDecimals := <[assetID := asset_SzDecimals assetInfo]> (assetToSzDecimals i) |}
  end.

(** [Info.setPerpMeta]. *)
Definition setPerpMeta (i : Info) (meta : Meta) (offset : Z) : Info :=
  setPerpMeta_loop (meta_Universe meta) 0 offset i.

(** [Info.NameToAsset]. *)
Definition NameToAsset (i : Info) (name : string) : outcome Z :=
  match nameToCoins i !! name with
  | Some coin =>
      match coinToAsset i !! coin with
      | Some asset => Done asset
      | None => Failed (fmt_Errorf ("asset not found for name: " +:+ name))
      end
  | None => Failed (fmt_Errorf ("asset not found for name: " +:+ name))
  end.

(** One turn of the loop of [NewInfo] over the spot pairs. *)
Definition NewInfo_spot (tokens : list SpotTokenInfo) (i : Info) (spotInfo : SpotAssetInfo)
  : option Info :=
  let asset := spot_Index spotInfo + 10000 in
  let coins := <[spot_Name spotInfo := asset]> (coinToAsset i) in
  let names := <[spot_Name spotInfo := spot_Name spotInfo]> (nameToCoins i) in
  let baseToken := fst (spot_Tokens spotInfo) in
  let quoteToken := snd (spot_Tokens spotInfo) in
  baseInfo ← slice_index tokens baseToken;
  quoteInfo ← slice_index tokens quoteToken;
  let decimals := <[asset := token_SzDecimals baseInfo]> (assetToSzDecimals i) in
  let name := token_Name baseInfo +:+ "/" +:+ token_Name quoteInfo in
  let names :=
    match names !! name with
    | Some _ => names
    | None => <[name := spot_Name spotInfo]> names
    end in
  Some {| info_baseURL := info_baseURL i;
          info_wsManager := info_wsManager i;
          coinToAsset := coins;
          nameToCoins := names;
          assetToSzDecimals := decimals |}.

Fixpoint NewInfo_spots (tokens : list SpotTokenInfo) (universe : list SpotAssetInfo) (i : Info)
  : option Info :=
  match universe with
  | [] => Some i
  | spotInfo :: rest =>
      i ← NewInfo_spot tokens i spotInfo;
      NewInfo_spots tokens rest i
  end.

(** The offsets of the perp dexs after the first one, from their position
    [i] on: a dex that is an object with a string [name] gets
    [110000 + i * 10000]. *)
Fixpoint perp_dex_offsets (i : Z) (dexs : list Json) (offsets : gmap string Z)
  : gmap string Z :=
  match dexs with
  | [] => offsets
  | perpDex :: rest =>
      let offsets :=
        match perpDex with
        | JObject o =>
            match o !! "name" with
            | Some (JString name) => <[name := 110000 + i * 10000]> offsets
            | _ => offsets
            end
        | _ => offsets
        end in
      perp_dex_offsets (i + 1) rest offsets
  end.

Section InfoClient.

(** [utils.MainnetAPIURL]. *)
Variable MainnetAPIURL : string.

(** The answers of the network: whether the WebSocket of a client could be
    started, and what the client at an address gets for its requests
    [SpotMeta()], [PerpDexs()] and [Meta(dex)]. *)
Variable ws_Start : string -> option fmt_error.
Variable info_SpotMeta : string -> outcome SpotMeta.
Variable info_PerpDexs : string -> outcome Json.
Variable info_Meta : string -> string -> outcome Meta.

(** The loop of [NewInfo] over the perp dexs. *)
Fixpoint NewInfo_perps (meta : option Meta) (offsets : gmap string Z) (perpDexs : list string)
    (i : Info) : outcome Info :=
  match perpDexs with
  | [] => Done i
  | perpDex :: rest =>
      let offset := default 0 (offsets !! perpDex) in
      match (if String.eqb perpDex "" then meta else None) with
      | Some m => NewInfo_perps meta offsets rest (setPerpMeta i m offset)
      | None =>
          match info_Meta (info_baseURL i) perpDex with
          | Failed err => Failed (fmt_Errorf_w ("failed to get meta for dex " +:+ perpDex) err)
          | Done freshMeta => NewInfo_perps meta offsets rest (setPerpMeta i freshMeta offset)
          end
      end
  end.

(** [NewInfo]; [None] is a panic (an index out of range).  The time-out of
    the requests is not modelled. *)
Definition NewInfo (baseURL : string) (skipWS : bool) (meta : option Meta)
    (spotMeta : option SpotMeta) (perpDexs : option (list string)) : option (outcome Info) :=
  let baseURL := if String.eqb baseURL "" then MainnetAPIURL else baseURL in
  match (if skipWS then None else ws_Start baseURL) with
  | Some err => Some (Failed (fmt_Errorf_w "failed to start WebSocket manager" err))
  | None =>
      let info :=
        {| info_baseURL := baseURL; info_wsManager := negb skipWS;
           coinToAsset := ∅; nameToCoins := ∅; assetToSzDecimals := ∅ |} in
      match (match spotMeta with
             | Some sm => Done sm
             | None => info_SpotMeta baseURL
             end) with
      | Failed err => Some (Failed (fmt_Errorf_w "failed to get spot metadata" err))
      | Done spotMeta =>
          info ← NewInfo_spots (spotMeta_Tokens spotMeta) (spotMeta_Universe spotMeta) info;
          let offsets : gmap string Z := {[ ""%string := 0 ]} in
          match perpDexs with
          | None => Some (NewInfo_perps meta offsets [""%string] info)
          | Some perpDexs =>
              match info_PerpDexs baseURL with
              | Failed err => Some (Failed (fmt_Errorf_w "failed to get perp dexs" err))
              | Done perpDexsList =>
                  let offsets :=
                    match perpDexsList with
                    | JArray (_ :: ((_ :: _) as rest)) => perp_dex_offsets 0 rest offsets
                    | _ => offsets
                    end in
                  Some (NewInfo_perps meta offsets perpDexs info)
              end
          end
      end
  end.

End InfoClient.

(** ** fmt.Sprintf("%.6f", x) *)

(** [m * 2^e * 10^digits] rounded to the nearest integer, ties to even. *)
Definition scaled (digits : nat) (m : positive) (e : Z) : Z :=
  if 0 <=? e then Zpos m * 2 ^ e * 10 ^ Z.of_nat digits
  else round_half_even (Zpos m * 10 ^ Z.of_nat digits) (2 ^ (- e)).

(** A sign, the integer digits, a point and [digits] fractional digits. *)
Definition fixed (digits : nat) (neg : bool) (n : Z) : string :=
  (if neg then "-" else "") +:+ decimal (n / 10 ^ Z.of_nat digits) +:+ "."
    +:+ zero_padded digits (n mod 10 ^ Z.of_nat digits).

(** [fmt.Sprintf] with the verb [%.<digits>f], for a positive [digits]. *)
Definition fmt_Sprintf_f (digits : nat) (x : float64) : string :=
  match x with
  | S754_zero s => fixed digits s 0
  | S754_finite s m e => fixed digits s (scaled digits m e)
  | S754_infinity s => if s then "-Inf" else "+Inf"
  | S754_nan => "NaN"
  end.

(** ** The exchange client

    The methods of [Exchange] that sign an action and post it.  The clock
    and the network are outside of the program: the reading of the clock
    that a method takes is its argument [now], and the answer to a request
    is the parameter [Post]. *)

(** [BuilderInfo] of package [hyperliquid]. *)
Record BuilderInfo : Type := { builder_B : string; builder_F : string }.

(** [CancelRequest]. *)
Record CancelRequest : Type := { cancel_Coin : string; cancel_OID : Z }.

(** The conversions [uint64(x)] of an [int64]. *)
Definition uint64_of_int64 (x : Z) : Z := x mod 2 ^ 64.

(** The text [signature.R + signature.S + fmt.Sprintf("%02x", signature.V)]
    that the methods post as the signature. *)
Definition signature_text (signature : Signature) : string :=
  sig_R signature +:+ sig_S signature +:+ fmt_Sprintf_0x false 2 (sig_V signature).

Section ExchangeClient.

Context `{Crypto}.

Variable range_order : list string -> list string.

(** [utils.MainnetAPIURL]. *)
Variable MainnetAPIURL : string.

(** [API.Post] of the client at an address: the answer of the network to the
    payload posted at a path. *)
Variable Post : string -> string -> gmap string Value -> outcome Json.

Record Exchange : Type :=
  { ex_baseURL : string;
    ex_privateKey : PrivateKey;
    ex_vaultAddress : option string;
    ex_accountAddress : option string;
    ex_info : Info;
    ex_expiresAfter : option Z }.

(** [Exchange.postAction]; the nonce and the expiry are [int64]. *)
Definition postAction (e : Exchange) (action : gmap string Value) (signature : string)
    (nonce : Z) : outcome Json :=
  let payload : gmap string Value :=
    <["signature" := VString signature]>
      (<["nonce" := VInt nonce]> (<["action" := VMap action]> ∅)) in
  let actionType :=
    match action !! "type" with
    | Some (VString t) => t
    | _ => ""%string
    end in
  let payload :=
    if negb (String.eqb actionType "usdClassTransfer") && negb (String.eqb actionType "sendAsset")
    then match ex_vaultAddress e with
         | Some vault => <["vaultAddress" := VString vault]> payload
         | None => payload
         end
    else payload in
  let payload :=
    match ex_expiresAfter e with
    | Some expires => <["expiresAfter" := VInt expires]> payload
    | None => payload
    end in
  Post (ex_baseURL e) "/exchange" payload.

(** [Exchange.SetExpiresAfter]. *)
Definition SetExpiresAfter (e : Exchange) (expiresAfter : option Z) : Exchange :=
  {| ex_baseURL := ex_baseURL e;
     ex_privateKey := ex_privateKey e;
     ex_vaultAddress := ex_vaultAddress e;
     ex_accountAddress := ex_accountAddress e;
     ex_info := ex_info e;
     ex_expiresAfter := expiresAfter |}.

(** The loop of [BulkOrders]: the wires of the requests, up to the first
    request that does not convert. *)
Fixpoint BulkOrders_wires (info : Info) (orderRequests : list OrderRequest)
  : outcome (list OrderWire) :=
  match orderRequests with
  | [] => Done []
  | order :: rest =>
      match NameToAsset info (req_Coin order) with
      | Failed err =>
          Failed (fmt_Errorf_w ("failed to get asset for coin " +:+ req_Coin order) err)
      | Done asset =>
          match OrderRequestToOrderWire order asset with
          | Err err =>
              Failed (fmt_Errorf_w "failed to convert order to wire format" (core_error err))
          | Ok orderWire =>
              match BulkOrders_wires info rest with
              | Failed err => Failed err
              | Done orderWires => Done (orderWire :: orderWires)
              end
          end
      end
  end.

(** [Exchange.BulkOrders]. *)
Definition BulkOrders (e : Exchange) (now : Z) (orderRequests : list OrderRequest)
    (builder : option BuilderInfo) : outcome Json :=
  match BulkOrders_wires (ex_info e) orderRequests with
  | Failed err => Failed err
  | Done orderWires =>
      let timestamp := now in
      let builderStr := builder_B <$> builder in
      let orderAction := OrderWiresToOrderAction orderWires builderStr in
      let isMainnet := String.eqb (ex_baseURL e) MainnetAPIURL in
      let expiresAfterUint := uint64_of_int64 <$> ex_expiresAfter e in
      match SignL1Action range_order (ex_privateKey e) (VMap orderAction) (ex_vaultAddress e)
              (uint64_of_int64 timestamp) expiresAfterUint isMainnet with
      | Err err => Failed (fmt_Errorf_w "failed to sign order action" (core_error err))
      | Ok signature => postAction e orderAction (signature_text signature) timestamp
      end
  end.

(** [Exchange.Order]. *)
Definition Order (e : Exchange) (now : Z) (name : string) (isBuy : bool) (sz limitPx : float64)
    (orderType : OrderType) (reduceOnly : bool) (cloid : option string)
    (builder : option BuilderInfo) : outcome Json :=
  let orderRequest :=
    {| req_Coin := name; req_IsBuy := isBuy; req_Sz := sz; req_LimitPx := limitPx;
       req_OrderType := orderType; req_ReduceOnly := reduceOnly; req_Cloid := cloid |} in
  BulkOrders e now [orderRequest] builder.

(** The loop of [BulkCancel]. *)
Fixpoint BulkCancel_cancels (info : Info) (cancelRequests : list CancelRequest)
  : outcome (list Value) :=
  match cancelRequests with
  | [] => Done []
  | cancel :: rest =>
      match NameToAsset info (cancel_Coin cancel) with
      | Failed err =>
          Failed (fmt_Errorf_w ("failed to get asset for coin " +:+ cancel_Coin cancel) err)
      | Done asset =>
          match BulkCancel_cancels info rest with
          | Failed err => Failed err
          | Done cancels =>
              Done (VMap (<["o" := VInt (cancel_OID cancel)]> (<["a" := VInt asset]> ∅))
                      :: cancels)
          end
      end
  end.

(** [Exchange.BulkCancel]. *)
Definition BulkCancel (e : Exchange) (now : Z) (cancelRequests : list CancelRequest)
  : outcome Json :=
  let timestamp := now in
  match BulkCancel_cancels (ex_info e) cancelRequests with
  | Failed err => Failed err
  | Done cancels =>
      let cancelAction : gmap string Value :=
        <["cancels" := VSlice cancels]> (<["type" := VString "cancel"]> ∅) in
      let isMainnet := String.eqb (ex_baseURL e) MainnetAPIURL in
      let expiresAfterUint := uint64_of_int64 <$> ex_expiresAfter e in
      match SignL1Action range_order (ex_privateKey e) (VMap cancelAction) (ex_vaultAddress e)
              (uint64_of_int64 timestamp) expiresAfterUint isMainnet with
      | Err err => Failed (fmt_Errorf_w "failed to sign cancel action" (core_error err))
      | Ok signature => postAction e cancelAction (signature_text signature) timestamp
      end
  end.

(** [Exchange.Cancel]. *)
Definition Cancel (e : Exchange) (now : Z) (name : string) (oid : Z) : outcome Json :=
  BulkCancel e now [ {| cancel_Coin := name; cancel_OID := oid |} ].

(** [Exchange.UpdateLeverage]. *)
Definition UpdateLeverage (e : Exchange) (now : Z) (leverage : Z) (name : string)
    (isCross : bool) : outcome Json :=
  let timestamp := now in
  match NameToAsset (ex_info e) name with
  | Failed err => Failed (fmt_Errorf_w ("failed to get asset for name " +:+ name) err)
  | Done asset =>
      let updateAction : gmap string Value :=
        <["leverage" := VInt leverage]>
          (<["isCross" := VBool isCross]>
             (<["asset" := VInt asset]> (<["type" := VString "updateLeverage"]> ∅))) in
      let isMainnet := String.eqb (ex_baseURL e) MainnetAPIURL in
      let expiresAfterUint := uint64_of_int64 <$> ex_expiresAfter e in
      match SignL1Action range_order (ex_privateKey e) (VMap updateAction) (ex_vaultAddress e)
              (uint64_of_int64 timestamp) expiresAfterUint isMainnet with
      | Err err => Failed (fmt_Errorf_w "failed to sign update leverage action" (core_error err))
      | Ok signature => postAction e updateAction (signature_text signature) timestamp
      end
  end.

(** A new map: the store with [m] at an address that it did not have. *)
Definition new_map (m : gmap string Value) (σ : Store) : nat * Store :=
  let a := fresh (dom σ) in (a, <[a := m]> σ).

(** [Exchange.UsdClassTransfer]; [None] is a panic. *)
Definition UsdClassTransfer (e : Exchange) (now : Z) (amount : float64) (toPerp : bool)
    (σ : Store) : option (Store * outcome Json) :=
  let timestamp := now in
  let strAmount := fmt_Sprintf_f 6 amount in
  let strAmount :=
    match ex_vaultAddress e with
    | Some vault => strAmount +:+ (" subaccount:" +:+ vault)
    | None => strAmount
    end in
  let '(action, σ) :=
    new_map (<["nonce" := VInt timestamp]>
               (<["toPerp" := VBool toPerp]>
                  (<["amount" := VString strAmount]>
                     (<["type" := VString "usdClassTransfer"]> ∅)))) σ in
  let isMainnet := String.eqb (ex_baseURL e) MainnetAPIURL in
  '(σ, signed) ← SignUSDClassTransferAction (ex_privateKey e) action isMainnet σ;
  match signed with
  | Err err =>
      Some (σ, Failed (fmt_Errorf_w "failed to sign USD class transfer action" (core_error err)))
  | Ok signature =>
      m ← σ !! action;
      Some (σ, postAction e m (signature_text signature) timestamp)
  end.

(** [Exchange.UsdTransfer]; [None] is a panic. *)
Definition UsdTransfer (e : Exchange) (now : Z) (amount : float64) (destination : string)
    (σ : Store) : option (Store * outcome Json) :=
  let timestamp := now in
  let '(action, σ) :=
    new_map (<["type" := VString "usdSend"]>
               (<["time" := VInt timestamp]>
                  (<["amount" := VString (fmt_Sprintf_f 6 amount)]>
                     (<["destination" := VString destination]> ∅)))) σ in
  let isMainnet := String.eqb (ex_baseURL e) MainnetAPIURL in
  '(σ, signed) ← SignUSDTransferAction (ex_privateKey e) action isMainnet σ;
  match signed with
  | Err err =>
      Some (σ, Failed (fmt_Errorf_w "failed to sign USD transfer action" (core_error err)))
  | Ok signature =>
      m ← σ !! action;
      Some (σ, postAction e m (signature_text signature) timestamp)
  end.

End ExchangeClient.

(** A request and the wire that [BulkOrders] makes of it. *)
Definition converts (info : Info) (order : OrderRequest) (wire : OrderWire) : Prop :=
  exists asset,
    NameToAsset info (req_Coin order) = Done asset
    /\ OrderRequestToOrderWire order asset = Ok wire.

Definition does_not_convert (info : Info) (order : OrderRequest) : Prop :=
  (exists err, NameToAsset info (req_Coin order) = Failed err)
  \/ (exists asset err,
        NameToAsset info (req_Coin order) = Done asset
        /\ OrderRequestToOrderWire order asset = Err err).

(** A cancel request and the entry that [BulkCancel] makes of it. *)
Definition cancel_entry (info : Info) (cancel : CancelRequest) (entry : Value) : Prop :=
  exists asset,
    NameToAsset info (cancel_Coin cancel) = Done asset
    /\ entry = VMap (<["o" := VInt (cancel_OID cancel)]> (<["a" := VInt asset]> ∅)).

(** ** The rule of HashStruct on extra data *)

(** The rule of go-ethereum's [TypedData.EncodeData], which [HashStruct]
    calls, on extra data: a message with more entries than the type has
    fields is an error ([there is extra data provided in the message]). *)
Definition extra_data_rule `{Crypto} : Prop :=
  forall (data : TypedData) (primaryType : string) (message : gmap string Value),
    (length (default [] (td_Types data !! primaryType)) < size message)%nat ->
    exists err, HashStruct data primaryType message = Err err.

(** A stand-in with the rule of [TypedData.EncodeData], which [HashStruct]
    calls, on extra data: a message with more entries than the type has
    fields is refused. *)
Definition checking_crypto : Crypto :=
  {| PrivateKey := unit;
     HashStruct := fun data primaryType message =>
       if (length (default [] (td_Types data !! primaryType)) <? size message)%nat
       then Err ErrHashStruct
       else Ok (sha3_Keccak256 (bytes_of_string primaryType));
     crypto_Sign := fun digest _ => Ok (firstn 32 digest ++ firstn 32 digest ++ [1]) |}.

(** An exchange client on the test network, without vault address. *)
Definition example_exchange : @Exchange checking_crypto :=
  {| ex_baseURL := "https://api.hyperliquid-testnet.xyz";
     ex_privateKey := tt : @PrivateKey checking_crypto;
     ex_vaultAddress := None;
     ex_accountAddress := None;
     ex_info :=
       {| info_baseURL := "https://api.hyperliquid-testnet.xyz";
          info_wsManager := false;
          coinToAsset := ∅; nameToCoins := ∅; assetToSzDecimals := ∅ |};
     ex_expiresAfter := None |}.

(** ** Exact powers of ten *)

(** Whether [math_Pow10 power] is the float64 of mantissa [m] and exponent
    [e] with [m * 2^e = 10^power]. *)
Definition pow10_exact (power : Z) : bool :=
  match math_Pow10 power with
  | S754_finite false m e =>
      (2 ^ 52 <=? Zpos m) && (Zpos m <? 2 ^ 53) && (- 52 <=? e) && (e <=? 21)
      && (Zpos m * 2 ^ (e + 52) =? 10 ^ power * 2 ^ 52)
  | _ => false
  end.

(** * Properties *)

(** ** NumericCodec: texts and digits *)

(** strings *)
Lemma append_cons (c : ascii) (a b : string) : String c a +:+ b = String c (a +:+ b).
Proof. reflexivity. Qed.

Lemma append_nil_l (b : string) : "" +:+ b = b.
Proof. reflexivity. Qed.

Lemma append_nil_r (a : string) : a +:+ "" = a.
Proof. induction a as [| c a IH]; [done |]. by rewrite append_cons, IH. Qed.

Lemma append_assoc (a b c : string) : (a +:+ b) +:+ c = a +:+ (b +:+ c).
Proof. induction a as [| x a IH]; [done |]. by rewrite !append_cons, IH. Qed.

Lemma length_append (a b : string) :
  String.length (a +:+ b) = (String.length a + String.length b)%nat.
Proof. induction a as [| x a IH]; [done |]. rewrite append_cons. cbn [String.length]. lia. Qed.

Lemma all_digits_append (a b : string) :
  all_digits (a +:+ b) = all_digits a && all_digits b.
Proof.
  induction a as [| x a IH]; [done |].
  rewrite append_cons. cbn [all_digits]. rewrite IH. by rewrite andb_assoc.
Qed.

(** digits *)
Lemma digit_char_spec (d : Z) :
  0 <= d <= 9 ->
  is_digit (digit_char d) = true /\ char_code (digit_char d) - 48 = d
  /\ (Ascii.eqb (digit_char d) "0" = (d =? 0)).
Proof.
  intros Hd.
  assert (d = 0 \/ d = 1 \/ d = 2 \/ d = 3 \/ d = 4 \/ d = 5 \/ d = 6 \/ d = 7 \/ d = 8 \/ d = 9)
    as Hcases by lia.
  repeat (destruct Hcases as [-> | Hcases]; [by vm_compute |]).
  subst d. by vm_compute.
Qed.

Lemma is_digit_not (c : ascii) :
  is_digit c = true ->
  Ascii.eqb c "." = false /\ Ascii.eqb c "-" = false /\ Ascii.eqb c "+" = false
  /\ Ascii.eqb c "N" = false /\ Ascii.eqb c "I" = false /\ in_cutset c "." = false.
Proof.
  destruct c as [b0 b1 b2 b3 b4 b5 b6 b7].
  destruct b0, b1, b2, b3, b4, b5, b6, b7; vm_compute; intros H;
    first [discriminate H | done].
Qed.

Lemma digits_value_append (a b : string) (acc : Z) :
  digits_value (a +:+ b) acc
  = match digits_value a acc with
    | Some v => digits_value b v
    | None => None
    end.
Proof.
  revert acc. induction a as [| c a IH]; intros acc; [done |].
  rewrite append_cons. cbn [digits_value]. destruct (is_digit c); [apply IH | done].
Qed.

Lemma decimal_loop_value (fuel : nat) (n : Z) (acc : string) :
  0 <= n < 10 ^ Z.of_nat fuel ->
  digits_value (decimal_loop fuel n acc) 0 = digits_value acc n.
Proof.
  revert n acc. induction fuel as [| fuel IH]; intros n acc Hn.
  - cbn in Hn. assert (n = 0) as -> by lia. reflexivity.
  - cbn [decimal_loop].
    assert (0 <= n mod 10 <= 9) as Hd by (pose proof (Z.mod_pos_bound n 10); lia).
    destruct (digit_char_spec _ Hd) as (Hdig & Hval & _).
    destruct (n <? 10) eqn:Hlt.
    + apply Z.ltb_lt in Hlt. cbn [digits_value]. rewrite Hdig, Hval.
      rewrite Z.mod_small by lia. f_equal.
    + apply Z.ltb_ge in Hlt. rewrite IH.
      * cbn [digits_value]. rewrite Hdig, Hval. f_equal.
        pose proof (Z.div_mod n 10). lia.
      * rewrite Nat2Z.inj_succ, Z.pow_succ_r in Hn by lia.
        split; [apply Z.div_pos; lia | apply Z.div_lt_upper_bound; lia].
Qed.

Lemma decimal_value (n : Z) : 0 <= n -> digits_value (decimal n) 0 = Some n.
Proof.
  intros Hn. unfold decimal. rewrite decimal_loop_value; [reflexivity |].
  split; [done |].
  destruct (Z.eq_dec n 0) as [-> | Hne]; [by vm_compute |].
  pose proof (Z.log2_spec n ltac:(lia)) as [_ Hlog].
  rewrite Nat2Z.inj_succ, Z2Nat.id by apply Z.log2_nonneg.
  eapply Z.lt_le_trans; [exact Hlog |].
  apply Z.pow_le_mono_l. lia.
Qed.

(** Shape of the digits: all are digits, and the text is not empty. *)
Lemma decimal_loop_shape (fuel : nat) (n : Z) (acc : string) :
  0 <= n -> all_digits acc = true ->
  all_digits (decimal_loop fuel n acc) = true
  /\ (String.length acc <= String.length (decimal_loop fuel n acc))%nat
  /\ (fuel <> O -> (0 < String.length (decimal_loop fuel n acc))%nat).
Proof.
  revert n acc. induction fuel as [| fuel IH]; intros n acc Hn Hacc.
  - cbn. repeat split; [done | lia | done].
  - cbn [decimal_loop].
    assert (0 <= n mod 10 <= 9) as Hd by (pose proof (Z.mod_pos_bound n 10); lia).
    destruct (digit_char_spec _ Hd) as (Hdig & _ & _).
    destruct (n <? 10) eqn:Hlt.
    + cbn [all_digits String.length]. rewrite Hdig, Hacc. repeat split; [lia | lia].
    + destruct (IH (n / 10) (String (digit_char (n mod 10)) acc)) as (H1 & H2 & _).
      * apply Z.div_pos; lia.
      * cbn [all_digits]. by rewrite Hdig, Hacc.
      * cbn [String.length] in H2. repeat split; [done | lia | lia].
Qed.

Lemma decimal_shape (n : Z) :
  0 <= n -> all_digits (decimal n) = true /\ (0 < String.length (decimal n))%nat.
Proof.
  intros Hn. unfold decimal.
  destruct (decimal_loop_shape (S (Z.to_nat (Z.log2 n))) n "" Hn eq_refl) as (H1 & _ & H3).
  split; [done | by apply H3].
Qed.

Lemma zero_padded_shape (w : nat) (n : Z) :
  0 <= n -> all_digits (zero_padded w n) = true /\ String.length (zero_padded w n) = w.
Proof.
  revert n. induction w as [| w IH]; intros n Hn; [done |].
  cbn [zero_padded].
  assert (0 <= n mod 10 <= 9) as Hd by (pose proof (Z.mod_pos_bound n 10); lia).
  destruct (digit_char_spec _ Hd) as (Hdig & _ & _).
  destruct (IH (n / 10)) as [H1 H2]; [apply Z.div_pos; lia |].
  rewrite all_digits_append, length_append, H1, H2. cbn. rewrite Hdig. split; [done | lia].
Qed.

Lemma zero_padded_value (w : nat) (n acc : Z) :
  0 <= n ->
  digits_value (zero_padded w n) acc = Some (acc * 10 ^ Z.of_nat w + n mod 10 ^ Z.of_nat w).
Proof.
  revert n acc. induction w as [| w IH]; intros n acc Hn.
  - cbn. rewrite Z.mod_1_r. f_equal. lia.
  - cbn [zero_padded]. rewrite digits_value_append, IH by (apply Z.div_pos; lia).
    assert (0 <= n mod 10 <= 9) as Hd by (pose proof (Z.mod_pos_bound n 10); lia).
    destruct (digit_char_spec _ Hd) as (Hdig & Hval & _).
    cbn [digits_value]. rewrite Hdig, Hval. f_equal.
    rewrite Nat2Z.inj_succ, Z.pow_succ_r by lia.
    set (p := 10 ^ Z.of_nat w). assert (0 < p) by (apply Z.pow_pos_nonneg; lia).
    rewrite Z.rem_mul_r by lia. lia.
Qed.

Lemma decimal_head (n : Z) :
  0 <= n -> exists c rest, decimal n = String c rest /\ is_digit c = true /\ all_digits rest = true.
Proof.
  intros Hn. destruct (decimal_shape n Hn) as [Hall Hlen].
  destruct (decimal n) as [| c rest]; [cbn in Hlen; lia |].
  cbn [all_digits] in Hall. apply andb_prop in Hall as [Hc Hrest]. eauto.
Qed.

Lemma split_point_digits (a b : string) :
  all_digits a = true -> split_point (a +:+ String "." b) = (a, Some b).
Proof.
  induction a as [| c a IH]; intros Ha; [reflexivity |].
  cbn [all_digits] in Ha. apply andb_prop in Ha as [Hc Ha].
  rewrite append_cons. cbn [split_point].
  destruct (is_digit_not c Hc) as (-> & _). by rewrite IH.
Qed.

Lemma split_point_no_point (a : string) :
  all_digits a = true -> split_point a = (a, None).
Proof.
  induction a as [| c a IH]; intros Ha; [reflexivity |].
  cbn [all_digits] in Ha. apply andb_prop in Ha as [Hc Ha].
  cbn [split_point]. destruct (is_digit_not c Hc) as (-> & _). by rewrite IH.
Qed.

Lemma fixed8_unsigned8 (neg : bool) (n : Z) :
  fixed8 neg n = if neg then String "-" (unsigned8 n) else unsigned8 n.
Proof. unfold fixed8, unsigned8. by destruct neg. Qed.

Lemma parse_decimal_unsigned8 (neg : bool) (n : Z) :
  0 <= n ->
  parse_decimal neg (unsigned8 n)
  = if is_finite (f64_of_ratio neg n (10 ^ 8)) then Ok (f64_of_ratio neg n (10 ^ 8))
    else Err ErrParseFloat.
Proof.
  intros Hn. unfold parse_decimal, unsigned8.
  assert (0 <= n / 10 ^ 8) as Hi by (apply Z.div_pos; lia).
  assert (0 <= n mod 10 ^ 8) as Hf by (apply Z.mod_pos_bound; lia).
  destruct (decimal_shape _ Hi) as [Hall Hlen].
  destruct (zero_padded_shape 8 _ Hf) as [Hpall Hplen].
  rewrite split_point_digits by done. cbn [default from_option]. unfold id.
  rewrite Hplen.
  destruct (String.length (decimal (n / 10 ^ 8)) + 8 =? 0)%nat eqn:Hz;
    [apply Nat.eqb_eq in Hz; lia |].
  rewrite digits_value_append, decimal_value, zero_padded_value by done.
  change (Z.of_nat 8) with 8. rewrite Z.mod_mod by lia.
  replace (n / 10 ^ 8 * 10 ^ 8 + n mod 10 ^ 8) with n
    by (pose proof (Z.div_mod n (10 ^ 8)); lia).
  reflexivity.
Qed.

Lemma strconv_ParseFloat_fixed8 (neg : bool) (n : Z) :
  0 <= n ->
  strconv_ParseFloat (fixed8 neg n)
  = if is_finite (f64_of_ratio neg n (10 ^ 8)) then Ok (f64_of_ratio neg n (10 ^ 8))
    else Err ErrParseFloat.
Proof.
  intros Hn. rewrite fixed8_unsigned8.
  assert (0 <= n / 10 ^ 8) as Hi by (apply Z.div_pos; lia).
  destruct (decimal_head _ Hi) as (c & rest & Hdec & Hc & Hrest).
  destruct (is_digit_not c Hc) as (Hpoint & Hminus & Hplus & HN & HI & _).
  rewrite <- (parse_decimal_unsigned8 neg n Hn).
  assert (unsigned8 n = String c (rest +:+ String "." (zero_padded 8 (n mod 10 ^ 8)))) as ->
    by (unfold unsigned8; by rewrite Hdec).
  generalize (rest +:+ String "." (zero_padded 8 (n mod 10 ^ 8))). intros tail.
  unfold strconv_ParseFloat.
  destruct neg.
  - cbn [String.eqb]. 
    change (Ascii.eqb "-" "+") with false. change (Ascii.eqb "-" "-") with true.
    change (Ascii.eqb "-" "N") with false. rewrite HI. reflexivity.
  - cbn [String.eqb]. rewrite Hplus, Hminus, HN. reflexivity.
Qed.


(** TrimRight *)
Lemma strings_TrimRight_keep (a b : string) (c : ascii) (cutset : string) :
  in_cutset c cutset = false ->
  strings_TrimRight (a +:+ String c b) cutset = a +:+ String c (strings_TrimRight b cutset).
Proof.
  intros Hc. induction a as [| x a IH].
  - rewrite !append_nil_l. cbn [strings_TrimRight].
    destruct (strings_TrimRight b cutset); [by rewrite Hc | done].
  - rewrite !append_cons. cbn [strings_TrimRight]. rewrite IH.
    destruct a; reflexivity.
Qed.

Lemma strings_TrimRight_drop (a : string) (c : ascii) (cutset : string) :
  in_cutset c cutset = true ->
  strings_TrimRight (a +:+ String c "") cutset = strings_TrimRight a cutset.
Proof.
  intros Hc. induction a as [| x a IH].
  - rewrite append_nil_l. cbn [strings_TrimRight]. by rewrite Hc.
  - rewrite append_cons. cbn [strings_TrimRight]. by rewrite IH.
Qed.

(** A text is empty or has a last character. *)
Lemma string_snoc (s : string) :
  s = EmptyString \/ exists a c, s = a +:+ String c "" /\ last_char s = Some c.
Proof.
  induction s as [| x s IH]; [by left |]. right.
  destruct IH as [-> | (a & c & -> & Hlast)].
  - exists "", x. by split.
  - exists (String x a), c. split; [done |].
    cbn [last_char]. destruct (a +:+ String c "") eqn:Heq; [| done].
    destruct a; discriminate Heq.
Qed.

Lemma strings_TrimRight_shape (s cutset : string) :
  all_digits s = true ->
  let t := strings_TrimRight s cutset in
  all_digits t = true /\ (String.length t <= String.length s)%nat
  /\ (t = EmptyString
      \/ exists a c, t = a +:+ String c "" /\ last_char t = Some c
                     /\ in_cutset c cutset = false).
Proof.
  induction s as [| x s IH]; intros Hs; [cbn; eauto |].
  cbn [all_digits] in Hs. apply andb_prop in Hs as [Hx Hs].
  destruct (IH Hs) as (Hall & Hlen & Hshape). clear IH.
  cbn [strings_TrimRight String.length].
  destruct (strings_TrimRight s cutset) as [| y t] eqn:Ht.
  - destruct (in_cutset x cutset) eqn:Hcut.
    + cbn. repeat split; [lia | by left].
    + cbn [all_digits String.length]. rewrite Hx. repeat split; [lia |].
      right. exists "", x. by repeat split.
  - cbn [all_digits String.length] in *. rewrite Hx. cbn [andb].
    repeat split; [done | lia |].
    right. destruct Hshape as [Hnil | (a & c & Heq & Hlast & Hcut)]; [discriminate |].
    exists (String x a), c. rewrite append_cons, <- Heq.
    repeat split; [| done]. cbn [last_char]. exact Hlast.
Qed.

Lemma last_char_append (a : string) (c : ascii) : last_char (a +:+ String c "") = Some c.
Proof.
  induction a as [| x a IH]; [done |].
  rewrite append_cons. cbn [last_char]. rewrite IH.
  destruct (a +:+ String c "") eqn:Heq; [destruct a; discriminate Heq | done].
Qed.

Lemma strings_TrimRight_last (a : string) (c : ascii) (cutset : string) :
  in_cutset c cutset = false ->
  strings_TrimRight (a +:+ String c "") cutset = a +:+ String c "".
Proof. intros Hc. by rewrite strings_TrimRight_keep. Qed.

Lemma canonical_unsigned_trimmed (n : Z) :
  0 <= n ->
  exists c rest,
    strings_TrimRight (strings_TrimRight (unsigned8 n) "0") "." = String c rest
    /\ is_digit c = true
    /\ canonical_unsigned (String c rest) = true.
Proof.
  intros Hn. unfold unsigned8.
  assert (0 <= n / 10 ^ 8) as Hi by (apply Z.div_pos; lia).
  assert (0 <= n mod 10 ^ 8) as Hf by (apply Z.mod_pos_bound; lia).
  destruct (decimal_shape _ Hi) as [Hall Hlen].
  destruct (decimal_head _ Hi) as (c0 & rest0 & Hdec & Hc0 & _).
  destruct (zero_padded_shape 8 _ Hf) as [Hpall Hplen].
  generalize dependent (zero_padded 8 (n mod 10 ^ 8)). intros pad Hpall Hplen.
  generalize dependent (decimal (n / 10 ^ 8)). intros ip Hall Hlen Hdec.
  rewrite strings_TrimRight_keep by reflexivity.
  destruct (strings_TrimRight_shape pad "0" Hpall) as (Htall & Htlen & Hshape).
  generalize dependent (strings_TrimRight pad "0"). intros f Htall Htlen Hshape.
  assert ((0 <? String.length ip)%nat = true) as Hpos by (apply Nat.ltb_lt; lia).
  destruct Hshape as [Hnil | (a & c & Hf' & Hlast & Hcut)].
  - assert (strings_TrimRight (ip +:+ String "." f) "." = ip) as ->.
    { rewrite Hnil, strings_TrimRight_drop by reflexivity.
      destruct (string_snoc ip) as [Hip | (a & c & Hip & Hlast)];
        [rewrite Hip in Hlen; cbn in Hlen; lia |].
      assert (is_digit c = true) as Hc.
      { rewrite Hip, all_digits_append in Hall. apply andb_prop in Hall as [_ Hall].
        cbn in Hall. by rewrite andb_true_r in Hall. }
      destruct (is_digit_not c Hc) as (_ & _ & _ & _ & _ & Hcut).
      rewrite Hip. by apply strings_TrimRight_last. }
    exists c0, rest0. rewrite <- Hdec. repeat split; [done |].
    unfold canonical_unsigned. rewrite split_point_no_point by done.
    by rewrite Hall, Hpos.
  - assert (is_digit c = true) as Hc.
    { rewrite Hf', all_digits_append in Htall. apply andb_prop in Htall as [_ Htall].
      cbn in Htall. by rewrite andb_true_r in Htall. }
    destruct (is_digit_not c Hc) as (_ & _ & _ & _ & _ & Hcutp).
    assert (strings_TrimRight (ip +:+ String "." f) "." = ip +:+ String "." f) as ->.
    { rewrite Hf'.
      replace (ip +:+ String "." (a +:+ String c ""))
        with ((ip +:+ String "." a) +:+ String c "") by (by rewrite append_assoc).
      by apply strings_TrimRight_last. }
    exists c0, (rest0 +:+ String "." f). rewrite <- append_cons, <- Hdec.
    repeat split; [done |].
    unfold canonical_unsigned. rewrite split_point_digits by done.
    rewrite Hall, Htall, Hlast, Hpos.
    assert (Ascii.eqb c "0" = false) as ->.
    { unfold in_cutset in Hcut. cbn in Hcut. by rewrite orb_false_r in Hcut. }
    assert (0 < String.length f)%nat
      by (rewrite Hf', length_append; cbn; lia).
    destruct (1 <=? String.length f)%nat eqn:H2; [| apply Nat.leb_gt in H2; lia].
    destruct (String.length f <=? 8)%nat eqn:H3; [done | apply Nat.leb_gt in H3; lia].
Qed.

Lemma strings_TrimRight_cons (x y : ascii) (u t cutset : string) :
  strings_TrimRight u cutset = String y t ->
  strings_TrimRight (String x u) cutset = String x (String y t).
Proof. intros Hu. cbn [strings_TrimRight]. by rewrite Hu. Qed.

Lemma strings_TrimRight_unsigned8 (n : Z) :
  0 <= n -> exists y t, strings_TrimRight (unsigned8 n) "0" = String y t.
Proof.
  intros Hn. unfold unsigned8. rewrite strings_TrimRight_keep by reflexivity.
  assert (0 <= n / 10 ^ 8) as Hi by (apply Z.div_pos; lia).
  destruct (decimal_head _ Hi) as (c & rest & -> & _). rewrite append_cons. eauto.
Qed.

Lemma round_half_even_nearest (num den : Z) :
  0 <= num -> 0 < den ->
  0 <= round_half_even num den /\ 2 * Z.abs (round_half_even num den * den - num) <= den.
Proof.
  intros Hnum Hden. unfold round_half_even.
  pose proof (Z.div_mod num den ltac:(lia)) as Hdm.
  pose proof (Z.mod_pos_bound num den Hden) as Hr.
  assert (0 <= num / den) as Hq by (apply Z.div_pos; lia).
  destruct (2 * (num mod den) ?= den) eqn:Hcmp.
  - apply Z.compare_eq in Hcmp. destruct (Z.even (num / den)); split; lia.
  - rewrite Z.compare_lt_iff in Hcmp. split; lia.
  - rewrite Z.compare_gt_iff in Hcmp. split; lia.
Qed.

Lemma digits8_nonneg (x : float64) : 0 <= digits8 x.
Proof.
  destruct x as [| | | s m e]; cbn [digits8]; try lia.
  unfold scaled8. destruct (0 <=? e) eqn:He.
  - apply Z.leb_le in He. assert (0 < 2 ^ e) by (apply Z.pow_pos_nonneg; lia). lia.
  - apply Z.leb_gt in He. apply round_half_even_nearest; [lia |].
    apply Z.pow_pos_nonneg; lia.
Qed.

Lemma fmt_Sprintf_8f_finite (x : float64) :
  is_finite x = true -> fmt_Sprintf_8f x = fixed8 (f64_sign x) (digits8 x).
Proof. destruct x; try discriminate; reflexivity. Qed.

Lemma canonical_trimmed_of_fixed8 (neg : bool) (n : Z) :
  0 <= n -> canonical_decimal (trimmed_of (fixed8 neg n)) = true.
Proof.
  intros Hn. unfold trimmed_of.
  assert (exists neg' n', 0 <= n'
            /\ (if String.eqb (fixed8 neg n) "-0.00000000" then "0.00000000"%string
                else fixed8 neg n) = fixed8 neg' n') as (neg' & n' & Hn' & ->).
  { destruct (String.eqb (fixed8 neg n) "-0.00000000");
      [exists false, 0; by split | exists neg, n; by split]. }
  rewrite fixed8_unsigned8.
  destruct (canonical_unsigned_trimmed n' Hn') as (c & rest & Htrim & Hc & Hcanon).
  destruct (is_digit_not c Hc) as (_ & Hminus & _).
  destruct neg'.
  - destruct (strings_TrimRight_unsigned8 n' Hn') as (y & t & Hy).
    rewrite (strings_TrimRight_cons "-" y _ t "0" Hy), <- Hy.
    rewrite (strings_TrimRight_cons "-" c _ rest "." Htrim).
    cbn [String.eqb canonical_decimal]. exact Hcanon.
  - rewrite Htrim. cbn [String.eqb canonical_decimal]. by rewrite Hminus.
Qed.

(** ** binary64: digits and rounding of a mantissa *)

Lemma digits2_pos_bounds (p : positive) :
  2 ^ (Zpos (digits2_pos p) - 1) <= Zpos p < 2 ^ Zpos (digits2_pos p).
Proof.
  induction p as [p IH | p IH |]; cbn [digits2_pos].
  - rewrite Pos2Z.inj_succ. replace (Z.succ (Zpos (digits2_pos p)) - 1) with (Z.succ (Zpos (digits2_pos p) - 1)) by lia.
    rewrite !Z.pow_succ_r by lia. lia.
  - rewrite Pos2Z.inj_succ. replace (Z.succ (Zpos (digits2_pos p)) - 1) with (Z.succ (Zpos (digits2_pos p) - 1)) by lia.
    rewrite !Z.pow_succ_r by lia. lia.
  - cbn. lia.
Qed.

Lemma iter_xO_value (p k : positive) : Zpos (Pos.iter xO p k) = Zpos p * 2 ^ Zpos k.
Proof.
  apply (Pos.iter_ind _ xO p (fun k r => Zpos r = Zpos p * 2 ^ Zpos k)).
  - cbn. lia.
  - intros q r IH. rewrite Pos2Z.inj_succ, Z.pow_succ_r by lia. rewrite Pos2Z.inj_xO, IH. lia.
Qed.

Lemma iter_xO_digits (p k : positive) :
  digits2_pos (Pos.iter xO p k) = (digits2_pos p + k)%positive.
Proof.
  apply (Pos.iter_ind _ xO p (fun k r => digits2_pos r = (digits2_pos p + k)%positive)).
  - cbn. lia.
  - intros q r IH. cbn [digits2_pos]. rewrite IH. lia.
Qed.

Lemma binary_round_small (s : bool) (p : positive) :
  Zpos p < 2 ^ 53 ->
  exists m e, binary_round 53 1024 s p 0 = S754_finite s m e /\ -52 <= e <= 0 /\ Zpos m = Zpos p * 2 ^ (- e).
Proof.
  intros Hp.
  pose proof (digits2_pos_bounds p) as [Hlo Hhi].
  assert (Zpos (digits2_pos p) <= 53) as Hd.
  { destruct (Z_le_gt_dec (Zpos (digits2_pos p)) 53) as [|Hgt]; [done|].
    assert (2 ^ 53 <= 2 ^ (Zpos (digits2_pos p) - 1)) by (apply Z.pow_le_mono_r; lia). lia. }
  unfold binary_round.
  assert (fexp 53 1024 (Zpos (digits2_pos p) + 0) = Zpos (digits2_pos p) - 53) as ->
    by (unfold fexp, emin; lia).
  unfold shl_align.
  destruct (Zpos (digits2_pos p) - 53 - 0) as [| k | k] eqn:Hk; [| lia |].
  - exists p, 0. split; [| split; [lia | cbn; lia]].
    unfold binary_round_aux, shr_fexp. cbn [Zdigits2 shr_record_of_loc].
    assert (fexp 53 1024 (Zpos (digits2_pos p) + 0) - 0 = 0) as -> by (unfold fexp, emin; lia).
    cbn [shr shr_m loc_of_shr_record round_nearest_even Zdigits2 shr_record_of_loc].
    assert (fexp 53 1024 (Zpos (digits2_pos p) + 0) - 0 = 0) as -> by (unfold fexp, emin; lia).
    cbn [shr shr_m]. reflexivity.
  - exists (Pos.iter xO p k), (Zpos (digits2_pos p) - 53).
    assert (Zpos (digits2_pos (Pos.iter xO p k)) = 53) as Hdk
      by (rewrite iter_xO_digits; lia).
    split; [| split; [lia |]].
    + unfold binary_round_aux, shr_fexp. cbn [Zdigits2 shr_record_of_loc].
      rewrite Hdk.
      assert (fexp 53 1024 (53 + (Zpos (digits2_pos p) - 53)) - (Zpos (digits2_pos p) - 53) = 0) as ->
        by (unfold fexp, emin; lia).
      cbn [shr shr_m loc_of_shr_record round_nearest_even Zdigits2 shr_record_of_loc].
      rewrite Hdk.
      assert (fexp 53 1024 (53 + (Zpos (digits2_pos p) - 53)) - (Zpos (digits2_pos p) - 53) = 0) as ->
        by (unfold fexp, emin; lia).
      cbn [shr shr_m].
      destruct (Zpos (digits2_pos p) - 53 <=? 1024 - 53) eqn:Hle; [reflexivity | lia].
    + rewrite iter_xO_value. f_equal. f_equal. lia.
Qed.

Lemma Zdigits2_nonneg (m : Z) : 0 <= Zdigits2 m.
Proof. destruct m; cbn; lia. Qed.

Lemma Zdigits2_bounds (m : Z) : 0 < m -> 2 ^ (Zdigits2 m - 1) <= m < 2 ^ Zdigits2 m.
Proof. destruct m as [| p | p]; try lia. intros _. apply digits2_pos_bounds. Qed.

Lemma Zdigits2_le (m d : Z) : 0 <= d -> 0 <= m < 2 ^ d -> Zdigits2 m <= d.
Proof.
  intros Hd [Hm0 Hm]. destruct (Z.eq_dec m 0) as [-> | Hne]; [cbn; lia |].
  destruct (Zdigits2_bounds m ltac:(lia)) as [Hlo _].
  destruct (Z_le_gt_dec (Zdigits2 m) d) as [| Hgt]; [done |].
  assert (2 ^ d <= 2 ^ (Zdigits2 m - 1)) by (apply Z.pow_le_mono_r; lia). lia.
Qed.

Lemma Zdigits2_ge (m d : Z) : 0 < m -> 2 ^ (d - 1) <= m -> d <= Zdigits2 m.
Proof.
  intros Hm Hd. destruct (Zdigits2_bounds m Hm) as [_ Hhi].
  pose proof (Zdigits2_nonneg m).
  destruct (Z_le_gt_dec d (Zdigits2 m)) as [| Hgt]; [done |].
  assert (2 ^ Zdigits2 m <= 2 ^ (d - 1)) by (apply Z.pow_le_mono_r; lia). lia.
Qed.

Lemma iter_pos_nat {A : Type} (f : A -> A) (p : positive) (x : A) :
  SpecFloat.iter_pos f p x = Nat.iter (Pos.to_nat p) f x.
Proof.
  revert x. induction p as [p IH | p IH |]; intros x; cbn [SpecFloat.iter_pos].
  - rewrite !IH, Pos2Nat.inj_xI.
    replace (S (2 * Pos.to_nat p)) with (Pos.to_nat p + Pos.to_nat p + 1)%nat by lia.
    rewrite !Nat.iter_add. reflexivity.
  - rewrite !IH, Pos2Nat.inj_xO.
    replace (2 * Pos.to_nat p)%nat with (Pos.to_nat p + Pos.to_nat p)%nat by lia.
    rewrite Nat.iter_add. reflexivity.
  - reflexivity.
Qed.

Lemma shr_1_m (mrs : shr_record) : 0 <= shr_m mrs -> shr_m (shr_1 mrs) = shr_m mrs / 2.
Proof.
  destruct mrs as [m r s]. cbn [shr_m]. intros Hm.
  destruct m as [| [p | p |] | p]; cbn [shr_1 shr_m]; try lia; try reflexivity.
  - change (Zpos p~1) with (2 * Zpos p + 1). apply (Z.div_unique _ 2 _ 1); lia.
  - change (Zpos p~0) with (2 * Zpos p). apply (Z.div_unique _ 2 _ 0); lia.
Qed.

Lemma iter_shr_1_m (n : nat) (mrs : shr_record) :
  0 <= shr_m mrs -> shr_m (Nat.iter n shr_1 mrs) = shr_m mrs / 2 ^ Z.of_nat n.
Proof.
  intros Hm. induction n as [| n IH].
  - cbn. by rewrite Z.div_1_r.
  - rewrite Nat.iter_succ, shr_1_m.
    + rewrite IH, Z.div_div by lia. f_equal.
      rewrite Nat2Z.inj_succ, Z.pow_succ_r by lia. lia.
    + rewrite IH. apply Z.div_pos; lia.
Qed.

Lemma shr_record_of_loc_m (m : Z) (l : location) : shr_m (shr_record_of_loc m l) = m.
Proof. by destruct l as [| []]. Qed.

(** The first component of [shr_fexp]: the mantissa divided by the power of
    two that brings the exponent to [fexp]. *)
Lemma shr_fexp_m (m e : Z) (l : location) :
  0 <= m ->
  let k := Z.max 0 (fexp 53 1024 (Zdigits2 m + e) - e) in
  shr_m (fst (shr_fexp 53 1024 m e l)) = m / 2 ^ k
  /\ snd (shr_fexp 53 1024 m e l) = e + k.
Proof.
  intros Hm k. unfold shr_fexp, shr. subst k.
  destruct (fexp 53 1024 (Zdigits2 m + e) - e) as [| p | p] eqn:Hk; cbn [fst snd].
  - rewrite shr_record_of_loc_m. cbn. rewrite Z.div_1_r. split; lia.
  - rewrite iter_pos_nat, iter_shr_1_m by (rewrite shr_record_of_loc_m; lia).
    rewrite shr_record_of_loc_m, positive_nat_Z.
    rewrite Z.max_r by lia. split; reflexivity.
  - rewrite shr_record_of_loc_m. rewrite Z.max_l by lia. cbn. rewrite Z.div_1_r. split; lia.
Qed.

Lemma round_nearest_even_bounds (m : Z) (l : location) :
  m <= round_nearest_even m l <= m + 1.
Proof. destruct l as [| []]; cbn; try lia. destruct (Z.even m); lia. Qed.

Lemma binary_round_aux_finite (s : bool) (mx ex : Z) (lx : location) :
  0 <= mx ->
  ex <= fexp 53 1024 (Zdigits2 mx + ex) ->
  Zdigits2 mx + ex <= 1023 ->
  is_finite (binary_round_aux 53 1024 s mx ex lx) = true.
Proof.
  intros Hmx Hex Hd. unfold binary_round_aux.
  destruct (shr_fexp_m mx ex lx Hmx) as [Hm1 He1].
  destruct (shr_fexp 53 1024 mx ex lx) as [mrs' e'] eqn:Hshr1. cbn [fst snd] in Hm1, He1.
  set (m2 := round_nearest_even (shr_m mrs') (loc_of_shr_record mrs')).
  assert (e' = fexp 53 1024 (Zdigits2 mx + ex)) as He' by lia.
  assert (0 <= shr_m mrs' < 2 ^ 53) as Hm1r.
  { rewrite Hm1. split; [apply Z.div_pos; lia |].
    destruct (Z.eq_dec mx 0) as [-> | Hne]; [rewrite Z.div_0_l; lia |].
    destruct (Zdigits2_bounds mx ltac:(lia)) as [_ Hhi].
    apply Z.div_lt_upper_bound; [lia |].
    rewrite <- Z.pow_add_r by lia.
    eapply Z.lt_le_trans; [exact Hhi |].
    apply Z.pow_le_mono_r; [lia |]. unfold fexp, emin in *. lia. }
  pose proof (round_nearest_even_bounds (shr_m mrs') (loc_of_shr_record mrs')) as Hm2.
  fold m2 in Hm2.
  assert (0 <= m2) as Hm2nn by lia.
  destruct (shr_fexp_m m2 e' loc_Exact Hm2nn) as [Hm3 He3].
  destruct (shr_fexp 53 1024 m2 e' loc_Exact) as [mrs'' e''] eqn:Hshr2.
  cbn [fst snd] in Hm3, He3.
  assert (Zdigits2 m2 <= 54) as Hd2.
  { apply Zdigits2_le; [lia |]. split; [lia |].
    assert (2 ^ 54 = 2 * 2 ^ 53) as -> by (by vm_compute). lia. }
  assert (e'' <= 971) as He''.
  { rewrite He3. unfold fexp, emin in *. lia. }
  assert (0 <= shr_m mrs'') as Hm3nn by (rewrite Hm3; apply Z.div_pos; lia).
  destruct (shr_m mrs'') as [| p | p]; [reflexivity | | lia].
  destruct (e'' <=? 1024 - 53) eqn:Hle; [reflexivity | apply Z.leb_gt in Hle; lia].
Qed.

Lemma fexp_mono (a b : Z) : a <= b -> fexp 53 1024 a <= fexp 53 1024 b.
Proof. unfold fexp, emin. lia. Qed.

Lemma div_eucl_div (a b : Z) : Z.div_eucl a b = (a / b, a mod b).
Proof. unfold Z.div, Z.modulo. by destruct (Z.div_eucl a b). Qed.

Lemma f64_of_ratio_finite (neg : bool) (N D : Z) :
  0 <= N -> 0 < D -> Zdigits2 D <= 1000 -> N < 2 ^ 1000 * D ->
  is_finite (f64_of_ratio neg N D) = true.
Proof.
  intros HN HD Hd2 Hbound. unfold f64_of_ratio.
  destruct N as [| n | n] eqn:HNeq; [reflexivity | | lia].
  rewrite <- HNeq in *. assert (0 < N) as HNpos by lia. clear HNeq.
  unfold SFdiv_core_binary.
  set (d1 := Zdigits2 N). set (d2 := Zdigits2 D).
  assert (1 <= d1) as Hd1 by (apply Zdigits2_ge; [lia | cbn; lia]).
  assert (1 <= d2) as Hd2' by (apply Zdigits2_ge; [lia | cbn; lia]).
  replace (d1 + 0 - (d2 + 0)) with (d1 - d2) by lia.
  assert (fexp 53 1024 (d1 - d2) = d1 - d2 - 53) as Hfexp by (unfold fexp, emin; lia).
  rewrite Hfexp. change (0 - 0) with 0.
  set (e' := Z.min (d1 - d2 - 53) 0).
  set (s := 0 - e'). assert (0 <= s) as Hs by (subst s e'; lia).
  assert (match s with
          | 0 => N
          | Zpos _ => Z.shiftl N s
          | Zneg _ => 0
          end = N * 2 ^ s) as ->.
  { destruct s as [| p | p] eqn:Hseq; [cbn; lia | | lia].
    rewrite Z.shiftl_mul_pow2 by lia. reflexivity. }
  rewrite div_eucl_div.
  set (q := N * 2 ^ s / D).
  assert (0 < 2 ^ s) as Hpow by (apply Z.pow_pos_nonneg; lia).
  destruct (Zdigits2_bounds N HNpos) as [HNlo HNhi]. fold d1 in HNlo, HNhi.
  destruct (Zdigits2_bounds D HD) as [HDlo HDhi]. fold d2 in HDlo, HDhi.
  set (t := d1 + s - d2 - 1).
  assert (52 <= t) as Ht by (subst t s e'; lia).
  assert (2 ^ t <= q) as Hq.
  { subst q. apply Z.div_le_lower_bound; [lia |].
    assert (2 ^ t * 2 ^ d2 = 2 ^ (d1 - 1) * 2 ^ s) as Hpows.
    { rewrite <- !Z.pow_add_r by lia. f_equal. subst t. lia. }
    assert (0 < 2 ^ t) by (apply Z.pow_pos_nonneg; lia).
    nia. }
  assert (0 < q) as Hqpos by (assert (0 < 2 ^ t) by (apply Z.pow_pos_nonneg; lia); lia).
  assert (t + 1 <= Zdigits2 q) as Hdq
    by (apply Zdigits2_ge; [lia |]; replace (t + 1 - 1) with t by lia; exact Hq).
  assert (Zdigits2 q <= 1000 + s) as Hdq'.
  { apply Zdigits2_le; [lia |]. split; [lia |].
    subst q. apply Z.div_lt_upper_bound; [lia |].
    rewrite Z.pow_add_r by lia. nia. }
  apply binary_round_aux_finite.
  - lia.
  - etransitivity; [| apply (fexp_mono (d1 - d2))].
    + rewrite Hfexp. subst e'. lia.
    + subst t s. lia.
  - subst s. lia.
Qed.

Lemma shr_1_even (m : Z) :
  0 <= m -> m mod 2 = 0 ->
  shr_1 {| shr_m := m; shr_r := false; shr_s := false |}
  = {| shr_m := m / 2; shr_r := false; shr_s := false |}.
Proof.
  intros Hm Heven. destruct m as [| [p | p |] | p]; try lia.
  - reflexivity.
  - exfalso. change (Zpos p~1) with (2 * Zpos p + 1) in Heven.
    rewrite Z.add_comm, Z.mul_comm, Z.mod_add in Heven by lia. discriminate Heven.
  - cbn [shr_1 orb]. f_equal. change (Zpos p~0) with (2 * Zpos p).
    apply (Z.div_unique _ 2 _ 0); lia.
  - discriminate Heven.
Qed.

Lemma iter_shr_1_exact (n : nat) (m : Z) :
  0 <= m -> m mod 2 ^ Z.of_nat n = 0 ->
  Nat.iter n shr_1 {| shr_m := m; shr_r := false; shr_s := false |}
  = {| shr_m := m / 2 ^ Z.of_nat n; shr_r := false; shr_s := false |}.
Proof.
  intros Hm. induction n as [| n IH]; intros Hdiv.
  - cbn. by rewrite Z.div_1_r.
  - rewrite Nat2Z.inj_succ, Z.pow_succ_r in Hdiv |- * by lia.
    assert (0 < 2 ^ Z.of_nat n) as Hpow by (apply Z.pow_pos_nonneg; lia).
    rewrite Z.mul_comm, Z.rem_mul_r in Hdiv by lia.
    assert (0 <= m mod 2 ^ Z.of_nat n < 2 ^ Z.of_nat n) by (apply Z.mod_pos_bound; lia).
    assert (0 <= (m / 2 ^ Z.of_nat n) mod 2 < 2) by (apply Z.mod_pos_bound; lia).
    rewrite Nat.iter_succ, IH by nia.
    rewrite shr_1_even; [| apply Z.div_pos; lia | nia].
    rewrite Z.div_div by lia. by rewrite (Z.mul_comm 2).
Qed.

Lemma shr_fexp_exact (m e : Z) :
  0 <= m ->
  m mod 2 ^ Z.max 0 (fexp 53 1024 (Zdigits2 m + e) - e) = 0 ->
  shr_fexp 53 1024 m e loc_Exact
  = ({| shr_m := m / 2 ^ Z.max 0 (fexp 53 1024 (Zdigits2 m + e) - e);
        shr_r := false; shr_s := false |},
     e + Z.max 0 (fexp 53 1024 (Zdigits2 m + e) - e)).
Proof.
  intros Hm. unfold shr_fexp, shr. cbn [shr_record_of_loc].
  destruct (fexp 53 1024 (Zdigits2 m + e) - e) as [| p | p] eqn:Hk; intros Hdiv.
  - cbn. rewrite Z.div_1_r. do 2 f_equal. lia.
  - rewrite Z.max_r in * by lia.
    rewrite iter_pos_nat, iter_shr_1_exact by (rewrite ?positive_nat_Z; done).
    rewrite positive_nat_Z. reflexivity.
  - rewrite Z.max_l in * by lia. cbn. rewrite Z.div_1_r. do 2 f_equal. lia.
Qed.

Lemma bounded_digits (m : positive) (e : Z) :
  bounded 53 1024 m e = true ->
  e <= 971 /\ - 1074 <= e /\ Zpos (digits2_pos m) <= 53
  /\ (0 <= e -> Zpos (digits2_pos m) = 53).
Proof.
  unfold bounded, canonical_mantissa. intros H. apply andb_prop in H as [Hc Hb].
  apply Z.eqb_eq in Hc. apply Z.leb_le in Hb. unfold fexp, emin in Hc. lia.
Qed.

(** An integer-valued float is the float64 of its own decimal text. *)
Lemma f64_of_ratio_exact (s : bool) (m : positive) (e D : Z) :
  bounded 53 1024 m e = true -> 0 <= e -> 0 < D ->
  f64_of_ratio s (Zpos m * 2 ^ e * D) D = S754_finite s m e.
Proof.
  intros Hb He HD. destruct (bounded_digits m e Hb) as (He971 & _ & _ & Hdm).
  specialize (Hdm He).
  assert (0 < 2 ^ e) as Hpe by (apply Z.pow_pos_nonneg; lia).
  unfold f64_of_ratio.
  destruct (Zpos m * 2 ^ e * D) as [| n | n] eqn:HN; [nia | | nia].
  rewrite <- HN. clear n HN.
  unfold SFdiv_core_binary.
  set (e' := Z.min _ (0 - 0)). assert (e' <= 0) as He' by (subst e'; lia).
  set (s' := 0 - 0 - e'). assert (0 <= s') as Hs' by (subst s'; lia).
  assert (match s' with
          | 0 => Zpos m * 2 ^ e * D
          | Zpos _ => Z.shiftl (Zpos m * 2 ^ e * D) s'
          | Zneg _ => 0
          end = (Zpos m * 2 ^ (e + s')) * D) as ->.
  { rewrite Z.pow_add_r by lia.
    destruct s' as [| p | p] eqn:Hseq; [cbn; lia | | lia].
    rewrite Z.shiftl_mul_pow2 by lia. lia. }
  rewrite div_eucl_div, Z.div_mul, Z.mod_mul by lia.
  assert (new_location D 0 = loc_Exact) as ->
    by (unfold new_location, new_location_even, new_location_odd; by destruct (Z.even D)).
  set (q := Zpos m * 2 ^ (e + s')).
  assert (0 < 2 ^ (e + s')) as Hpes by (apply Z.pow_pos_nonneg; lia).
  destruct (digits2_pos_bounds m) as [Hmlo Hmhi]. rewrite Hdm in Hmlo, Hmhi.
  assert (Zdigits2 q = 53 + e + s') as Hdq.
  { apply Z.le_antisymm.
    - apply Zdigits2_le; [lia |]. split; [subst q; lia |].
      subst q. replace (53 + e + s') with (53 + (e + s')) by lia.
      rewrite (Z.pow_add_r 2 53 (e + s')) by lia.
      apply Z.mul_lt_mono_pos_r; [exact Hpes | exact Hmhi].
    - apply Zdigits2_ge; [subst q; lia |].
      subst q. replace (53 + e + s' - 1) with (52 + (e + s')) by lia.
      rewrite (Z.pow_add_r 2 52 (e + s')) by lia. change (53 - 1) with 52 in Hmlo.
      apply Z.mul_le_mono_nonneg_r; [lia | exact Hmlo]. }
  assert (Z.max 0 (fexp 53 1024 (Zdigits2 q + e') - e') = e + s') as Hk.
  { rewrite Hdq. unfold fexp, emin. subst s'. lia. }
  unfold binary_round_aux.
  assert (0 <= q) as Hq0 by (subst q; lia).
  assert (q mod 2 ^ Z.max 0 (fexp 53 1024 (Zdigits2 q + e') - e') = 0) as Hqdiv
    by (rewrite Hk; subst q; apply Z.mod_mul; lia).
  rewrite (shr_fexp_exact q e' Hq0 Hqdiv), Hk.
  cbn [shr_m loc_of_shr_record round_nearest_even].
  assert (q / 2 ^ (e + s') = Zpos m) as -> by (subst q; apply Z.div_mul; lia).
  assert (e' + (e + s') = e) as -> by (subst s'; lia).
  assert (Z.max 0 (fexp 53 1024 (Zdigits2 (Zpos m) + e) - e) = 0) as Hk2.
  { cbn [Zdigits2]. rewrite Hdm. unfold fexp, emin. lia. }
  assert (Zpos m mod 2 ^ Z.max 0 (fexp 53 1024 (Zdigits2 (Zpos m) + e) - e) = 0) as Hmdiv
    by (rewrite Hk2; apply Z.mod_1_r).
  rewrite (shr_fexp_exact (Zpos m) e ltac:(lia) Hmdiv), Hk2.
  cbn [shr_m]. rewrite Z.div_1_r, Z.add_0_r.
  destruct (e <=? 1024 - 53) eqn:Hle; [reflexivity | apply Z.leb_gt in Hle; lia].
Qed.

(** The float64 of the text that [%.8f] prints for a finite float64 is
    finite: [strconv.ParseFloat] does not fail on it. *)
Lemma parsedRounded_finite (x : float64) :
  is_finite x = true -> f64_valid x = true ->
  is_finite (f64_of_ratio (f64_sign x) (digits8 x) (10 ^ 8)) = true.
Proof.
  intros Hfin Hvalid. destruct x as [z | | | s m e]; try discriminate; [reflexivity |].
  cbn [f64_sign digits8]. unfold f64_valid in Hvalid. cbn [valid_binary] in Hvalid.
  destruct (bounded_digits m e Hvalid) as (_ & _ & Hdm & _).
  unfold scaled8. destruct (0 <=? e) eqn:He.
  - apply Z.leb_le in He. rewrite f64_of_ratio_exact by (done || lia). reflexivity.
  - apply Z.leb_gt in He.
    assert (0 < 2 ^ (- e)) as Hden by (apply Z.pow_pos_nonneg; lia).
    destruct (round_half_even_nearest (Zpos m * 10 ^ 8) (2 ^ (- e))) as [Hnn Hnear];
      [lia | lia |].
    destruct (digits2_pos_bounds m) as [_ Hmhi].
    assert (Zpos m < 2 ^ 53)
      by (eapply Z.lt_le_trans; [exact Hmhi | apply Z.pow_le_mono_r; lia]).
    apply f64_of_ratio_finite; [lia | lia | by vm_compute |].
    set (N := round_half_even (Zpos m * 10 ^ 8) (2 ^ (- e))) in *.
    assert (N <= Zpos m * 10 ^ 8 + 1) by nia.
    assert (2 ^ 53 < 2 ^ 1000) by (apply Z.pow_lt_mono_r; lia).
    nia.
Qed.

(** The mantissa of a rounded float has at most 53 bits. *)
Lemma binary_round_aux_mantissa (s : bool) (mx ex : Z) (lx : location) (s' : bool)
    (m : positive) (e : Z) :
  0 <= mx ->
  binary_round_aux 53 1024 s mx ex lx = S754_finite s' m e -> Zpos m < 2 ^ 53.
Proof.
  intros Hmx. unfold binary_round_aux.
  destruct (shr_fexp_m mx ex lx Hmx) as [Hm1 He1].
  destruct (shr_fexp 53 1024 mx ex lx) as [mrs' e'] eqn:Hshr1. cbn [fst snd] in Hm1, He1.
  set (m2 := round_nearest_even (shr_m mrs') (loc_of_shr_record mrs')).
  assert (0 <= shr_m mrs' < 2 ^ 53) as Hm1r.
  { rewrite Hm1. split; [apply Z.div_pos; lia |].
    destruct (Z.eq_dec mx 0) as [-> | Hne]; [rewrite Z.div_0_l; lia |].
    destruct (Zdigits2_bounds mx ltac:(lia)) as [_ Hhi].
    apply Z.div_lt_upper_bound; [lia |].
    rewrite <- Z.pow_add_r by lia.
    eapply Z.lt_le_trans; [exact Hhi |].
    apply Z.pow_le_mono_r; [lia |]. unfold fexp, emin in *. lia. }
  pose proof (round_nearest_even_bounds (shr_m mrs') (loc_of_shr_record mrs')) as Hm2.
  fold m2 in Hm2.
  assert (0 <= m2) as Hm2nn by lia.
  destruct (shr_fexp_m m2 e' loc_Exact Hm2nn) as [Hm3 He3].
  destruct (shr_fexp 53 1024 m2 e' loc_Exact) as [mrs'' e''] eqn:Hshr2.
  cbn [fst snd] in Hm3, He3.
  assert (shr_m mrs'' < 2 ^ 53) as Hm3r.
  { rewrite Hm3. destruct (Z.eq_dec m2 (2 ^ 53)) as [Heq | Hne].
    - rewrite Heq. change (Zdigits2 (2 ^ 53)) with 54.
      assert (1 <= Z.max 0 (fexp 53 1024 (54 + e') - e')) as Hk by (unfold fexp, emin; lia).
      apply Z.div_lt_upper_bound; [lia |].
      assert (2 ^ 1 <= 2 ^ Z.max 0 (fexp 53 1024 (54 + e') - e'))
        by (apply Z.pow_le_mono_r; lia).
      change (2 ^ 1) with 2 in *. lia.
    - assert (0 < 2 ^ Z.max 0 (fexp 53 1024 (Zdigits2 m2 + e') - e'))
        by (apply Z.pow_pos_nonneg; lia).
      apply Z.div_lt_upper_bound; [lia |]. nia. }
  destruct (shr_m mrs'') as [| p | p]; try discriminate.
  destruct (e'' <=? 1024 - 53); [| discriminate].
  intros [= _ <- _]. exact Hm3r.
Qed.

(** ** NumericCodec: FloatToWire *)

(** C3.  For a finite [x], [FloatToWire] rounds [x] to eight fractional
    digits; it fails with a precision error exactly when the float64 of the
    rounded text and [x] differ by at least [1e-12], and does not fail
    otherwise; on success it returns the rounded text without its trailing
    zeros and without a trailing point, both [0.00000000] and [-0.00000000]
    give [0], and the text is in the canonical decimal format. *)
Theorem FloatToWire_rounds_and_trims (x : float64) :
  is_finite x = true ->
  f64_valid x = true ->
  let rounded := fmt_Sprintf_8f x in
  let parsedRounded := f64_of_ratio (f64_sign x) (digits8 x) (10 ^ 8) in
  rounded = fixed8 (f64_sign x) (digits8 x)
  /\ (forall s m e, x = S754_finite s m e -> e < 0 ->
        2 * Z.abs (digits8 x * 2 ^ (- e) - Zpos m * 10 ^ 8) <= 2 ^ (- e))
  /\ (forall s m e, x = S754_finite s m e -> 0 <= e -> digits8 x = Zpos m * 2 ^ e * 10 ^ 8)
  /\ strconv_ParseFloat rounded = Ok parsedRounded
  /\ (FloatToWire x = Err ErrFloatToWireRounding
      <-> f64_ge (f64_abs (f64_sub parsedRounded x)) c_1e_12 = true)
  /\ (forall e, FloatToWire x = Err e ->
        e = ErrFloatToWireRounding /\ kind_of e = PrecisionError)
  /\ (f64_ge (f64_abs (f64_sub parsedRounded x)) c_1e_12 = false ->
      FloatToWire x = Ok (trimmed_of rounded))
  /\ (forall str, FloatToWire x = Ok str ->
        str = trimmed_of rounded /\ canonical_decimal str = true)
  /\ trimmed_of "0.00000000" = "0"%string
  /\ trimmed_of "-0.00000000" = "0"%string.
Proof.
  intros Hfin Hvalid rounded parsedRounded.
  pose proof (fmt_Sprintf_8f_finite x Hfin) as Hrounded. fold rounded in Hrounded.
  pose proof (digits8_nonneg x) as Hnonneg.
  pose proof (strconv_ParseFloat_fixed8 (f64_sign x) (digits8 x) Hnonneg) as Hparse.
  rewrite <- Hrounded in Hparse. fold parsedRounded in Hparse.
  pose proof (parsedRounded_finite x Hfin Hvalid) as Hfinite. fold parsedRounded in Hfinite.
  rewrite Hfinite in Hparse.
  assert (FloatToWire x
          = bind (strconv_ParseFloat rounded)
              (fun p => if f64_ge (f64_abs (f64_sub p x)) c_1e_12
                        then Err ErrFloatToWireRounding else Ok (trimmed_of rounded)))
    as Hdef by reflexivity.
  rewrite Hparse in Hdef. cbn [bind] in Hdef.
  split; [exact Hrounded |].
  split.
  { intros s m e -> He. cbn [digits8]. unfold scaled8.
    destruct (0 <=? e) eqn:Hle; [apply Z.leb_le in Hle; lia |].
    apply round_half_even_nearest; [lia | apply Z.pow_pos_nonneg; lia]. }
  split.
  { intros s m e -> He. cbn [digits8]. unfold scaled8.
    destruct (0 <=? e) eqn:Hle; [reflexivity | apply Z.leb_gt in Hle; lia]. }
  split; [exact Hparse |].
  rewrite Hdef. destruct (f64_ge _ c_1e_12).
  - split; [split; intros _; reflexivity |].
    split; [intros e Heq; injection Heq as <-; split; reflexivity |].
    split; [intros Heq; discriminate Heq |].
    split; [intros str Heq; discriminate Heq |].
    split; reflexivity.
  - split; [split; intros Heq; discriminate Heq |].
    split; [intros e Heq; discriminate Heq |].
    split; [intros _; reflexivity |].
    split; [| split; reflexivity].
    intros str Heq. injection Heq as <-.
    split; [reflexivity |]. rewrite Hrounded. apply canonical_trimmed_of_fixed8.
    exact Hnonneg.
Qed.

(** ** NumericCodec: FloatToInt *)

Lemma half_away_quotient (m d : Z) :
  0 <= m -> 0 < d ->
  (if d <=? 2 * (m mod d) then m / d + 1 else m / d) = (2 * m + d) / (2 * d).
Proof.
  intros Hm Hd.
  pose proof (Z.div_mod m d ltac:(lia)) as Hdm.
  pose proof (Z.mod_pos_bound m d Hd) as Hr.
  destruct (d <=? 2 * (m mod d)) eqn:Hcmp.
  - apply Z.leb_le in Hcmp.
    apply (Z.div_unique _ (2 * d) _ (2 * (m mod d) - d)); lia.
  - apply Z.leb_gt in Hcmp.
    apply (Z.div_unique _ (2 * d) _ (2 * (m mod d) + d)); lia.
Qed.

Lemma f64_trunc_binary_round (s : bool) (p : positive) :
  Zpos p < 2 ^ 53 -> f64_trunc (binary_round 53 1024 s p 0) = Some (cond_Zopp s (Zpos p)).
Proof.
  intros Hp. destruct (binary_round_small s p Hp) as (m & e & -> & He & Hm).
  cbn [f64_trunc]. do 2 f_equal.
  destruct (0 <=? e) eqn:Hcmp.
  - apply Z.leb_le in Hcmp. assert (e = 0) as -> by lia. cbn in Hm. lia.
  - rewrite Hm. apply Z.div_mul. apply Z.pow_nonzero; lia.
Qed.

Lemma math_Round_nearest (s : bool) (m : positive) (e : Z) :
  Zpos m < 2 ^ 53 ->
  f64_trunc (math_Round (S754_finite s m e)) = nearest_integer (S754_finite s m e).
Proof.
  intros Hm. unfold math_Round, nearest_integer.
  destruct (0 <=? e) eqn:He; [cbn [f64_trunc]; by rewrite He |].
  apply Z.leb_gt in He.
  assert (2 <= 2 ^ (- e)) as Hd
    by (change 2 with (2 ^ 1) at 1; apply Z.pow_le_mono_r; lia).
  rewrite half_away_quotient by lia.
  set (n := (2 * Zpos m + 2 ^ (- e)) / (2 * 2 ^ (- e))).
  assert (0 <= n < 2 ^ 53) as Hn.
  { subst n. split; [apply Z.div_pos; lia |].
    apply Z.div_lt_upper_bound; [lia |]. nia. }
  destruct n as [| p | p] eqn:Hp; [by destruct s | | lia].
  destruct s; cbn [cond_Zopp binary_normalize Z.opp].
  - apply (f64_trunc_binary_round true p). lia.
  - apply (f64_trunc_binary_round false p). lia.
Qed.

Lemma f64_mul_mantissa (x y : float64) (s : bool) (m : positive) (e : Z) :
  f64_mul x y = S754_finite s m e -> Zpos m < 2 ^ 53.
Proof.
  unfold f64_mul.
  destruct x as [sx | sx | | sx mx ex], y as [sy | sy | | sy my ey]; cbn [SFmul];
    try discriminate.
  apply binary_round_aux_mantissa. lia.
Qed.

Lemma math_Round_nearest_mul (x y : float64) :
  is_finite (f64_mul x y) = true ->
  f64_trunc (math_Round (f64_mul x y)) = nearest_integer (f64_mul x y).
Proof.
  intros Hfin. destruct (f64_mul x y) as [s | s | | s m e] eqn:Hmul; try discriminate.
  - reflexivity.
  - apply math_Round_nearest. exact (f64_mul_mantissa x y s m e Hmul).
Qed.

Lemma wrap_int64_range (z : Z) : - 2 ^ 63 <= wrap_int64 z < 2 ^ 63.
Proof. unfold wrap_int64. pose proof (Z.mod_pos_bound (z + 2 ^ 63) (2 ^ 64)). lia. Qed.

Lemma int64_of_float64_range (u : float64 -> Z) (x : float64) :
  - 2 ^ 63 <= int64_of_float64 u x < 2 ^ 63.
Proof.
  unfold int64_of_float64.
  destruct (f64_trunc x) as [z |]; [| apply wrap_int64_range].
  destruct ((- 2 ^ 63 <=? z) && (z <? 2 ^ 63)) eqn:Hz; [| apply wrap_int64_range].
  apply andb_prop in Hz as [H1 H2]. apply Z.leb_le in H1. apply Z.ltb_lt in H2. lia.
Qed.

(** C8, as stated, fails: [1e19] is finite and the rounding of [1e19 * 10^0]
    is [10^19], which no [int64] holds: on no platform does [FloatToInt]
    return it. *)
Lemma FloatToInt_unrepresentable :
  is_finite x_1e19 = true
  /\ f64_valid x_1e19 = true
  /\ nearest_integer (f64_mul x_1e19 (math_Pow10 0)) = Some (10 ^ 19)
  /\ ~ (exists unrepresentable, FloatToInt unrepresentable x_1e19 0 = Ok (10 ^ 19)).
Proof.
  split; [reflexivity |]. split; [reflexivity |]. split; [vm_compute; reflexivity |].
  intros [u Hu].
  assert (FloatToInt u x_1e19 0 = Ok (wrap_int64 (u x_1e19))) as Heq by reflexivity.
  rewrite Heq in Hu. injection Hu as Hu.
  pose proof (wrap_int64_range (u x_1e19)) as Hr. rewrite Hu in Hr.
  assert (2 ^ 63 < 10 ^ 19) by (vm_compute; reflexivity). lia.
Qed.

(** C8, amended.  For every count of decimal places, [FloatToInt] fails with
    a precision error exactly when the float64 product
    [x * math.Pow(10, power)] and its rounding to the nearest integer (halves
    away from zero) differ by at least [1e-3], and otherwise returns an
    [int64], which is that rounding whenever the rounding lies in the range of
    [int64]; for a count from 0 to 22 the factor [math.Pow(10, power)] is
    [10^power] exactly; [FloatToInt(100.123456, 6) = 100123456] and
    [FloatToInt(0.0, 8) = 0]. *)
Theorem FloatToInt_rounds (unrepresentable : float64 -> Z) (x : float64) (power : Z) :
  let withDecimals := f64_mul x (math_Pow10 power) in
  let rounded := math_Round withDecimals in
  (0 <= power <= 22 -> f64_integer_value (math_Pow10 power) = Some (10 ^ power))
  /\ (is_finite withDecimals = true -> f64_trunc rounded = nearest_integer withDecimals)
  /\ (FloatToInt unrepresentable x power = Err ErrFloatToIntRounding
      <-> f64_ge (f64_abs (f64_sub rounded withDecimals)) c_1e_3 = true)
  /\ (forall e, FloatToInt unrepresentable x power = Err e ->
        e = ErrFloatToIntRounding /\ kind_of e = PrecisionError)
  /\ (forall n, FloatToInt unrepresentable x power = Ok n -> - 2 ^ 63 <= n < 2 ^ 63)
  /\ (forall n, f64_ge (f64_abs (f64_sub rounded withDecimals)) c_1e_3 = false ->
        nearest_integer withDecimals = Some n -> - 2 ^ 63 <= n < 2 ^ 63 ->
        FloatToInt unrepresentable x power = Ok n)
  /\ FloatToInt unrepresentable (f64_lit 100123456 6) 6 = Ok 100123456
  /\ FloatToInt unrepresentable (S754_zero false) 8 = Ok 0.
Proof.
  intros withDecimals rounded.
  split.
  { intros Hpower.
    assert (power = 0 \/ power = 1 \/ power = 2 \/ power = 3 \/ power = 4 \/ power = 5
            \/ power = 6 \/ power = 7 \/ power = 8 \/ power = 9 \/ power = 10 \/ power = 11
            \/ power = 12 \/ power = 13 \/ power = 14 \/ power = 15 \/ power = 16
            \/ power = 17 \/ power = 18 \/ power = 19 \/ power = 20 \/ power = 21
            \/ power = 22) as Hcases by lia.
    repeat (destruct Hcases as [-> | Hcases]; [vm_compute; reflexivity |]).
    subst power. vm_compute. reflexivity. }
  assert (is_finite withDecimals = true -> f64_trunc rounded = nearest_integer withDecimals)
    as Hnearest by apply math_Round_nearest_mul.
  split; [exact Hnearest |].
  assert (FloatToInt unrepresentable x power
          = if f64_ge (f64_abs (f64_sub rounded withDecimals)) c_1e_3
            then Err ErrFloatToIntRounding else Ok (int64_of_float64 unrepresentable rounded))
    as Hdef by reflexivity.
  split.
  { rewrite Hdef. destruct (f64_ge _ c_1e_3).
    - split; intros _; reflexivity.
    - split; intros Heq; discriminate Heq. }
  split.
  { intros e. rewrite Hdef. destruct (f64_ge _ c_1e_3); intros Heq; [| discriminate Heq].
    injection Heq as <-. split; reflexivity. }
  split.
  { intros n. rewrite Hdef. destruct (f64_ge _ c_1e_3); intros Heq; [discriminate Heq |].
    injection Heq as <-. apply int64_of_float64_range. }
  split.
  { intros n Hge Hn Hrange. rewrite Hdef, Hge. unfold int64_of_float64.
    assert (is_finite withDecimals = true) as Hfin
      by (destruct withDecimals; try discriminate Hn; reflexivity).
    rewrite (Hnearest Hfin), Hn.
    destruct (- 2 ^ 63 <=? n) eqn:H1; [| apply Z.leb_gt in H1; lia].
    destruct (n <? 2 ^ 63) eqn:H2; [reflexivity | apply Z.ltb_ge in H2; lia]. }
  split; reflexivity.
Qed.

(** ** Bytes, hexadecimal text and big-endian numbers *)

Lemma fromHexChar_hex_digit (d : Z) : 0 <= d < 16 -> fromHexChar (hex_digit d) = Some d.
Proof.
  intros Hd.
  assert (d = 0 \/ d = 1 \/ d = 2 \/ d = 3 \/ d = 4 \/ d = 5 \/ d = 6 \/ d = 7 \/ d = 8
          \/ d = 9 \/ d = 10 \/ d = 11 \/ d = 12 \/ d = 13 \/ d = 14 \/ d = 15) as Hcases by lia.
  repeat (destruct Hcases as [-> | Hcases]; [reflexivity |]).
  subst d. reflexivity.
Qed.

Lemma hex_DecodeString_EncodeToString (bs : list Z) :
  Forall is_byte bs -> hex_DecodeString (hex_EncodeToString bs) = Ok bs.
Proof.
  induction 1 as [| b bs Hb _ IH]; [reflexivity |].
  unfold is_byte in Hb. cbn [hex_EncodeToString hex_DecodeString].
  rewrite !fromHexChar_hex_digit.
  - rewrite IH. cbn [bind]. do 2 f_equal. rewrite (Z.div_mod b 16) at 3 by lia. lia.
  - apply Z.mod_pos_bound. lia.
  - split; [apply Z.div_pos; lia | apply Z.div_lt_upper_bound; lia].
Qed.

Lemma length_hex_EncodeToString (bs : list Z) :
  String.length (hex_EncodeToString bs) = (2 * length bs)%nat.
Proof. induction bs as [| b bs IH]; cbn [hex_EncodeToString String.length length]; lia. Qed.

Lemma AddressToBytes_hexutil_Encode (bs : list Z) :
  Forall is_byte bs -> AddressToBytes (hexutil_Encode bs) = Ok bs.
Proof.
  intros H. unfold AddressToBytes.
  change (strings_TrimPrefix (hexutil_Encode bs) "0x") with (hex_EncodeToString bs).
  by apply hex_DecodeString_EncodeToString.
Qed.

Lemma fromHexChar_lower (c : ascii) (x : Z) :
  fromHexChar c = Some x -> 0 <= x < 16 /\ hex_digit x = to_lower_char c.
Proof.
  destruct c as [b0 b1 b2 b3 b4 b5 b6 b7].
  destruct b0, b1, b2, b3, b4, b5, b6, b7; vm_compute; intros H;
    first [discriminate H | injection H as <-; repeat split; congruence].
Qed.

Lemma hex_DecodeString_even (n : nat) (body : string) :
  String.length body = (2 * n)%nat ->
  forallb is_hex_char (list_ascii_of_string body) = true ->
  exists raw, hex_DecodeString body = Ok raw /\ length raw = n /\ Forall is_byte raw
              /\ hex_EncodeToString raw = strings_ToLower body.
Proof.
  revert body. induction n as [| n IH]; intros body Hlen Hhex.
  - destruct body; [| discriminate]. exists []. by repeat split.
  - destruct body as [| a [| b body]]; cbn [String.length] in Hlen; try lia.
    cbn in Hhex. apply andb_prop in Hhex as [Ha Hhex]. apply andb_prop in Hhex as [Hb Hhex].
    unfold is_hex_char in Ha, Hb.
    destruct (fromHexChar a) as [x|] eqn:Hx; [| discriminate].
    destruct (fromHexChar b) as [y|] eqn:Hy; [| discriminate].
    destruct (IH body) as (raw & Hraw & Hl & Hbytes & Henc); [lia | done |].
    destruct (fromHexChar_lower _ _ Hx) as [Hxr Hxl].
    destruct (fromHexChar_lower _ _ Hy) as [Hyr Hyl].
    exists (16 * x + y :: raw). cbn [hex_DecodeString]. rewrite Hx, Hy, Hraw. cbn [bind length hex_EncodeToString strings_ToLower].
    assert ((16 * x + y) / 16 = x) as -> by (symmetry; apply (Z.div_unique _ 16 x y); lia).
    assert ((16 * x + y) mod 16 = y) as -> by (symmetry; apply (Z.mod_unique _ 16 x y); lia).
    repeat split; try lia; try congruence.
    constructor; [unfold is_byte; lia | done].
Qed.

Lemma be_bytes_snoc (k : nat) (n : Z) :
  be_bytes (S k) n = be_bytes k (n / 256) ++ [n mod 256].
Proof.
  induction k as [| k IH].
  - cbn. by rewrite Z.div_1_r.
  - change (be_bytes (S (S k)) n) with ((n / 256 ^ Z.of_nat (S k)) mod 256 :: be_bytes (S k) n).
    rewrite IH. cbn [be_bytes app]. f_equal.
    rewrite Z.div_div by lia. do 2 f_equal.
    rewrite Nat2Z.inj_succ, Z.pow_succ_r by lia. reflexivity.
Qed.

Lemma length_be_bytes (k : nat) (n : Z) : length (be_bytes k n) = k.
Proof. induction k as [| k IH]; cbn; [done | by rewrite IH]. Qed.

Lemma be_bytes_is_byte (k : nat) (n : Z) : Forall is_byte (be_bytes k n).
Proof.
  induction k as [| k IH]; cbn; constructor; [| done].
  unfold is_byte. apply Z.mod_pos_bound. lia.
Qed.

Lemma be_value_snoc (bs : list Z) (b : Z) : be_value (bs ++ [b]) = 256 * be_value bs + b.
Proof. unfold be_value. by rewrite fold_left_app. Qed.

Lemma be_value_be_bytes (k : nat) (n : Z) :
  0 <= n < 256 ^ Z.of_nat k -> be_value (be_bytes k n) = n.
Proof.
  revert n. induction k as [| k IH]; intros n Hn.
  - cbn in *. lia.
  - rewrite be_bytes_snoc, be_value_snoc, IH.
    + pose proof (Z.div_mod n 256). lia.
    + rewrite Nat2Z.inj_succ, Z.pow_succ_r in Hn by lia.
      split; [apply Z.div_pos; lia | apply Z.div_lt_upper_bound; lia].
Qed.

(** The loop of [ActionHash] writes the big-endian bytes of its argument. *)
Lemma put_big_endian_be_bytes (i : nat) (bytes : list Z) (v : Z) :
  (i <= length bytes)%nat -> put_big_endian i bytes v = be_bytes i v ++ drop i bytes.
Proof.
  revert bytes v. induction i as [| i IH]; intros bytes v Hi.
  - cbn. by rewrite drop_0.
  - cbn [put_big_endian]. rewrite IH by (rewrite length_insert; lia).
    rewrite be_bytes_snoc, <- app_assoc. cbn [app].
    rewrite Z.shiftr_div_pow2 by lia. change (2 ^ 8) with 256.
    change 255 with (Z.ones 8). rewrite Z.land_ones by lia. change (2 ^ 8) with 256.
    f_equal.
    destruct (lookup_lt_is_Some_2 bytes i) as [b Hb]; [lia |].
    rewrite (drop_S (<[i:=v mod 256]> bytes) (v mod 256) i)
      by (apply list_lookup_insert_eq; lia).
    f_equal. rewrite drop_insert_lt by lia. reflexivity.
Qed.

Lemma put_big_endian_8 (v : Z) : put_big_endian 8 (replicate 8 0) v = be_bytes 8 v.
Proof. rewrite put_big_endian_be_bytes by (cbn; lia). cbn [drop replicate]. by rewrite app_nil_r. Qed.

Lemma length_sha3_Keccak256 (msg : list Z) : length (sha3_Keccak256 msg) = 32%nat.
Proof. reflexivity. Qed.

Lemma is_address_AddressToBytes (v : string) :
  is_address v = true ->
  exists raw, AddressToBytes v = Ok raw /\ length raw = 20%nat /\ Forall is_byte raw
              /\ hexutil_Encode raw = strings_ToLower v.
Proof.
  unfold is_address, AddressToBytes, strings_TrimPrefix. intros Hv.
  destruct v as [| c0 v]; [discriminate |].
  cbn [strip_prefix] in *.
  destruct (Ascii.eqb c0 "0") eqn:H0; [| discriminate].
  destruct v as [| c1 body]; [discriminate |].
  destruct (Ascii.eqb c1 "x") eqn:H1; [| discriminate].
  apply Ascii.eqb_eq in H0 as ->. apply Ascii.eqb_eq in H1 as ->.
  apply andb_prop in Hv as [Hlen Hhex]. apply Nat.eqb_eq in Hlen.
  destruct (hex_DecodeString_even 20 body) as (raw & Hraw & Hl & Hbytes & Henc); [done | done |].
  exists raw. cbn [default]. repeat split; try done.
  change (hexutil_Encode raw) with (String "0" (String "x" (hex_EncodeToString raw))).
  rewrite Henc. reflexivity.
Qed.

(** ** ActionHasher *)

(** C2.  The stream that [ActionHash] hashes is the serialized action, the
    nonce as eight big-endian bytes, then the byte 0 when there is no vault
    address or the byte 1 and the twenty bytes of the address when there is
    one, then, only when an expiry is set, the byte 0 and the expiry as eight
    big-endian bytes; the result is the Keccak-256 digest of that stream. *)
Theorem ActionHash_framing (range_order : list string -> list string) (action : Value)
    (vaultAddress : option string) (nonce : Z) (expiresAfter : option Z) :
  0 <= nonce < 2 ^ 64 ->
  (forall e, expiresAfter = Some e -> 0 <= e < 2 ^ 64) ->
  (forall v, vaultAddress = Some v -> is_address v = true) ->
  exists vault_part : list Z,
    ActionHash range_order action vaultAddress nonce expiresAfter
    = Ok (sha3_Keccak256
            (msgpack_Marshal range_order action
               ++ be_bytes 8 nonce
               ++ vault_part
               ++ match expiresAfter with
                  | Some e => 0x00 :: be_bytes 8 e
                  | None => []
                  end))
    /\ length (be_bytes 8 nonce) = 8%nat
    /\ be_value (be_bytes 8 nonce) = nonce
    /\ (forall e, expiresAfter = Some e ->
          length (be_bytes 8 e) = 8%nat /\ be_value (be_bytes 8 e) = e)
    /\ match vaultAddress with
       | None => vault_part = [0x00]
       | Some v =>
           exists raw, vault_part = 0x01 :: raw /\ length raw = 20%nat
                       /\ Forall is_byte raw /\ hexutil_Encode raw = strings_ToLower v
       end.
Proof.
  intros Hnonce Hexp Hvault. unfold ActionHash. rewrite put_big_endian_8.
  assert (forall n, 0 <= n < 2 ^ 64 -> be_value (be_bytes 8 n) = n) as Hval
    by (intros n Hn; apply be_value_be_bytes; exact Hn).
  destruct vaultAddress as [v |].
  - destruct (is_address_AddressToBytes v (Hvault v eq_refl)) as (raw & Hraw & Hl & Hb & Henc).
    exists (0x01 :: raw). rewrite Hraw. cbn [bind].
    split; [| repeat split; eauto using length_be_bytes].
    destruct expiresAfter as [e |]; [rewrite put_big_endian_8 |]; do 2 f_equal;
      rewrite <- ?app_assoc; cbn [app]; rewrite ?app_nil_r; reflexivity.
  - exists [0x00]. cbn [bind].
    split; [| repeat split; eauto using length_be_bytes].
    destruct expiresAfter as [e |]; [rewrite put_big_endian_8 |]; do 2 f_equal;
      rewrite <- ?app_assoc; cbn [app]; rewrite ?app_nil_r; reflexivity.
Qed.

(** The order action without orders. *)
Definition empty_order_action : Value := VMap (OrderWiresToOrderAction [] None).

(** C1, on the code.  [ActionHash] serializes a map in the order in which
    [range] visits it, which Go does not fix: for the order action two runs
    that visit the keys in different orders return different 32-byte
    hashes. *)
Theorem ActionHash_depends_on_range_order :
  exists (order1 order2 : list string -> list string) (h1 h2 : list Z),
    (forall keys, order1 keys ≡ₚ keys)
    /\ (forall keys, order2 keys ≡ₚ keys)
    /\ ActionHash order1 empty_order_action None 12345 None = Ok h1
    /\ ActionHash order2 empty_order_action None 12345 None = Ok h2
    /\ length h1 = 32%nat /\ length h2 = 32%nat
    /\ h1 <> h2.
Proof.
  exists (fun keys => keys), (rotate 2).
  eexists. eexists.
  split; [done |].
  split; [intros keys; unfold rotate; by rewrite Permutation_app_comm, take_drop |].
  split; [vm_compute; reflexivity |].
  split; [vm_compute; reflexivity |].
  split; [reflexivity |]. split; [reflexivity |].
  discriminate.
Qed.

(** ** AgentBuilder *)

(** C7.  The phantom agent has the source [a] on mainnet and [b] on testnet,
    and its connection id is [0x] followed by the hexadecimal text of exactly
    the bytes of the hash; [L1Payload] wraps it in typed data with the domain
    of the exchange and the primary type [Agent]. *)
Theorem ConstructPhantomAgent_L1Payload (hash : list Z) (isMainnet : bool) :
  Forall is_byte hash ->
  let agent := ConstructPhantomAgent hash isMainnet in
  let data := L1Payload agent in
  pa_Source agent = (if isMainnet then "a" else "b")%string
  /\ pa_ConnectionID agent = String "0" (String "x" (hex_EncodeToString hash))
  /\ String.length (pa_ConnectionID agent) = (2 + 2 * length hash)%nat
  /\ AddressToBytes (pa_ConnectionID agent) = Ok hash
  /\ td_Domain data
     = {| dom_Name := "Exchange"; dom_Version := "1"; dom_ChainId := Some 1337;
          dom_VerifyingContract := "0x0000000000000000000000000000000000000000";
          dom_Salt := "" |}
  /\ AddressToBytes (dom_VerifyingContract (td_Domain data)) = Ok (replicate 20 0)
  /\ td_PrimaryType data = "Agent"%string
  /\ td_Types data !! "Agent"
     = Some [ {| ty_Name := "source"; ty_Type := "string" |};
              {| ty_Name := "connectionId"; ty_Type := "bytes32" |} ]
  /\ td_Message data !! "source" = Some (VString (pa_Source agent))
  /\ td_Message data !! "connectionId" = Some (VString (pa_ConnectionID agent)).
Proof.
  intros Hhash agent data. subst agent data.
  unfold ConstructPhantomAgent, L1Payload. cbn [pa_Source pa_ConnectionID td_Domain
    td_PrimaryType td_Types td_Message dom_VerifyingContract].
  repeat split; try reflexivity.
  - change (hexutil_Encode hash) with (String "0" (String "x" (hex_EncodeToString hash))).
    cbn [String.length]. rewrite length_hex_EncodeToString. lia.
  - by apply AddressToBytes_hexutil_Encode.
Qed.

(** ** WireModel *)

(** An order type with both variants. *)
Definition limit_and_trigger : OrderType :=
  {| ot_Limit := Some {| lim_TIF := TIFGtc |};
     ot_Trigger := Some {| trg_TriggerPx := f64_lit 1005 1; trg_IsMarket := true;
                           trg_TPSL := TPSLTp |} |}.

(** C4, as stated, fails: with both variants present [OrderTypeToWire] returns
    the wire form of the limit variant and no error. *)
Lemma OrderTypeToWire_both_present :
  ot_Limit limit_and_trigger <> None
  /\ ot_Trigger limit_and_trigger <> None
  /\ OrderTypeToWire limit_and_trigger
     = Ok {| otw_Limit := Some {| lim_TIF := TIFGtc |}; otw_Trigger := None |}
  /\ ~ (exists e, OrderTypeToWire limit_and_trigger = Err e).
Proof.
  repeat split; try discriminate.
  intros [e He]. discriminate He.
Qed.

(** C4, amended.  [OrderTypeToWire] fails with a schema error when neither
    variant is present; when the limit variant is present, with or without a
    trigger, it returns the limit wire form; when only the trigger variant is
    present it returns the trigger wire form with the trigger price encoded by
    [FloatToWire], or the error of [FloatToWire]. *)
Theorem OrderTypeToWire_cases (orderType : OrderType) :
  (ot_Limit orderType = None -> ot_Trigger orderType = None ->
     OrderTypeToWire orderType = Err ErrInvalidOrderType
     /\ kind_of ErrInvalidOrderType = SchemaError)
  /\ (forall limit, ot_Limit orderType = Some limit ->
        OrderTypeToWire orderType = Ok {| otw_Limit := Some limit; otw_Trigger := None |})
  /\ (forall trigger, ot_Limit orderType = None -> ot_Trigger orderType = Some trigger ->
        match FloatToWire (trg_TriggerPx trigger) with
        | Ok px =>
            OrderTypeToWire orderType
            = Ok {| otw_Limit := None;
                    otw_Trigger := Some {| trw_TriggerPx := px;
                                           trw_IsMarket := trg_IsMarket trigger;
                                           trw_TPSL := trg_TPSL trigger |} |}
        | Err e => OrderTypeToWire orderType = Err e
        end).
Proof.
  unfold OrderTypeToWire. split; [| split].
  - intros -> ->. split; reflexivity.
  - intros limit ->. reflexivity.
  - intros trigger -> ->. destruct (FloatToWire (trg_TriggerPx trigger)); reflexivity.
Qed.

(** C10.  The action that [OrderWiresToOrderAction] builds has the type
    [order], holds exactly the given wires, always has the grouping [na] (never
    [normalTpsl] nor [positionTpsl]), and has a [builder] entry exactly when a
    builder was given, holding that string. *)
Theorem OrderWiresToOrderAction_entries (orderWires : list OrderWire) (builder : option string) :
  let action := OrderWiresToOrderAction orderWires builder in
  action !! "type" = Some (VString "order")
  /\ action !! "orders" = Some (VOrderWires orderWires)
  /\ action !! "grouping" = Some (VString GroupingNA)
  /\ action !! "grouping" <> Some (VString GroupingNormalTpsl)
  /\ action !! "grouping" <> Some (VString GroupingPositionTpsl)
  /\ action !! "builder" = VString <$> builder
  /\ (is_Some (action !! "builder") <-> is_Some builder)
  /\ (forall k, is_Some (action !! k) ->
        k = "type"%string \/ k = "orders"%string \/ k = "grouping"%string
        \/ (k = "builder"%string /\ is_Some builder)).
Proof.
  unfold OrderWiresToOrderAction, GroupingNA, GroupingNormalTpsl, GroupingPositionTpsl.
  destruct builder as [b|]; simpl; repeat split; simplify_map_eq; try done;
    try (intros [? ?]; done); eauto.
  - intros k [v Hk].
    destruct (decide (k = "builder"%string)) as [->|]; [right; right; right; eauto|].
    destruct (decide (k = "grouping"%string)) as [->|]; [eauto|].
    destruct (decide (k = "orders"%string)) as [->|]; [eauto|].
    destruct (decide (k = "type"%string)) as [->|]; [eauto|].
    simplify_map_eq.
  - intros k [v Hk].
    destruct (decide (k = "grouping"%string)) as [->|]; [eauto|].
    destruct (decide (k = "orders"%string)) as [->|]; [eauto|].
    destruct (decide (k = "type"%string)) as [->|]; [eauto|].
    simplify_map_eq.
Qed.

(** ** TypedDataBuilder and Signer *)

Section SignerProperties.

Context `{Crypto}.

Variable range_order : list string -> list string.

Lemma SignUserSignedAction_unfold (privateKey : PrivateKey) (action : nat)
    (payloadTypes : list apitypes_Type) (primaryType : string) (isMainnet : bool)
    (σ : Store) (m : gmap string Value) :
  σ !! action = Some m ->
  SignUserSignedAction privateKey action payloadTypes primaryType isMainnet σ
  = Some (<[action := with_chain_fields isMainnet m]> σ,
          bind (UserSignedPayload primaryType payloadTypes (with_chain_fields isMainnet m))
            (SignInner privateKey)).
Proof.
  intros Hm. unfold SignUserSignedAction, map_assign, with_chain_fields.
  rewrite Hm. cbn [mbind option_bind].
  destruct isMainnet; rewrite lookup_insert_eq; cbn [mbind option_bind];
    rewrite insert_insert_eq, lookup_insert_eq; reflexivity.
Qed.

(** C5.  [SignUserSignedAction] puts [signatureChainId] (the fixed
    [0x66eee]) and [hyperliquidChain] ([Mainnet] or [Testnet]) into the
    message before it is hashed; the domain is the fixed one, with the chain
    id parsed from [signatureChainId]; and [UserSignedPayload] fails with a
    schema error on a map without a parseable [signatureChainId]. *)
Theorem SignUserSignedAction_typed_data (privateKey : PrivateKey) (action : nat)
    (payloadTypes : list apitypes_Type) (primaryType : string) (isMainnet : bool)
    (σ : Store) (m : gmap string Value) :
  σ !! action = Some m ->
  let message := with_chain_fields isMainnet m in
  let data :=
    {| td_Types :=
         <[primaryType := payloadTypes]> (<["EIP712Domain" := EIP712Domain_types]> ∅);
       td_PrimaryType := primaryType;
       td_Domain :=
         {| dom_Name := "HyperliquidSignTransaction"; dom_Version := "1";
            dom_ChainId := Some 0x66eee;
            dom_VerifyingContract := "0x0000000000000000000000000000000000000000";
            dom_Salt := "" |};
       td_Message := message |} in
  SignUserSignedAction privateKey action payloadTypes primaryType isMainnet σ
  = Some (<[action := message]> σ, SignInner privateKey data)
  /\ message !! "signatureChainId" = Some (VString "0x66eee")
  /\ message !! "hyperliquidChain" = Some (VString (if isMainnet then "Mainnet" else "Testnet"))
  /\ (forall k, k <> "signatureChainId"%string -> k <> "hyperliquidChain"%string ->
        message !! k = m !! k)
  /\ strconv_ParseInt "0x66eee" = Ok 0x66eee
  /\ (forall (act : gmap string Value) s c,
        act !! "signatureChainId" = Some (VString s) -> strconv_ParseInt s = Ok c ->
        UserSignedPayload primaryType payloadTypes act
        = Ok {| td_Types :=
                  <[primaryType := payloadTypes]> (<["EIP712Domain" := EIP712Domain_types]> ∅);
                td_PrimaryType := primaryType;
                td_Domain :=
                  {| dom_Name := "HyperliquidSignTransaction"; dom_Version := "1";
                     dom_ChainId := Some c;
                     dom_VerifyingContract := "0x0000000000000000000000000000000000000000";
                     dom_Salt := "" |};
                td_Message := act |})
  /\ (forall (act : gmap string Value),
        (forall s c, act !! "signatureChainId" = Some (VString s) -> strconv_ParseInt s <> Ok c) ->
        exists e, UserSignedPayload primaryType payloadTypes act = Err e
                  /\ kind_of e = SchemaError).
Proof.
  intros Hm message data.
  assert (UserSignedPayload primaryType payloadTypes message = Ok data) as Hdata.
  { unfold UserSignedPayload, message, with_chain_fields.
    rewrite lookup_insert_ne by done. rewrite lookup_insert_eq. reflexivity. }
  split; [rewrite (SignUserSignedAction_unfold _ _ _ _ _ _ _ Hm); fold message;
          rewrite Hdata; reflexivity |].
  split; [unfold message, with_chain_fields; rewrite lookup_insert_ne by done;
          apply lookup_insert_eq |].
  split; [apply lookup_insert_eq |].
  split; [intros k H1 H2; unfold message, with_chain_fields;
          rewrite !lookup_insert_ne by done; reflexivity |].
  split; [reflexivity |].
  split.
  - intros act s c Hs Hc. unfold UserSignedPayload. rewrite Hs, Hc. reflexivity.
  - intros act Hact. unfold UserSignedPayload.
    destruct (act !! "signatureChainId") as [[| | | | s | | |] |] eqn:Hs;
      try (exists ErrSignatureChainId; split; reflexivity).
    destruct (strconv_ParseInt s) as [c | e] eqn:Hc.
    + exfalso. exact (Hact s c eq_refl Hc).
    + exists e. split; [reflexivity |].
      unfold strconv_ParseInt in Hc.
      repeat (match type of Hc with
              | context [match ?x with _ => _ end] => destruct x
              end; try discriminate Hc); injection Hc as <-; reflexivity.
Qed.

(** C6.  [SignInner] signs the Keccak-256 digest of [0x19 0x01], the struct
    hash of the domain and the struct hash of the message; it returns the
    first 32 bytes of the signature as [r] and the next 32 as [s], both in
    hexadecimal, and [v] is the recovery id plus 27: 27 or 28. *)
Theorem SignInner_signature (privateKey : PrivateKey) (data : TypedData)
    (domainSeparator typedDataHash signature : list Z) :
  HashStruct data "EIP712Domain" (TypedDataDomain_Map (td_Domain data)) = Ok domainSeparator ->
  HashStruct data (td_PrimaryType data) (td_Message data) = Ok typedDataHash ->
  crypto_Sign (sha3_Keccak256 (0x19 :: 0x01 :: domainSeparator ++ typedDataHash)) privateKey
  = Ok signature ->
  length signature = 65%nat ->
  Forall is_byte signature ->
  nth 64 signature 0 = 0 \/ nth 64 signature 0 = 1 ->
  exists sig,
    SignInner privateKey data = Ok sig
    /\ sig_R sig = hexutil_Encode (firstn 32 signature)
    /\ sig_S sig = hexutil_Encode (firstn 32 (skipn 32 signature))
    /\ sig_V sig = nth 64 signature 0 + 27
    /\ (sig_V sig = 27 \/ sig_V sig = 28)
    /\ String.length (sig_R sig) = 66%nat
    /\ String.length (sig_S sig) = 66%nat
    /\ AddressToBytes (sig_R sig) = Ok (firstn 32 signature)
    /\ AddressToBytes (sig_S sig) = Ok (firstn 32 (skipn 32 signature))
    /\ length (firstn 32 signature) = 32%nat
    /\ length (firstn 32 (skipn 32 signature)) = 32%nat.
Proof.
  intros Hdom Hmsg Hsign Hlen Hbytes Hv.
  unfold SignInner. rewrite Hdom, Hmsg. cbn [bind app]. rewrite Hsign. cbn [bind].
  eexists. split; [reflexivity |]. cbn [sig_R sig_S sig_V].
  assert (length (firstn 32 signature) = 32%nat) as Hr by (rewrite length_take; lia).
  assert (length (firstn 32 (skipn 32 signature)) = 32%nat) as Hs
    by (rewrite length_take, length_drop; lia).
  assert (forall bs, length bs = 32%nat -> String.length (hexutil_Encode bs) = 66%nat) as Hhex.
  { intros bs Hbs.
    change (hexutil_Encode bs) with (String "0" (String "x" (hex_EncodeToString bs))).
    cbn [String.length]. rewrite length_hex_EncodeToString. lia. }
  repeat split; auto.
  - destruct Hv as [-> | ->]; reflexivity.
  - destruct Hv as [-> | ->]; [left | right]; reflexivity.
  - apply AddressToBytes_hexutil_Encode. by apply Forall_take.
  - apply AddressToBytes_hexutil_Encode. by apply Forall_take, Forall_drop.
Qed.

(** C9, amended.  [SignL1Action] leaves the maps of its caller as they are.
    [SignUserSignedAction] assigns to two entries of the action map of its
    caller, [signatureChainId] and [hyperliquidChain], and leaves every other
    entry of that map and every other map as they are. *)
Theorem signing_store_effect (privateKey : PrivateKey) (action : nat) (σ : Store)
    (m : gmap string Value) :
  σ !! action = Some m ->
  (forall activePool nonce expiresAfter isMainnet,
     fst (SignL1Action_map range_order privateKey action activePool nonce expiresAfter isMainnet σ) = σ)
  /\ (forall payloadTypes primaryType isMainnet,
        exists σ' r m',
          SignUserSignedAction privateKey action payloadTypes primaryType isMainnet σ
          = Some (σ', r)
          /\ (forall other, other <> action -> σ' !! other = σ !! other)
          /\ σ' !! action = Some m'
          /\ m' !! "signatureChainId" = Some (VString "0x66eee")
          /\ m' !! "hyperliquidChain"
             = Some (VString (if isMainnet then "Mainnet" else "Testnet"))
          /\ (forall k, k <> "signatureChainId"%string -> k <> "hyperliquidChain"%string ->
                m' !! k = m !! k)).
Proof.
  intros Hm. split; [reflexivity |].
  intros payloadTypes primaryType isMainnet.
  rewrite (SignUserSignedAction_unfold _ _ _ _ _ _ _ Hm).
  eexists _, _, (with_chain_fields isMainnet m).
  split; [reflexivity |].
  split; [intros other Hne; by rewrite lookup_insert_ne |].
  split; [apply lookup_insert_eq |].
  unfold with_chain_fields.
  split; [rewrite lookup_insert_ne by done; apply lookup_insert_eq |].
  split; [apply lookup_insert_eq |].
  intros k H1 H2. rewrite !lookup_insert_ne by done. reflexivity.
Qed.

End SignerProperties.

(** C9, as stated, fails: after [SignUSDTransferAction] the transfer action
    that the caller holds has an entry [signatureChainId] that it did not have
    before the call. *)
Lemma SignUserSignedAction_mutates_action :
  let σ : Store := {[ 0%nat := transfer_action ]} in
  exists (σ' : Store) r m',
    @SignUSDTransferAction example_crypto tt 0%nat false σ = Some (σ', r)
    /\ σ !! 0%nat = Some transfer_action
    /\ σ' !! 0%nat = Some m'
    /\ transfer_action !! "signatureChainId" = None
    /\ m' !! "signatureChainId" = Some (VString "0x66eee")
    /\ m' <> transfer_action.
Proof.
  intros σ. unfold SignUSDTransferAction.
  rewrite (@SignUserSignedAction_unfold example_crypto tt 0%nat _ _ false σ transfer_action)
    by apply lookup_singleton_eq.
  eexists _, _, _. split; [reflexivity |].
  split; [apply lookup_singleton_eq |].
  split; [apply lookup_insert_eq |].
  split; [reflexivity |].
  split; [reflexivity |].
  intros Heq. apply (f_equal (fun m : gmap string Value => m !! "signatureChainId")) in Heq.
  discriminate Heq.
Qed.

(** ** Instances of the theorems *)

Lemma ActionHash_framing_instance :
  exists vault_part : list Z,
    ActionHash (fun keys => keys) empty_order_action (Some example_vault) 12345
      (Some 1700000000000)
    = Ok (sha3_Keccak256
            (msgpack_Marshal (fun keys => keys) empty_order_action
               ++ be_bytes 8 12345 ++ vault_part ++ 0x00 :: be_bytes 8 1700000000000))
    /\ length (be_bytes 8 12345) = 8%nat
    /\ be_value (be_bytes 8 12345) = 12345
    /\ (forall e, Some 1700000000000 = Some e ->
          length (be_bytes 8 e) = 8%nat /\ be_value (be_bytes 8 e) = e)
    /\ exists raw, vault_part = 0x01 :: raw /\ length raw = 20%nat
                   /\ Forall is_byte raw /\ hexutil_Encode raw = strings_ToLower example_vault.
Proof.
  apply (ActionHash_framing (fun keys => keys) empty_order_action (Some example_vault) 12345
           (Some 1700000000000)).
  - lia.
  - intros e [= <-]. lia.
  - intros v [= <-]. reflexivity.
Defined.

Lemma FloatToWire_rounds_and_trims_instance :
  let x := f64_lit 15 1 in
  FloatToWire x = Ok "1.5"%string
  /\ forall str, FloatToWire x = Ok str ->
       str = trimmed_of (fmt_Sprintf_8f x) /\ canonical_decimal str = true.
Proof.
  intros x. split; [reflexivity |].
  apply (FloatToWire_rounds_and_trims x); reflexivity.
Defined.

Lemma FloatToInt_rounds_instance :
  FloatToInt (fun _ => - 2 ^ 63) (f64_lit 100123456 6) 6 = Ok 100123456
  /\ f64_integer_value (math_Pow10 6) = Some (10 ^ 6).
Proof.
  pose proof (FloatToInt_rounds (fun _ => - 2 ^ 63) (f64_lit 100123456 6) 6) as H.
  cbv zeta in H. split; [apply H | apply H; lia].
Defined.

Lemma ConstructPhantomAgent_L1Payload_instance :
  pa_Source (ConstructPhantomAgent [1; 2; 3; 4] true) = "a"%string
  /\ pa_ConnectionID (ConstructPhantomAgent [1; 2; 3; 4] true) = "0x01020304"%string
  /\ AddressToBytes (pa_ConnectionID (ConstructPhantomAgent [1; 2; 3; 4] true)) = Ok [1; 2; 3; 4].
Proof.
  assert (Forall is_byte [1; 2; 3; 4]) as Hbytes
    by (repeat constructor; unfold is_byte; lia).
  pose proof (ConstructPhantomAgent_L1Payload [1; 2; 3; 4] true Hbytes) as H.
  cbv zeta in H. destruct H as (H1 & H2 & _ & H4 & _).
  split; [exact H1 |]. split; [exact H2 | exact H4].
Defined.

Lemma SignUserSignedAction_typed_data_instance :
  exists data,
    @SignUserSignedAction example_crypto tt 0%nat USDSendSignTypes
      "HyperliquidTransaction:UsdSend" false {[ 0%nat := transfer_action ]}
    = Some (<[0%nat := with_chain_fields false transfer_action]> {[ 0%nat := transfer_action ]},
            @SignInner example_crypto tt data)
    /\ td_Message data !! "signatureChainId" = Some (VString "0x66eee")
    /\ td_Message data !! "hyperliquidChain" = Some (VString "Testnet")
    /\ dom_ChainId (td_Domain data) = Some 421614.
Proof.
  pose proof (@SignUserSignedAction_typed_data example_crypto tt 0%nat USDSendSignTypes
                "HyperliquidTransaction:UsdSend" false {[ 0%nat := transfer_action ]}
                transfer_action (lookup_singleton_eq _ _)) as H.
  cbv zeta in H. destruct H as (H1 & H2 & H3 & _).
  eexists. split; [exact H1 |]. split; [exact H2 |]. split; [exact H3 | reflexivity].
Defined.

Lemma SignInner_signature_instance :
  exists sig,
    @SignInner example_crypto tt example_data = Ok sig
    /\ sig_V sig = 28
    /\ String.length (sig_R sig) = 66%nat
    /\ String.length (sig_S sig) = 66%nat.
Proof.
  destruct (@SignInner_signature example_crypto tt example_data example_domainSeparator
              example_typedDataHash example_signature)
    as (sig & Hsig & _ & _ & Hv & _ & Hr & Hs & _).
  - reflexivity.
  - reflexivity.
  - reflexivity.
  - reflexivity.
  - repeat constructor; unfold is_byte; lia.
  - right. reflexivity.
  - exists sig. split; [exact Hsig |]. split; [exact Hv |]. split; [exact Hr | exact Hs].
Defined.

Lemma signing_store_effect_instance :
  exists (σ' : Store) r m',
    @SignUserSignedAction example_crypto tt 0%nat USDSendSignTypes
      "HyperliquidTransaction:UsdSend" false {[ 0%nat := transfer_action ]} = Some (σ', r)
    /\ σ' !! 0%nat = Some m'
    /\ m' !! "amount" = transfer_action !! "amount".
Proof.
  destruct (@signing_store_effect example_crypto (fun keys => keys) tt 0%nat
              {[ 0%nat := transfer_action ]} transfer_action (lookup_singleton_eq _ _))
    as [_ H].
  destruct (H USDSendSignTypes "HyperliquidTransaction:UsdSend"%string false)
    as (σ' & r & m' & H1 & _ & H3 & _ & _ & H6).
  exists σ', r, m'. split; [exact H1 |]. split; [exact H3 |]. by apply H6.
Defined.

(** ** The cases of the test suite (tests/signing_test.go) *)

Example TestFloatToWire :
  FloatToWire (f64_lit 15 1) = Ok "1.5"%string
  /\ FloatToWire (S754_zero false) = Ok "0"%string
  /\ FloatToWire (f64_lit 123456789 6) = Ok "123.456789"%string
  /\ FloatToWire (f64_lit 1 8) = Ok "0.00000001"%string
  /\ FloatToWire (f64_lit 1000000 0) = Ok "1000000"%string.
Proof. repeat split; vm_compute; reflexivity. Qed.

(** Values that the codec rejects or normalizes. *)
Example FloatToWire_more :
  FloatToWire (f64_lit 123456789 9) = Err ErrFloatToWireRounding
  /\ FloatToWire (f64_lit 1 9) = Err ErrFloatToWireRounding
  /\ FloatToWire (S754_zero true) = Ok "0"%string
  /\ FloatToWire (f64_lit (-1) 13) = Ok "0"%string
  /\ FloatToWire (f64_lit (-1005) 1) = Ok "-100.5"%string
  /\ FloatToWire (f64_lit 1000001 1) = Ok "100000.1"%string.
Proof. repeat split; vm_compute; reflexivity. Qed.

Example TestFloatToInt (unrepresentable : float64 -> Z) :
  FloatToInt unrepresentable (f64_lit 15 1) 1 = Ok 15
  /\ FloatToInt unrepresentable (f64_lit 100123456 6) 6 = Ok 100123456
  /\ FloatToInt unrepresentable (f64_lit 12345678 8) 8 = Ok 12345678
  /\ FloatToInt unrepresentable (S754_zero false) 8 = Ok 0.
Proof. repeat split; reflexivity. Qed.

(** Beyond 22 decimal places [math.Pow(10, power)] need not be the float64
    nearest to [10^power]: [math.Pow(10, 33)] is the float64 above it, and
    [FloatToInt(4e-15, 33)] is [4000000000000000512]. *)
Example FloatToInt_power_33 (unrepresentable : float64 -> Z) :
  math_Pow10 33 = S754_finite false 6938893903907229 57
  /\ f64_of_ratio false (10 ^ 33) 1 = S754_finite false 6938893903907228 57
  /\ FloatToInt unrepresentable (f64_lit 4 15) 33 = Ok 4000000000000000512.
Proof. repeat split; reflexivity. Qed.

Example TestOrderTypeToWire :
  OrderTypeToWire {| ot_Limit := Some {| lim_TIF := TIFGtc |}; ot_Trigger := None |}
  = Ok {| otw_Limit := Some {| lim_TIF := TIFGtc |}; otw_Trigger := None |}
  /\ OrderTypeToWire
       {| ot_Limit := None;
          ot_Trigger := Some {| trg_TriggerPx := f64_lit 1005 1; trg_IsMarket := true;
                                trg_TPSL := TPSLTp |} |}
     = Ok {| otw_Limit := None;
             otw_Trigger := Some {| trw_TriggerPx := "100.5"; trw_IsMarket := true;
                                    trw_TPSL := TPSLTp |} |}.
Proof. split; vm_compute; reflexivity. Qed.

Example TestOrderRequestToOrderWire :
  OrderRequestToOrderWire
    {| req_Coin := "BTC"; req_IsBuy := true; req_Sz := f64_lit 15 1;
       req_LimitPx := f64_lit 50000 0;
       req_OrderType := {| ot_Limit := Some {| lim_TIF := TIFGtc |}; ot_Trigger := None |};
       req_ReduceOnly := false; req_Cloid := Some "test-cloid"%string |} 0
  = Ok {| ow_A := 0; ow_B := true; ow_P := "50000"; ow_S := "1.5"; ow_R := false;
          ow_T := {| otw_Limit := Some {| lim_TIF := TIFGtc |}; otw_Trigger := None |};
          ow_C := Some "test-cloid"%string |}.
Proof. vm_compute. reflexivity. Qed.

Example TestConstructPhantomAgent :
  ConstructPhantomAgent [1; 2; 3; 4] true
  = {| pa_Source := "a"; pa_ConnectionID := "0x01020304" |}
  /\ ConstructPhantomAgent [1; 2; 3; 4] false
     = {| pa_Source := "b"; pa_ConnectionID := "0x01020304" |}.
Proof. split; reflexivity. Qed.

Example TestActionHash (range_order : list string -> list string) :
  exists hash,
    ActionHash range_order
      (VMap (<["orders" := VSlice []]> (<["type" := VString "order"]> ∅))) None 12345 None
    = Ok hash
    /\ length hash = 32%nat.
Proof. eexists. split; reflexivity. Qed.

(** The digests of the empty text and of [abc]. *)
Example sha3_Keccak256_vectors :
  hex_EncodeToString (sha3_Keccak256 [])
  = "c5d2460186f7233c927e7db2dcc703c0e500b653ca82273b7bfad8045d85a470"%string
  /\ hex_EncodeToString (sha3_Keccak256 (bytes_of_string "abc"))
     = "4e03657aea45a94fc7d47ba826c8d667c0d1e6e33a64a036ec44f58fa12d6c45"%string.
Proof. split; vm_compute; reflexivity. Qed.

(** * Properties of the code around the claims *)

(** ** NumericCodec: values that are not finite *)

(** X1.  [FloatToWire] does not reject a value that is not finite: for an
    infinity or a NaN the test of the difference passes and the result is the
    text [+Inf], [-Inf] or [NaN], which is not a canonical decimal. *)
Theorem FloatToWire_not_finite (x : float64) :
  is_finite x = false ->
  FloatToWire x = Ok (fmt_Sprintf_8f x)
  /\ (fmt_Sprintf_8f x = "+Inf" \/ fmt_Sprintf_8f x = "-Inf" \/ fmt_Sprintf_8f x = "NaN")%string
  /\ canonical_decimal (fmt_Sprintf_8f x) = false.
Proof.
  intros Hfin. destruct x as [s | s | | s m e]; try discriminate Hfin.
  - destruct s; (split; [by vm_compute | split; [auto | by vm_compute]]).
  - split; [by vm_compute | split; [auto | by vm_compute]].
Qed.

Lemma FloatToWire_not_finite_instance :
  is_finite S754_nan = false /\ FloatToWire S754_nan = Ok "NaN"%string.
Proof. split; [reflexivity | apply (FloatToWire_not_finite S754_nan); reflexivity]. Defined.

Lemma f64_mul_not_finite (x y : float64) :
  is_finite x = false -> is_finite (f64_mul x y) = false.
Proof.
  intros Hfin. destruct x as [s | s | | s m e]; try discriminate Hfin;
    destruct y as [s' | s' | | s' m' e']; reflexivity.
Qed.

(** X2.  [FloatToInt] does not reject a value that is not finite: the product
    is an infinity or a NaN, its rounding is itself, the test of the
    difference passes, and the result is the conversion of that value to
    [int64], which Go leaves to the implementation. *)
Theorem FloatToInt_not_finite (unrepresentable : float64 -> Z) (x : float64) (power : Z) :
  is_finite x = false ->
  let withDecimals := f64_mul x (math_Pow10 power) in
  is_finite withDecimals = false
  /\ math_Round withDecimals = withDecimals
  /\ FloatToInt unrepresentable x power = Ok (wrap_int64 (unrepresentable withDecimals)).
Proof.
  intros Hfin withDecimals.
  pose proof (f64_mul_not_finite x (math_Pow10 power) Hfin) as Hw. fold withDecimals in Hw.
  unfold FloatToInt. fold withDecimals.
  destruct withDecimals as [s | s | | s m e]; try discriminate Hw.
  - split; [reflexivity | split; [reflexivity |]]. destruct s; reflexivity.
  - split; [reflexivity | split; reflexivity].
Qed.

Lemma FloatToInt_not_finite_instance :
  is_finite S754_nan = false
  /\ FloatToInt (fun _ => - 2 ^ 63) S754_nan 8 = Ok (- 2 ^ 63).
Proof.
  split; [reflexivity |].
  exact (proj2 (proj2 (FloatToInt_not_finite (fun _ => - 2 ^ 63) S754_nan 8 eq_refl))).
Defined.

(** ** WireModel: OrderRequestToOrderWire *)

Lemma FloatToWire_Ok_canonical (x : float64) (str : string) :
  is_finite x = true -> FloatToWire x = Ok str -> canonical_decimal str = true.
Proof.
  intros Hfin. unfold FloatToWire. rewrite (fmt_Sprintf_8f_finite x Hfin).
  destruct (strconv_ParseFloat _) as [p | e]; cbn [bind]; [| discriminate].
  destruct (f64_ge _ _); [discriminate |].
  intros [= <-]. apply (canonical_trimmed_of_fixed8 (f64_sign x) (digits8 x)), digits8_nonneg.
Qed.

(** X3.  [OrderRequestToOrderWire] succeeds exactly when the price, the size
    and the order type convert, and fails with the error of the first of the
    three that does not; the wire copies the asset, the side, the reduce-only
    flag and the cloid, and its price, size and trigger price are canonical
    decimals when the inputs are finite. *)
Theorem OrderRequestToOrderWire_fields (order : OrderRequest) (asset : Z) :
  (forall wire,
     OrderRequestToOrderWire order asset = Ok wire <->
     exists p s t,
       FloatToWire (req_LimitPx order) = Ok p
       /\ FloatToWire (req_Sz order) = Ok s
       /\ OrderTypeToWire (req_OrderType order) = Ok t
       /\ wire = {| ow_A := asset; ow_B := req_IsBuy order; ow_P := p; ow_S := s;
                    ow_R := req_ReduceOnly order; ow_T := t; ow_C := req_Cloid order |})
  /\ (forall e,
        OrderRequestToOrderWire order asset = Err e <->
        FloatToWire (req_LimitPx order) = Err e
        \/ ((exists p, FloatToWire (req_LimitPx order) = Ok p)
            /\ FloatToWire (req_Sz order) = Err e)
        \/ ((exists p, FloatToWire (req_LimitPx order) = Ok p)
            /\ (exists s, FloatToWire (req_Sz order) = Ok s)
            /\ OrderTypeToWire (req_OrderType order) = Err e))
  /\ (forall wire,
        OrderRequestToOrderWire order asset = Ok wire ->
        (is_finite (req_LimitPx order) = true -> canonical_decimal (ow_P wire) = true)
        /\ (is_finite (req_Sz order) = true -> canonical_decimal (ow_S wire) = true)
        /\ (forall tw, otw_Trigger (ow_T wire) = Some tw ->
              otw_Limit (ow_T wire) = None
              /\ exists trigger,
                   ot_Trigger (req_OrderType order) = Some trigger
                   /\ trw_IsMarket tw = trg_IsMarket trigger
                   /\ trw_TPSL tw = trg_TPSL trigger
                   /\ (is_finite (trg_TriggerPx trigger) = true ->
                       canonical_decimal (trw_TriggerPx tw) = true))).
Proof.
  unfold OrderRequestToOrderWire.
  destruct (FloatToWire (req_LimitPx order)) as [p | ep] eqn:Hp; cbn [bind].
  2:{ split; [| split].
      - intros wire. split; [discriminate | intros (? & ? & ? & [=] & _)].
      - intros e. split.
        + intros [= <-]. by left.
        + intros [[= <-] | [[[? [=]] _] | [[? [=]] _]]]. reflexivity.
      - intros wire [=]. }
  destruct (FloatToWire (req_Sz order)) as [s | es] eqn:Hs; cbn [bind].
  2:{ split; [| split].
      - intros wire. split; [discriminate | intros (? & ? & ? & _ & [=] & _)].
      - intros e. split.
        + intros [= <-]. right. left. split; [by exists p | reflexivity].
        + intros [[=] | [[_ [= <-]] | (_ & [? [=]] & _)]]. reflexivity.
      - intros wire [=]. }
  destruct (OrderTypeToWire (req_OrderType order)) as [t | et] eqn:Ht; cbn [bind].
  2:{ split; [| split].
      - intros wire. split; [discriminate | intros (? & ? & ? & _ & _ & [=] & _)].
      - intros e. split.
        + intros [= <-]. right. right. split; [by exists p | split; [by exists s | reflexivity]].
        + intros [[=] | [[_ [=]] | (_ & _ & [= <-])]]. reflexivity.
      - intros wire [=]. }
  split; [| split].
  - intros wire. split.
    + intros [= <-]. by exists p, s, t.
    + intros (p' & s' & t' & [= <-] & [= <-] & [= <-] & ->). reflexivity.
  - intros e. split; [discriminate |].
    intros [[=] | [[_ [=]] | (_ & _ & [=])]].
  - intros wire [= <-]. cbn [ow_P ow_S ow_T].
    split; [intros Hfin; exact (FloatToWire_Ok_canonical _ _ Hfin Hp) |].
    split; [intros Hfin; exact (FloatToWire_Ok_canonical _ _ Hfin Hs) |].
    intros tw Htw. unfold OrderTypeToWire in Ht.
    destruct (ot_Limit (req_OrderType order)) as [limit |].
    { injection Ht as <-. discriminate Htw. }
    destruct (ot_Trigger (req_OrderType order)) as [trigger |]; [| discriminate Ht].
    destruct (FloatToWire (trg_TriggerPx trigger)) as [px | e] eqn:Hpx; cbn [bind] in Ht;
      [| discriminate Ht].
    injection Ht as <-. cbn [otw_Trigger otw_Limit] in Htw |- *. injection Htw as <-.
    split; [reflexivity |]. exists trigger. cbn.
    split; [reflexivity | split; [reflexivity | split; [reflexivity |]]].
    intros Hfin. exact (FloatToWire_Ok_canonical _ _ Hfin Hpx).
Qed.

(** ** AddressToBytes *)

Lemma string_pair_ind (P : string -> Prop) :
  P EmptyString ->
  (forall a, P (String a EmptyString)) ->
  (forall a b s, P s -> P (String a (String b s))) ->
  forall s, P s.
Proof.
  intros H0 H1 H2. fix IH 1. intros [| a [| b s]]; [exact H0 | apply H1 | apply H2, IH].
Qed.

Lemma hex_DecodeString_Err (s : string) (e : error) :
  hex_DecodeString s = Err e -> e = ErrHexDecode.
Proof.
  revert e. induction s as [| a | a b s IH] using string_pair_ind; intros e; cbn [hex_DecodeString].
  - discriminate.
  - by intros [= <-].
  - destruct (fromHexChar a); [| by intros [= <-]].
    destruct (fromHexChar b); [| by intros [= <-]].
    destruct (hex_DecodeString s) as [rest | e']; cbn [bind]; [discriminate |].
    intros [= <-]. by apply IH.
Qed.

Lemma hex_DecodeString_Ok (s : string) (raw : list Z) :
  hex_DecodeString s = Ok raw ->
  String.length s = (2 * length raw)%nat
  /\ forallb is_hex_char (list_ascii_of_string s) = true
  /\ Forall is_byte raw
  /\ hex_EncodeToString raw = strings_ToLower s.
Proof.
  revert raw. induction s as [| a | a b s IH] using string_pair_ind; intros raw;
    cbn [hex_DecodeString].
  - intros [= <-]. by repeat split.
  - discriminate.
  - destruct (fromHexChar a) as [x |] eqn:Hx; [| discriminate].
    destruct (fromHexChar b) as [y |] eqn:Hy; [| discriminate].
    destruct (hex_DecodeString s) as [rest | e']; cbn [bind]; [| discriminate].
    intros [= <-]. destruct (IH rest eq_refl) as (Hlen & Hhex & Hbytes & Henc).
    destruct (fromHexChar_lower _ _ Hx) as [Hxr Hxl].
    destruct (fromHexChar_lower _ _ Hy) as [Hyr Hyl].
    cbn [String.length length list_ascii_of_string forallb hex_EncodeToString strings_ToLower].
    unfold is_hex_char at 1 2. rewrite Hx, Hy, Hhex.
    assert ((16 * x + y) / 16 = x) as -> by (symmetry; apply (Z.div_unique _ 16 x y); lia).
    assert ((16 * x + y) mod 16 = y) as -> by (symmetry; apply (Z.mod_unique _ 16 x y); lia).
    repeat split; try lia; try congruence.
    constructor; [unfold is_byte; lia | done].
Qed.

Lemma hex_DecodeString_accepts (s : string) :
  Nat.even (String.length s) = true ->
  forallb is_hex_char (list_ascii_of_string s) = true ->
  exists raw, hex_DecodeString s = Ok raw.
Proof.
  intros Heven Hhex. apply Nat.even_spec in Heven as [n Hn].
  destruct (hex_DecodeString_even n s Hn Hhex) as (raw & Hraw & _). by exists raw.
Qed.

(** X4.  [AddressToBytes] accepts exactly the texts that, after one leading
    [0x] is removed, are an even number of hexadecimal digits, of any length;
    the bytes spell the text in lower case and convert back to themselves;
    every failure is the decoding error, and the prefix [0X] is refused. *)
Theorem AddressToBytes_accepts (address : string) :
  let body := strings_TrimPrefix address "0x" in
  ((exists raw, AddressToBytes address = Ok raw)
   <-> Nat.even (String.length body) = true
       /\ forallb is_hex_char (list_ascii_of_string body) = true)
  /\ (forall raw, AddressToBytes address = Ok raw ->
        String.length body = (2 * length raw)%nat
        /\ Forall is_byte raw
        /\ hex_EncodeToString raw = strings_ToLower body
        /\ AddressToBytes (hexutil_Encode raw) = Ok raw)
  /\ (forall e, AddressToBytes address = Err e -> e = ErrHexDecode)
  /\ (forall rest, address = String "0" (String "X" rest) ->
        AddressToBytes address = Err ErrHexDecode).
Proof.
  intros body. unfold AddressToBytes. fold body.
  split; [| split; [| split]].
  - split.
    + intros [raw Hraw]. destruct (hex_DecodeString_Ok _ _ Hraw) as (Hlen & Hhex & _).
      split; [| exact Hhex]. apply Nat.even_spec. by exists (length raw).
    + intros [Heven Hhex]. by apply hex_DecodeString_accepts.
  - intros raw Hraw. destruct (hex_DecodeString_Ok _ _ Hraw) as (Hlen & Hhex & Hbytes & Henc).
    repeat split; try done. by apply AddressToBytes_hexutil_Encode.
  - intros e. apply hex_DecodeString_Err.
  - intros rest Heq. subst body address. reflexivity.
Qed.

(** ** ActionHasher: the result *)

Lemma sha3_Keccak256_bytes (msg : list Z) : Forall is_byte (sha3_Keccak256 msg).
Proof.
  unfold sha3_Keccak256. rewrite !Forall_app. unfold le_bytes8.
  repeat split; apply Forall_map, Forall_forall; intros i _; apply Z.mod_pos_bound; lia.
Qed.

Lemma hex_DecodeString_app (a b : string) (ra rb : list Z) :
  hex_DecodeString a = Ok ra -> hex_DecodeString b = Ok rb ->
  hex_DecodeString (a +:+ b) = Ok (ra ++ rb).
Proof.
  revert ra. induction a as [| x | x y a IH] using string_pair_ind; intros ra;
    cbn [hex_DecodeString].
  - intros [= <-] Hb. by rewrite append_nil_l.
  - discriminate.
  - destruct (fromHexChar x) as [u |] eqn:Hu; [| discriminate].
    destruct (fromHexChar y) as [w |] eqn:Hw; [| discriminate].
    destruct (hex_DecodeString a) as [rest | e']; cbn [bind]; [| discriminate].
    intros [= <-] Hb. rewrite !append_cons. cbn [hex_DecodeString].
    rewrite Hu, Hw, (IH rest eq_refl Hb). reflexivity.
Qed.

(** X5.  [ActionHash] does not check that the vault address has twenty bytes:
    the text of an address followed by the byte 0 and eight more bytes is
    accepted as a vault address, and without expiry it gives the hash of the
    address with these eight bytes as expiry. *)
Theorem ActionHash_vault_length_unchecked (range_order : list string -> list string)
    (action : Value) (nonce : Z) (vault : string) (expires : Z) :
  is_address vault = true ->
  0 <= expires < 2 ^ 64 ->
  let long := vault +:+ "00" +:+ hex_EncodeToString (be_bytes 8 expires) in
  String.length long = 60%nat
  /\ (exists raw, AddressToBytes long = Ok raw /\ length raw = 29%nat)
  /\ ActionHash range_order action (Some long) nonce None
     = ActionHash range_order action (Some vault) nonce (Some expires).
Proof.
  intros Hvault Hexp long.
  destruct (is_address_AddressToBytes vault Hvault) as (raw & Hraw & Hl & Hbytes & Henc).
  assert (String.length vault = 42%nat) as Hlen.
  { unfold is_address in Hvault. destruct vault as [| c0 [| c1 body]]; try discriminate.
    cbn [strip_prefix] in Hvault.
    destruct (Ascii.eqb c0 "0"); [| discriminate]. destruct (Ascii.eqb c1 "x"); [| discriminate].
    apply andb_prop in Hvault as [Hlen _]. apply Nat.eqb_eq in Hlen. cbn [String.length]. lia. }
  assert (AddressToBytes long = Ok (raw ++ 0 :: be_bytes 8 expires)) as Hlong.
  { unfold AddressToBytes, strings_TrimPrefix in Hraw |- *. subst long.
    unfold is_address in Hvault. destruct vault as [| c0 [| c1 body]]; try discriminate.
    cbn [strip_prefix] in Hvault, Hraw. rewrite !append_cons. cbn [strip_prefix].
    destruct (Ascii.eqb c0 "0"); [| discriminate]. destruct (Ascii.eqb c1 "x"); [| discriminate].
    cbn [default from_option] in Hraw |- *. unfold id in *.
    apply (hex_DecodeString_app body _ raw (0 :: be_bytes 8 expires) Hraw).
    rewrite ?append_cons, ?append_nil_l.
    change (String "0" (String "0" (hex_EncodeToString (be_bytes 8 expires))))
      with (hex_EncodeToString (0 :: be_bytes 8 expires)).
    apply hex_DecodeString_EncodeToString. constructor; [unfold is_byte; lia |].
    apply be_bytes_is_byte. }
  split; [| split].
  - subst long. rewrite !length_append, length_hex_EncodeToString, length_be_bytes, Hlen.
    reflexivity.
  - exists (raw ++ 0 :: be_bytes 8 expires). split; [exact Hlong |].
    rewrite length_app. cbn [length]. rewrite length_be_bytes, Hl. reflexivity.
  - unfold ActionHash. rewrite Hlong, Hraw. cbn [bind]. rewrite !put_big_endian_8.
    do 2 f_equal. rewrite <- !app_assoc. reflexivity.
Qed.

Lemma ActionHash_vault_length_unchecked_instance :
  ActionHash (fun keys => keys) empty_order_action
    (Some (example_vault +:+ "00" +:+ hex_EncodeToString (be_bytes 8 1700000000000)))
    12345 None
  = ActionHash (fun keys => keys) empty_order_action (Some example_vault) 12345
      (Some 1700000000000).
Proof.
  apply (ActionHash_vault_length_unchecked (fun keys => keys) empty_order_action 12345
           example_vault 1700000000000); [reflexivity | lia].
Defined.

Lemma ActionHash_cases (range_order : list string -> list string) (action : Value)
    (vaultAddress : option string) (nonce : Z) (expiresAfter : option Z) :
  (exists data,
     ActionHash range_order action vaultAddress nonce expiresAfter = Ok (sha3_Keccak256 data)
     /\ forall vault, vaultAddress = Some vault -> exists raw, AddressToBytes vault = Ok raw)
  \/ (ActionHash range_order action vaultAddress nonce expiresAfter = Err ErrHexDecode
      /\ exists vault, vaultAddress = Some vault /\ AddressToBytes vault = Err ErrHexDecode).
Proof.
  unfold ActionHash. destruct vaultAddress as [vault |].
  - destruct (AddressToBytes vault) as [raw | e] eqn:Hraw; cbn [bind].
    + left. eexists. split; [reflexivity |]. intros ? [= <-]. by exists raw.
    + assert (e = ErrHexDecode) as -> by (by apply (hex_DecodeString_Err _ _ Hraw)).
      right. split; [reflexivity | by exists vault].
  - left. eexists. split; [reflexivity | discriminate].
Qed.

Section SignL1Properties.

Context `{Crypto}.
Variable range_order : list string -> list string.

(** X6.  [SignL1Action] returns an error of [ActionHash] unchanged, without
    signing; when [ActionHash] succeeds, the hash has 32 bytes, the agent has
    the source [a] on mainnet and [b] on testnet and as connection id the text
    of 66 characters that decodes back to exactly these bytes, and the result
    is that of [SignInner] on the payload of this agent. *)
Theorem SignL1Action_connection_id (privateKey : PrivateKey) (action : Value)
    (activePool : option string) (nonce : Z) (expiresAfter : option Z) (isMainnet : bool) :
  match ActionHash range_order action activePool nonce expiresAfter with
  | Ok hash =>
      let agent := ConstructPhantomAgent hash isMainnet in
      length hash = 32%nat
      /\ Forall is_byte hash
      /\ pa_Source agent = (if isMainnet then "a" else "b")%string
      /\ String.length (pa_ConnectionID agent) = 66%nat
      /\ AddressToBytes (pa_ConnectionID agent) = Ok hash
      /\ SignL1Action range_order privateKey action activePool nonce expiresAfter isMainnet
         = SignInner privateKey (L1Payload agent)
  | Err e =>
      SignL1Action range_order privateKey action activePool nonce expiresAfter isMainnet
      = Err e
  end.
Proof.
  unfold SignL1Action.
  destruct (ActionHash_cases range_order action activePool nonce expiresAfter)
    as [(data & -> & _) | (-> & _)]; cbn [bind]; [| reflexivity].
  cbn [ConstructPhantomAgent pa_ConnectionID pa_Source].
  pose proof (sha3_Keccak256_bytes data) as Hb.
  split; [reflexivity |]. split; [exact Hb |]. split; [by destruct isMainnet |].
  split; [| split; [| reflexivity]].
  - change (hexutil_Encode (sha3_Keccak256 data))
      with (String "0" (String "x" (hex_EncodeToString (sha3_Keccak256 data)))).
    cbn [String.length]. rewrite length_hex_EncodeToString. reflexivity.
  - by apply AddressToBytes_hexutil_Encode.
Qed.

End SignL1Properties.

(** ** binary64: the rounding of a ratio *)

(** The record [mrs] is the position of [A / B] between two integers: its
    integer part, whether it is at or above the middle, and whether it is
    off the integer and off the middle. *)
Definition shr_represents (A B : Z) (mrs : shr_record) : Prop :=
  0 < B /\ 0 <= shr_m mrs
  /\ shr_m mrs * B <= A < (shr_m mrs + 1) * B
  /\ shr_r mrs = (B <=? 2 * (A - shr_m mrs * B))
  /\ shr_s mrs = negb ((A - shr_m mrs * B =? 0) || (2 * (A - shr_m mrs * B) =? B)).

Ltac bool_cases :=
  repeat match goal with
         | |- context [?a <=? ?b] => destruct (Z.leb_spec a b)
         | |- context [?a =? ?b] => destruct (Z.eqb_spec a b)
         end.

Lemma shr_1_represents (A B : Z) (mrs : shr_record) :
  shr_represents A B mrs -> shr_represents A (2 * B) (shr_1 mrs).
Proof.
  destruct mrs as [m r s]. unfold shr_represents. cbn [shr_m shr_r shr_s].
  intros (HB & Hm & Hrange & -> & ->).
  destruct m as [| [p | p |] | p]; cbn [shr_1 shr_m shr_r shr_s]; try lia.
  - rewrite Pos2Z.inj_xI in *. lia.
  - rewrite Pos2Z.inj_xO in *. set (P := Zpos p) in *.
    repeat split; try lia; bool_cases; cbn; try reflexivity; lia.
Qed.

Lemma iter_shr_1_represents (n : nat) (A B : Z) (mrs : shr_record) :
  shr_represents A B mrs -> shr_represents A (B * 2 ^ Z.of_nat n) (Nat.iter n shr_1 mrs).
Proof.
  intros Hrep. induction n as [| n IH].
  - cbn [Nat.iter]. change (2 ^ Z.of_nat 0) with 1. by rewrite Z.mul_1_r.
  - rewrite Nat.iter_succ, Nat2Z.inj_succ, Z.pow_succ_r by lia.
    replace (B * (2 * 2 ^ Z.of_nat n)) with (2 * (B * 2 ^ Z.of_nat n)) by lia.
    by apply shr_1_represents.
Qed.

Lemma shr_record_of_loc_represents (A B : Z) :
  0 <= A -> 0 < B ->
  shr_represents A B (shr_record_of_loc (A / B) (new_location B (A mod B))).
Proof.
  intros HA HB.
  pose proof (Z.div_mod A B ltac:(lia)) as Hdm.
  pose proof (Z.mod_pos_bound A B HB) as Hmod.
  assert (0 <= A / B) as Hq by (apply Z.div_pos; lia).
  assert (A - A / B * B = A mod B) as Hrem by lia.
  assert (forall l, shr_m (shr_record_of_loc (A / B) l) = A / B) as Hm
    by (intros l; apply shr_record_of_loc_m).
  unfold shr_represents. rewrite Hm, Hrem.
  split; [exact HB |]. split; [exact Hq |]. split; [nia |].
  unfold new_location. destruct (Z.even B) eqn:Heven.
  - unfold new_location_even. destruct (Z.eqb_spec (A mod B) 0) as [H0 | H0].
    + rewrite H0. cbn [shr_record_of_loc shr_r shr_s]. split; bool_cases; cbn; try reflexivity; lia.
    + destruct (Z.compare_spec (2 * (A mod B)) B); cbn [shr_record_of_loc shr_r shr_s];
        split; bool_cases; cbn; try reflexivity; lia.
  - assert (Z.odd B = true) as Hodd by (by rewrite <- Z.negb_even, Heven).
    apply Z.odd_spec in Hodd as [k Hk].
    unfold new_location_odd. destruct (Z.eqb_spec (A mod B) 0) as [H0 | H0].
    + rewrite H0. cbn [shr_record_of_loc shr_r shr_s]. split; bool_cases; cbn; try reflexivity; lia.
    + destruct (Z.compare_spec (2 * (A mod B) + 1) B); cbn [shr_record_of_loc shr_r shr_s];
        split; bool_cases; cbn; try reflexivity; lia.
Qed.

Lemma round_nearest_even_represents (A B : Z) (mrs : shr_record) :
  shr_represents A B mrs ->
  shr_m mrs = A / B
  /\ round_nearest_even (shr_m mrs) (loc_of_shr_record mrs) = round_half_even A B.
Proof.
  destruct mrs as [m r s]. unfold shr_represents. cbn [shr_m shr_r shr_s].
  intros (HB & Hm & Hrange & -> & ->).
  assert (m = A / B) as Hq by (apply (Z.div_unique_pos A B m (A - m * B)); lia).
  split; [exact Hq |].
  assert (A mod B = A - m * B) as Hr
    by (symmetry; apply (Z.mod_unique_pos A B m (A - m * B)); lia).
  unfold round_half_even. rewrite <- Hq, Hr.
  destruct (Z.compare_spec (2 * (A - m * B)) B);
    bool_cases; cbn; try reflexivity; lia.
Qed.

Lemma shr_fexp_represents (A B m e : Z) (l : location) :
  shr_represents A B (shr_record_of_loc m l) ->
  shr_represents A (B * 2 ^ Z.max 0 (fexp 53 1024 (Zdigits2 m + e) - e))
    (fst (shr_fexp 53 1024 m e l)).
Proof.
  intros Hrep. unfold shr_fexp, shr.
  destruct (fexp 53 1024 (Zdigits2 m + e) - e) as [| p | p] eqn:Hk; cbn [fst].
  - change (2 ^ Z.max 0 0) with 1. by rewrite Z.mul_1_r.
  - rewrite iter_pos_nat, Z.max_r by lia. rewrite <- (positive_nat_Z p).
    by apply iter_shr_1_represents.
  - rewrite Z.max_l by lia. change (2 ^ 0) with 1. by rewrite Z.mul_1_r.
Qed.

(** [f64_of_ratio] rounds correctly: the float that it returns for [N / D]
    is [N * 2^a / (D * 2^c)] rounded to the nearest integer (ties to even),
    times [2^(c - a)], where the scaling brings the ratio between [2^52] and
    [2^53]. *)
Lemma f64_of_ratio_rounds (neg : bool) (N D : Z) :
  0 < N -> 0 < D -> Zdigits2 D <= 1000 -> N < 2 ^ 1000 * D ->
  exists (m : positive) (e a c : Z),
    f64_of_ratio neg N D = S754_finite neg m e
    /\ 0 <= a /\ 0 <= c
    /\ 2 ^ 52 * (D * 2 ^ c) <= N * 2 ^ a < 2 ^ 53 * (D * 2 ^ c)
    /\ 2 ^ 52 <= Zpos m < 2 ^ 53
    /\ c - a <= e
    /\ Zpos m * 2 ^ (e - (c - a)) = round_half_even (N * 2 ^ a) (D * 2 ^ c).
Proof.
  intros HNpos HD Hd2 Hbound. unfold f64_of_ratio.
  destruct N as [| n | n] eqn:HNeq; [lia | | lia].
  rewrite <- HNeq in *. clear HNeq n.
  unfold SFdiv_core_binary.
  set (d1 := Zdigits2 N). set (d2 := Zdigits2 D).
  assert (1 <= d1) as Hd1 by (apply Zdigits2_ge; [lia | cbn; lia]).
  assert (1 <= d2) as Hd2' by (apply Zdigits2_ge; [lia | cbn; lia]).
  replace (d1 + 0 - (d2 + 0)) with (d1 - d2) by lia.
  destruct (Zdigits2_bounds N HNpos) as [HNlo HNhi]. fold d1 in HNlo, HNhi.
  destruct (Zdigits2_bounds D HD) as [HDlo HDhi]. fold d2 in HDlo, HDhi.
  assert (d1 - d2 <= 1001) as Hdd.
  { destruct (Z_le_gt_dec (d1 - d2) 1001) as [| Hgt]; [done |]. exfalso.
    assert (2 ^ (1001 + d2) <= 2 ^ (d1 - 1)) by (apply Z.pow_le_mono_r; lia).
    assert (2 ^ (1001 + d2) = 2 * 2 ^ 1000 * 2 ^ d2)
      by (rewrite <- Z.pow_succ_r, <- Z.pow_add_r by lia; f_equal; lia).
    assert (0 < 2 ^ 1000) by (apply Z.pow_pos_nonneg; lia).
    nia. }
  assert (fexp 53 1024 (d1 - d2) = d1 - d2 - 53) as Hfexp by (unfold fexp, emin; lia).
  rewrite Hfexp. change (0 - 0) with 0.
  set (e' := Z.min (d1 - d2 - 53) 0).
  set (s := 0 - e'). assert (0 <= s) as Hs by (subst s e'; lia).
  assert (match s with
          | 0 => N
          | Zpos _ => Z.shiftl N s
          | Zneg _ => 0
          end = N * 2 ^ s) as ->.
  { destruct s as [| p | p] eqn:Hseq; [cbn; lia | | lia].
    rewrite Z.shiftl_mul_pow2 by lia. reflexivity. }
  rewrite div_eucl_div.
  set (A := N * 2 ^ s). set (q := A / D).
  assert (0 < 2 ^ s) as Hpow by (apply Z.pow_pos_nonneg; lia).
  assert (0 < A) as HA by (subst A; lia).
  set (t := d1 + s - d2 - 1).
  assert (52 <= t) as Ht by (subst t s e'; lia).
  assert (2 ^ t <= q) as Hq.
  { subst q A. apply Z.div_le_lower_bound; [lia |].
    assert (2 ^ t * 2 ^ d2 = 2 ^ (d1 - 1) * 2 ^ s) as Hpows.
    { rewrite <- !Z.pow_add_r by lia. f_equal. subst t. lia. }
    assert (0 < 2 ^ t) by (apply Z.pow_pos_nonneg; lia).
    nia. }
  assert (0 < q) as Hqpos by (assert (0 < 2 ^ t) by (apply Z.pow_pos_nonneg; lia); lia).
  set (dq := Zdigits2 q).
  assert (t + 1 <= dq) as Hdq
    by (apply Zdigits2_ge; [lia |]; replace (t + 1 - 1) with t by lia; exact Hq).
  assert (dq <= t + 2) as Hdq'.
  { apply Zdigits2_le; [lia |]. split; [lia |].
    subst q A. apply Z.div_lt_upper_bound; [lia |].
    assert (2 ^ (t + 2) * 2 ^ (d2 - 1) = 2 ^ d1 * 2 ^ s) as Hpows.
    { rewrite <- !Z.pow_add_r by lia. f_equal. subst t. lia. }
    assert (0 < 2 ^ (t + 2)) by (apply Z.pow_pos_nonneg; lia).
    nia. }
  destruct (Zdigits2_bounds q Hqpos) as [Hqlo Hqhi]. fold dq in Hqlo, Hqhi.
  (* the first shift *)
  set (k1 := dq - 53).
  assert (0 <= k1) as Hk1 by (subst k1; lia).
  assert (Z.max 0 (fexp 53 1024 (dq + e') - e') = k1) as Hmax1
    by (subst k1 t s e'; unfold fexp, emin; lia).
  unfold binary_round_aux.
  pose proof (shr_record_of_loc_represents A D ltac:(lia) HD) as Hrep0. fold q in Hrep0.
  pose proof (shr_fexp_represents A D q e' _ Hrep0) as Hrep1. fold dq in Hrep1.
  rewrite Hmax1 in Hrep1.
  destruct (shr_fexp_m q e' (new_location D (A mod D)) ltac:(lia)) as [_ He1].
  fold dq in He1. rewrite Hmax1 in He1.
  destruct (shr_fexp 53 1024 q e' (new_location D (A mod D))) as [mrs' e1] eqn:Hshr1.
  cbn [fst snd] in Hrep1, He1.
  destruct (round_nearest_even_represents _ _ _ Hrep1) as [Hm1 Hround].
  rewrite Hround.
  set (B := D * 2 ^ k1) in *.
  assert (0 < 2 ^ k1) as Hpk1 by (apply Z.pow_pos_nonneg; lia).
  assert (0 < B) as HB by (subst B; lia).
  assert (2 ^ 52 * B <= A < 2 ^ 53 * B) as Hrange.
  { pose proof (Z.div_mod A D ltac:(lia)) as Hdm.
    pose proof (Z.mod_pos_bound A D HD) as Hmod. fold q in Hdm.
    assert (2 ^ (dq - 1) = 2 ^ 52 * 2 ^ k1) as Hp1
      by (rewrite <- Z.pow_add_r by lia; f_equal; subst k1; lia).
    assert (2 ^ dq = 2 ^ 53 * 2 ^ k1) as Hp2
      by (rewrite <- Z.pow_add_r by lia; f_equal; subst k1; lia).
    subst B. split; nia. }
  set (R := round_half_even A B).
  assert (2 ^ 52 <= R <= 2 ^ 53) as HR.
  { pose proof (round_nearest_even_bounds (shr_m mrs') (loc_of_shr_record mrs')) as Hb.
    rewrite Hround in Hb. fold R in Hb. rewrite Hm1 in Hb.
    assert (2 ^ 52 <= A / B) by (apply Z.div_le_lower_bound; lia).
    assert (A / B < 2 ^ 53) by (apply Z.div_lt_upper_bound; lia).
    lia. }
  (* the second shift *)
  assert (0 <= R) as HRnn by lia.
  destruct (shr_fexp_m R e1 loc_Exact HRnn) as [Hm3 He3].
  assert (-1052 <= e1 <= 949) as He1r by (subst e1 k1 t s e'; lia).
  destruct (Z.eq_dec R (2 ^ 53)) as [HRtop | HRtop].
  - assert (Z.max 0 (fexp 53 1024 (Zdigits2 R + e1) - e1) = 1) as Hk2.
    { rewrite HRtop. change (Zdigits2 (2 ^ 53)) with 54. unfold fexp, emin. lia. }
    rewrite Hk2 in Hm3, He3.
    destruct (shr_fexp 53 1024 R e1 loc_Exact) as [mrs'' e2] eqn:Hshr2.
    cbn [fst snd] in Hm3, He3.
    rewrite Hm3, HRtop. change (2 ^ 53 / 2 ^ 1) with (Zpos (2 ^ 52)).
    destruct (e2 <=? 1024 - 53) eqn:Hle; [| apply Z.leb_gt in Hle; lia].
    exists (2 ^ 52)%positive, e2, s, k1.
    split; [reflexivity |]. split; [exact Hs |]. split; [exact Hk1 |].
    split; [exact Hrange |]. split; [by vm_compute |].
    split; [lia |].
    fold A B R. rewrite HRtop.
    replace (e2 - (k1 - s)) with 1 by lia. reflexivity.
  - assert (Zdigits2 R = 53) as HdR.
    { apply Z.le_antisymm.
      - apply Zdigits2_le; lia.
      - apply Zdigits2_ge; [lia |]. change (53 - 1) with 52. lia. }
    assert (Z.max 0 (fexp 53 1024 (Zdigits2 R + e1) - e1) = 0) as Hk2
      by (rewrite HdR; unfold fexp, emin; lia).
    rewrite Hk2 in Hm3, He3.
    destruct (shr_fexp 53 1024 R e1 loc_Exact) as [mrs'' e2] eqn:Hshr2.
    cbn [fst snd] in Hm3, He3.
    rewrite Hm3. change (2 ^ 0) with 1. rewrite Z.div_1_r.
    destruct R as [| r | r] eqn:HReq; [lia | | lia].
    destruct (e2 <=? 1024 - 53) eqn:Hle; [| apply Z.leb_gt in Hle; lia].
    exists r, e2, s, k1.
    split; [reflexivity |]. split; [exact Hs |]. split; [exact Hk1 |].
    split; [exact Hrange |]. split; [lia |].
    split; [lia |].
    fold A B. replace (e2 - (k1 - s)) with 0 by lia. change (2 ^ 0) with 1. lia.
Qed.

Lemma round_half_even_unique (num den k : Z) :
  0 < den -> 2 * Z.abs (num - k * den) < den -> round_half_even num den = k.
Proof.
  intros Hden Hnear. unfold round_half_even.
  pose proof (Z.div_mod num den ltac:(lia)) as Hdm.
  pose proof (Z.mod_pos_bound num den Hden) as Hmod.
  set (q := num / den) in *. set (r := num mod den) in *.
  assert (num - k * den = r - (k - q) * den) as Hd by lia.
  rewrite Hd in Hnear. clear Hd Hdm.
  assert (k - q <= - 1 \/ k - q = 0 \/ k - q = 1 \/ 2 <= k - q) as Hcases by lia.
  destruct (Z.compare_spec (2 * r) den) as [Heq | Hlt | Hgt];
    destruct Hcases as [Hc | [Hc | [Hc | Hc]]]; try (exfalso; nia); try lia.
Qed.

Lemma round_half_even_exact (k den : Z) : 0 < den -> round_half_even (k * den) den = k.
Proof. intros Hden. apply round_half_even_unique; [exact Hden |]. rewrite Z.sub_diag. cbn. lia. Qed.

(** A float minus itself is zero, which is below [1e-12]. *)
Lemma f64_sub_diag (x : float64) :
  is_finite x = true -> f64_ge (f64_abs (f64_sub x x)) c_1e_12 = false.
Proof.
  destruct x as [s | s | | s m e]; try discriminate; intros _.
  - by destruct s.
  - unfold f64_sub, SFsub. rewrite Z.sub_diag. reflexivity.
Qed.

(** A finite float that its own [%.8f] text parses back to passes the test of
    [FloatToWire]. *)
Lemma FloatToWire_fixpoint (x : float64) :
  is_finite x = true ->
  strconv_ParseFloat (fmt_Sprintf_8f x) = Ok x ->
  FloatToWire x = Ok (trimmed_of (fmt_Sprintf_8f x)).
Proof.
  intros Hfin Hparse. unfold FloatToWire. rewrite Hparse. cbn [bind].
  rewrite (f64_sub_diag x Hfin). reflexivity.
Qed.

(** X7.  A decimal with eight fractional digits below [2^25] converts to its
    own text. *)
Theorem FloatToWire_decimal_literal (k : Z) :
  Z.abs k < 2 ^ 25 * 10 ^ 8 ->
  let x := f64_lit k 8 in
  fmt_Sprintf_8f x = fixed8 (k <? 0) (Z.abs k)
  /\ strconv_ParseFloat (fmt_Sprintf_8f x) = Ok x
  /\ FloatToWire x = Ok (trimmed_of (fixed8 (k <? 0) (Z.abs k)))
  /\ canonical_decimal (trimmed_of (fixed8 (k <? 0) (Z.abs k))) = true.
Proof.
  intros Hk x. subst x. unfold f64_lit.
  set (neg := k <? 0). set (N := Z.abs k) in *.
  assert (canonical_decimal (trimmed_of (fixed8 neg N)) = true) as Hcanon
    by (apply canonical_trimmed_of_fixed8; subst N; lia).
  destruct (Z.eq_dec N 0) as [HN0 | HN0].
  { assert (k = 0) as -> by lia. subst neg N. by vm_compute. }
  assert (0 < N) as HNpos by (subst N; lia).
  destruct (f64_of_ratio_rounds neg N (10 ^ 8) HNpos ltac:(lia) ltac:(by vm_compute))
    as (m & e & a & c & Hx & Ha & Hc & Hrange & Hm & He & Hround).
  { assert (2 ^ 25 < 2 ^ 1000) by (apply Z.pow_lt_mono_r; lia). nia. }
  set (D := 10 ^ 8) in *.
  assert (0 < 2 ^ a) as Hpa by (apply Z.pow_pos_nonneg; lia).
  assert (0 < 2 ^ c) as Hpc by (apply Z.pow_pos_nonneg; lia).
  (* the exponent: the ratio is below 2^25 *)
  assert (c - a <= - 28) as He1.
  { destruct (Z_le_gt_dec (c - a) (- 28)) as [| Hgt]; [done |]. exfalso.
    assert (2 ^ (25 + a) <= 2 ^ (52 + c)) as Hpow by (apply Z.pow_le_mono_r; lia).
    rewrite !Z.pow_add_r in Hpow by lia.
    assert (0 < D) by (subst D; lia).
    nia. }
  assert (c <= a) as Hca by lia.
  set (j := e - (c - a)) in *. assert (0 <= j) as Hj by (subst j; lia).
  assert (0 < 2 ^ j) as Hpj by (apply Z.pow_pos_nonneg; lia).
  (* the rounding is near *)
  destruct (round_half_even_nearest (N * 2 ^ a) (D * 2 ^ c)) as [_ Hnear];
    [lia | subst D; lia |].
  rewrite <- Hround in Hnear.
  assert (2 ^ a = 2 ^ (a - c) * 2 ^ c) as Hac
    by (rewrite <- Z.pow_add_r by lia; f_equal; lia).
  assert (0 < 2 ^ (a - c)) as Hpac by (apply Z.pow_pos_nonneg; lia).
  assert (2 * Z.abs (Zpos m * 2 ^ j * D - N * 2 ^ (a - c)) <= D) as Hnear'.
  { rewrite Hac in Hnear.
    replace (Zpos m * 2 ^ j * (D * 2 ^ c) - N * (2 ^ (a - c) * 2 ^ c))
      with ((Zpos m * 2 ^ j * D - N * 2 ^ (a - c)) * 2 ^ c) in Hnear by lia.
    rewrite Z.abs_mul, (Z.abs_eq (2 ^ c)) in Hnear by lia. nia. }
  assert (e < 0) as Heneg.
  { destruct (Z_lt_ge_dec e 0) as [| Hge]; [done |]. exfalso.
    (* the mantissa has 53 bits and the value is below 2^25 *)
    assert (2 ^ (a - c) <= 2 ^ j) as Hpow by (apply Z.pow_le_mono_r; subst j; lia).
    assert (2 ^ 28 <= 2 ^ (a - c)) by (apply Z.pow_le_mono_r; lia).
    assert (N < 2 ^ 25 * D) by (subst N D; lia).
    assert (D = 100000000) by (by vm_compute).
    assert (2 ^ 28 = 268435456) by (by vm_compute).
    assert (2 ^ 25 = 33554432) by (by vm_compute).
    assert (2 ^ 52 = 4503599627370496) by (by vm_compute).
    nia. }
  assert (2 ^ (a - c) = 2 ^ j * 2 ^ (- e)) as Hsplit
    by (rewrite <- Z.pow_add_r by lia; f_equal; subst j; lia).
  assert (0 < 2 ^ (- e)) as Hpe by (apply Z.pow_pos_nonneg; lia).
  assert (digits8 (S754_finite neg m e) = N) as Hdigits.
  { cbn [digits8]. unfold scaled8.
    destruct (0 <=? e) eqn:Hle; [apply Z.leb_le in Hle; lia |].
    fold D. apply round_half_even_unique; [exact Hpe |].
    (* D < 2^27 and the exponent is at most -27 *)
    assert (2 ^ 27 <= 2 ^ (- e)) as H27.
    { apply Z.pow_le_mono_r; [lia |].
      destruct (Z_le_gt_dec 27 (- e)) as [| Hgt]; [done |]. exfalso.
      assert (j <= 0 \/ 1 <= j) as [Hj0 | Hj1] by lia.
      - assert (j = 0) by lia. subst j. lia.
      - assert (2 ^ 1 <= 2 ^ j) by (apply Z.pow_le_mono_r; lia).
        assert (2 ^ (a - c) <= 2 ^ (j + 26))
          by (apply Z.pow_le_mono_r; subst j; lia).
        (* j <= 1: the mantissa is below 2^53 and the rounding at most 2^53 *)
        assert (Zpos m * 2 ^ j <= 2 ^ 53) as Htop.
        { rewrite Hround.
          destruct (round_half_even_nearest (N * 2 ^ a) (D * 2 ^ c)) as [_ Hn];
            [lia | subst D; lia |].
          assert (D = 100000000) by (by vm_compute).
          nia. }
        assert (j < 2).
        { destruct (Z_lt_ge_dec j 2) as [| Hge]; [done |]. exfalso.
          assert (2 ^ 2 <= 2 ^ j) by (apply Z.pow_le_mono_r; lia).
          change (2 ^ 2) with 4 in *.
          assert (2 ^ 53 = 2 * 2 ^ 52) by (by vm_compute). nia. }
        subst j. lia. }
    rewrite Hsplit in Hnear'.
    replace (Zpos m * 2 ^ j * D - N * (2 ^ j * 2 ^ (- e)))
      with ((Zpos m * D - N * 2 ^ (- e)) * 2 ^ j) in Hnear' by lia.
    rewrite Z.abs_mul, (Z.abs_eq (2 ^ j)) in Hnear' by lia.
    assert (D = 100000000) by (by vm_compute).
    assert (2 ^ 27 = 134217728) by (by vm_compute).
    nia. }
  assert (fmt_Sprintf_8f (S754_finite neg m e) = fixed8 neg N) as Htext
    by (rewrite fmt_Sprintf_8f_finite by done; cbn [f64_sign]; by rewrite Hdigits).
  assert (strconv_ParseFloat (fixed8 neg N) = Ok (S754_finite neg m e)) as Hparse.
  { rewrite strconv_ParseFloat_fixed8 by lia. fold D. rewrite Hx. reflexivity. }
  rewrite Hx, Htext.
  split; [reflexivity |]. split; [exact Hparse |]. split; [| exact Hcanon].
  rewrite <- Htext. apply FloatToWire_fixpoint; [reflexivity |]. by rewrite Htext.
Qed.

Lemma FloatToWire_decimal_literal_instance :
  FloatToWire (f64_lit 123456789 8) = Ok "1.23456789"%string.
Proof.
  exact (proj1 (proj2 (proj2 (FloatToWire_decimal_literal 123456789 ltac:(by vm_compute))))).
Defined.

(** ** NumericCodec: FloatToInt on decimals *)

(** A mantissa that needs no shift is kept. *)
Lemma binary_round_aux_keep (s : bool) (p : positive) (ex : Z) :
  fexp 53 1024 (Zpos (digits2_pos p) + ex) <= ex -> ex <= 971 ->
  binary_round_aux 53 1024 s (Zpos p) ex loc_Exact = S754_finite s p ex.
Proof.
  intros Hfexp Hex.
  assert (forall mrs, shr mrs ex (fexp 53 1024 (Zpos (digits2_pos p) + ex) - ex) = (mrs, ex))
    as Hshr.
  { intros mrs. unfold shr.
    destruct (fexp 53 1024 (Zpos (digits2_pos p) + ex) - ex) as [| k | k] eqn:Hk;
      [reflexivity | lia | reflexivity]. }
  unfold binary_round_aux, shr_fexp. cbn [Zdigits2]. rewrite Hshr.
  cbn [shr_record_of_loc shr_m loc_of_shr_record round_nearest_even Zdigits2]. rewrite Hshr.
  cbn [shr_m]. destruct (ex <=? 1024 - 53) eqn:Hle; [reflexivity | lia].
Qed.

(** [binary_round] is exact on a mantissa below [2^53]: it brings the
    exponent down to that of the format. *)
Lemma binary_round_exact (s : bool) (p : positive) (ez : Z) :
  Zpos p < 2 ^ 53 -> - 1074 <= ez <= 971 ->
  let e := Z.max (Zpos (digits2_pos p) + ez - 53) (- 1074) in
  exists m, binary_round 53 1024 s p ez = S754_finite s m e
            /\ e <= ez /\ Zpos m = Zpos p * 2 ^ (ez - e).
Proof.
  intros Hp Hez e.
  pose proof (digits2_pos_bounds p) as [Hlo Hhi].
  assert (Zpos (digits2_pos p) <= 53) as Hd.
  { destruct (Z_le_gt_dec (Zpos (digits2_pos p)) 53) as [| Hgt]; [done |].
    assert (2 ^ 53 <= 2 ^ (Zpos (digits2_pos p) - 1)) by (apply Z.pow_le_mono_r; lia). lia. }
  assert (fexp 53 1024 (Zpos (digits2_pos p) + ez) = e) as Hfexp
    by (subst e; unfold fexp, emin; lia).
  assert (e <= ez) as Hle by (subst e; lia).
  unfold binary_round. rewrite Hfexp. clearbody e. unfold shl_align.
  destruct (e - ez) as [| k | k] eqn:Hk; [| lia |].
  - assert (e = ez) as -> by lia. exists p.
    split; [| split; [lia |]].
    + apply binary_round_aux_keep; lia.
    + rewrite Z.sub_diag. cbn. lia.
  - exists (Pos.iter xO p k).
    split; [| split; [lia |]].
    + apply binary_round_aux_keep; [| lia].
      rewrite iter_xO_digits, Pos2Z.inj_add.
      replace (Zpos (digits2_pos p) + Zpos k + e) with (Zpos (digits2_pos p) + ez) by lia.
      lia.
    + rewrite iter_xO_value. f_equal. f_equal. lia.
Qed.

(** [binary_round_aux] rounds correctly a mantissa of 53 bits or more in the
    normal range: the result is [A / (B * 2^k)] rounded to the nearest
    integer, ties to even, where [k] is the number of bits above 53. *)
Lemma binary_round_aux_rounds (s : bool) (A B q ex : Z) (l : location) :
  shr_represents A B (shr_record_of_loc q l) ->
  53 <= Zdigits2 q ->
  - 1074 <= ex + Zdigits2 q - 53 ->
  ex + Zdigits2 q <= 1023 ->
  let k := Zdigits2 q - 53 in
  exists (m : positive) (e : Z),
    binary_round_aux 53 1024 s q ex l = S754_finite s m e
    /\ 2 ^ 52 <= Zpos m < 2 ^ 53
    /\ ex + k <= e <= ex + k + 1
    /\ Zpos m * 2 ^ (e - (ex + k)) = round_half_even A (B * 2 ^ k)
    /\ 2 ^ 52 * (B * 2 ^ k) <= A < 2 ^ 53 * (B * 2 ^ k).
Proof.
  intros Hrep0 Hdq Hlow Hhigh k.
  assert (0 <= q) as Hq0
    by (destruct Hrep0 as (_ & Hm & _); by rewrite shr_record_of_loc_m in Hm).
  assert (0 < q) as Hqpos by (destruct q; cbn in Hdq; lia).
  set (dq := Zdigits2 q) in *.
  destruct (Zdigits2_bounds q Hqpos) as [Hqlo Hqhi]. fold dq in Hqlo, Hqhi.
  assert (0 <= k) as Hk by (subst k; lia).
  assert (Z.max 0 (fexp 53 1024 (dq + ex) - ex) = k) as Hmax1
    by (subst k; unfold fexp, emin; lia).
  unfold binary_round_aux.
  pose proof (shr_fexp_represents A B q ex _ Hrep0) as Hrep1. fold dq in Hrep1.
  rewrite Hmax1 in Hrep1.
  destruct (shr_fexp_m q ex l ltac:(lia)) as [_ He1].
  fold dq in He1. rewrite Hmax1 in He1.
  destruct (shr_fexp 53 1024 q ex l) as [mrs' e1] eqn:Hshr1.
  cbn [fst snd] in Hrep1, He1.
  destruct (round_nearest_even_represents _ _ _ Hrep1) as [Hm1 Hround].
  rewrite Hround.
  assert (0 < B /\ q * B <= A < (q + 1) * B) as [HB0 HqA].
  { destruct Hrep0 as (HB0 & _ & Hr & _). rewrite shr_record_of_loc_m in Hr. by split. }
  set (B' := B * 2 ^ k) in *.
  assert (0 < 2 ^ k) as Hpk by (apply Z.pow_pos_nonneg; lia).
  assert (0 < B') as HB by (subst B'; lia).
  assert (2 ^ 52 * B' <= A < 2 ^ 53 * B') as Hrange.
  { assert (2 ^ (dq - 1) = 2 ^ 52 * 2 ^ k) as Hp1
      by (rewrite <- Z.pow_add_r by lia; f_equal; subst k; lia).
    assert (2 ^ dq = 2 ^ 53 * 2 ^ k) as Hp2
      by (rewrite <- Z.pow_add_r by lia; f_equal; subst k; lia).
    subst B'. split; nia. }
  set (R := round_half_even A B').
  assert (2 ^ 52 <= R <= 2 ^ 53) as HR.
  { pose proof (round_nearest_even_bounds (shr_m mrs') (loc_of_shr_record mrs')) as Hb.
    rewrite Hround in Hb. fold R in Hb. rewrite Hm1 in Hb.
    assert (2 ^ 52 <= A / B') by (apply Z.div_le_lower_bound; lia).
    assert (A / B' < 2 ^ 53) by (apply Z.div_lt_upper_bound; lia).
    lia. }
  assert (0 <= R) as HRnn by lia.
  destruct (shr_fexp_m R e1 loc_Exact HRnn) as [Hm3 He3].
  destruct (Z.eq_dec R (2 ^ 53)) as [HRtop | HRtop].
  - assert (Z.max 0 (fexp 53 1024 (Zdigits2 R + e1) - e1) = 1) as Hk2.
    { rewrite HRtop. change (Zdigits2 (2 ^ 53)) with 54. unfold fexp, emin. lia. }
    rewrite Hk2 in Hm3, He3.
    destruct (shr_fexp 53 1024 R e1 loc_Exact) as [mrs'' e2] eqn:Hshr2.
    cbn [fst snd] in Hm3, He3.
    rewrite Hm3, HRtop. change (2 ^ 53 / 2 ^ 1) with (Zpos (2 ^ 52)).
    destruct (e2 <=? 1024 - 53) eqn:Hle; [| apply Z.leb_gt in Hle; lia].
    exists (2 ^ 52)%positive, e2.
    split; [reflexivity |]. split; [by vm_compute |]. split; [lia |].
    split; [| exact Hrange].
    replace (e2 - (ex + k)) with 1 by lia. reflexivity.
  - assert (Zdigits2 R = 53) as HdR.
    { apply Z.le_antisymm.
      - apply Zdigits2_le; lia.
      - apply Zdigits2_ge; [lia |]. change (53 - 1) with 52. lia. }
    assert (Z.max 0 (fexp 53 1024 (Zdigits2 R + e1) - e1) = 0) as Hk2
      by (rewrite HdR; unfold fexp, emin; lia).
    rewrite Hk2 in Hm3, He3.
    destruct (shr_fexp 53 1024 R e1 loc_Exact) as [mrs'' e2] eqn:Hshr2.
    cbn [fst snd] in Hm3, He3.
    rewrite Hm3. change (2 ^ 0) with 1. rewrite Z.div_1_r.
    destruct R as [| r | r] eqn:HReq; [lia | | lia].
    destruct (e2 <=? 1024 - 53) eqn:Hle; [| apply Z.leb_gt in Hle; lia].
    exists r, e2.
    split; [reflexivity |]. split; [lia |]. split; [lia |].
    split; [| exact Hrange].
    replace (e2 - (ex + k)) with 0 by lia. change (2 ^ 0) with 1. lia.
Qed.

Lemma math_Pow10_exact (power : Z) :
  0 <= power <= 22 ->
  exists (m : positive) (e : Z),
    math_Pow10 power = S754_finite false m e
    /\ 2 ^ 52 <= Zpos m < 2 ^ 53 /\ - 52 <= e <= 21
    /\ Zpos m * 2 ^ (e + 52) = 10 ^ power * 2 ^ 52.
Proof.
  intros Hpower.
  assert (pow10_exact power = true) as Hok.
  { assert (power = 0 \/ power = 1 \/ power = 2 \/ power = 3 \/ power = 4 \/ power = 5
            \/ power = 6 \/ power = 7 \/ power = 8 \/ power = 9 \/ power = 10 \/ power = 11
            \/ power = 12 \/ power = 13 \/ power = 14 \/ power = 15 \/ power = 16
            \/ power = 17 \/ power = 18 \/ power = 19 \/ power = 20 \/ power = 21
            \/ power = 22) as Hcases by lia.
    repeat (destruct Hcases as [-> | Hcases]; [by vm_compute |]).
    subst power. by vm_compute. }
  unfold pow10_exact in Hok.
  destruct (math_Pow10 power) as [| | | [] m e]; try discriminate Hok.
  exists m, e. split; [reflexivity |]. lia.
Qed.

Lemma shl_align_value (m : positive) (e e' : Z) :
  e' <= e -> Zpos (fst (shl_align m e e')) = Zpos m * 2 ^ (e - e').
Proof.
  intros Hle. unfold shl_align. destruct (e' - e) as [| k | k] eqn:Hk; cbn [fst].
  - replace (e - e') with 0 by lia. cbn. lia.
  - lia.
  - rewrite iter_xO_value. f_equal. f_equal. lia.
Qed.

Lemma shr_represents_exact (A : Z) :
  0 <= A -> shr_represents A 1 (shr_record_of_loc A loc_Exact).
Proof.
  intros HA. unfold shr_represents. cbn [shr_record_of_loc shr_m shr_r shr_s].
  repeat split; try lia; bool_cases; cbn; try reflexivity; lia.
Qed.

(** A difference below [2^-10] is below [1e-3]. *)
Lemma f64_difference_below_1e_3 (d ez : Z) :
  - 63 <= ez <= 0 -> 2 ^ 10 * Z.abs d < 2 ^ (- ez) ->
  f64_ge (f64_abs (binary_normalize 53 1024 d ez false)) c_1e_3 = false.
Proof.
  intros Hez Hd.
  assert (exists m3, c_1e_3 = S754_finite false m3 (- 62)) as [m3 Hc]
    by (eexists; vm_compute; reflexivity).
  assert (forall s p, Zpos p = Z.abs d ->
            f64_ge (f64_abs (binary_round 53 1024 s p ez)) c_1e_3 = false) as Hround.
  { intros s p Hp. rewrite <- Hp in Hd.
    assert (10 <= - ez) as Hez10.
    { destruct (Z_le_gt_dec 10 (- ez)) as [| Hgt]; [done |]. exfalso.
      assert (2 ^ (- ez) <= 2 ^ 10) by (apply Z.pow_le_mono_r; lia). nia. }
    assert (2 ^ (- ez) = 2 ^ 10 * 2 ^ (- ez - 10)) as Hsplit
      by (rewrite <- Z.pow_add_r by lia; f_equal; lia).
    assert (Zpos p < 2 ^ (- ez - 10)) as Hlt by nia.
    assert (2 ^ (- ez - 10) <= 2 ^ 53) by (apply Z.pow_le_mono_r; lia).
    destruct (binary_round_exact s p ez ltac:(lia) ltac:(lia)) as (m & -> & _ & _).
    pose proof (Zdigits2_le (Zpos p) (- ez - 10) ltac:(lia) ltac:(lia)) as Hdig.
    cbn [Zdigits2] in Hdig.
    cbn [f64_abs SFabs]. unfold f64_abs, f64_ge, SFleb. rewrite Hc. cbn [SFabs SFcompare].
    destruct (Z.compare_spec (- 62) (Z.max (Zpos (digits2_pos p) + ez - 53) (- 1074)));
      [lia | lia | reflexivity]. }
  destruct d as [| p | p]; cbn [binary_normalize].
  - by vm_compute.
  - by apply Hround.
  - by apply Hround.
Qed.

(** The product of the float64 nearest to [N / D] and the float64 [D]: its
    distance to [N] is below [2^-10] when [N < 2^42]. *)
Lemma f64_mul_ratio_near (neg : bool) (N D : Z) (mD : positive) (eD : Z) :
  0 < N < 2 ^ 42 -> 0 < D -> Zdigits2 D <= 1000 ->
  2 ^ 52 <= Zpos mD < 2 ^ 53 -> - 52 <= eD <= 21 ->
  Zpos mD * 2 ^ (eD + 52) = D * 2 ^ 52 ->
  exists (mw : positive) (h : Z),
    f64_mul (f64_of_ratio neg N D) (S754_finite false mD eD) = S754_finite neg mw (- h)
    /\ 9 <= h <= 53
    /\ Zpos mw < 2 ^ 53
    /\ 2 ^ 10 * Z.abs (Zpos mw - N * 2 ^ h) < 2 ^ h.
Proof.
  intros HN HD HdD HmD HeD HDval.
  assert (N < 2 ^ 1000 * D) as Hbound.
  { assert (2 ^ 42 < 2 ^ 1000) by (apply Z.pow_lt_mono_r; lia). nia. }
  destruct (f64_of_ratio_rounds neg N D ltac:(lia) HD HdD Hbound)
    as (m & e & a & c & Hx & Ha & Hc & Hrange & Hm & He & Hround).
  rewrite Hx. unfold f64_mul. cbn [SFmul]. rewrite xorb_false_r, Pos2Z.inj_mul.
  clear Hx Hbound HdD.
  set (A2 := Zpos m * Zpos mD).
  assert (2 ^ 104 <= A2 < 2 ^ 106) as HA2.
  { change (2 ^ 104) with (2 ^ 52 * 2 ^ 52). change (2 ^ 106) with (2 ^ 53 * 2 ^ 53).
    subst A2. split; nia. }
  set (j := e - (c - a)) in *. assert (0 <= j) as Hj by (subst j; lia).
  (* the first rounding, on nonnegative exponents *)
  set (J := 2 ^ j) in *. set (C := 2 ^ c) in *. set (E := 2 ^ (eD + 52)) in *.
  set (V := 2 ^ (a + 52)).
  assert (1 <= J) as HJ
    by (assert (0 < 2 ^ j) by (apply Z.pow_pos_nonneg; lia); subst J; lia).
  assert (0 < C) as HC by (subst C; apply Z.pow_pos_nonneg; lia).
  assert (0 < E) as HE by (subst E; apply Z.pow_pos_nonneg; lia).
  assert (0 < V) as HV by (subst V; apply Z.pow_pos_nonneg; lia).
  set (u := j + c + (eD + 52)). set (v := a + 52).
  set (U := 2 ^ u).
  assert (U = J * (C * E)) as HU
    by (subst U J C E u; rewrite <- !Z.pow_add_r by lia; f_equal; lia).
  assert (0 < C * E) as HCEpos by (apply Z.mul_pos_pos; lia).
  assert (0 < U) as HUpos by (rewrite HU; apply Z.mul_pos_pos; lia).
  assert (2 * Z.abs (A2 * U - N * V) <= Zpos mD * (C * E)) as Hnear1.
  { destruct (round_half_even_nearest (N * 2 ^ a) (D * C)) as [_ Hn];
      [lia | lia |].
    rewrite <- Hround in Hn.
    assert (V = 2 ^ a * 2 ^ 52) as HVsplit
      by (subst V; rewrite <- Z.pow_add_r by lia; reflexivity).
    replace (A2 * U - N * V)
      with ((Zpos m * J * (D * C) - N * 2 ^ a) * 2 ^ 52).
    2:{ subst A2. rewrite HU, HVsplit.
        replace (Zpos m * Zpos mD * (J * (C * E))) with (Zpos m * J * C * (Zpos mD * E)) by ring.
        rewrite HDval. ring. }
    rewrite Z.abs_mul, (Z.abs_eq (2 ^ 52)) by lia.
    replace (Zpos mD * (C * E)) with (D * C * 2 ^ 52)
      by (replace (Zpos mD * (C * E)) with (C * (Zpos mD * E)) by ring; rewrite HDval; ring).
    set (X := Z.abs (Zpos m * J * (D * C) - N * 2 ^ a)) in *.
    clear - Hn. lia. }
  assert (Zpos mD * (C * E) <= Zpos mD * U) as HCE.
  { rewrite HU. apply Z.mul_le_mono_nonneg_l; [lia |]. clear - HJ HCEpos. nia. }
  assert (Zpos mD * U < 2 ^ 53 * U) as HmDU by (apply Z.mul_lt_mono_pos_r; lia).
  clear Hround Hrange.
  (* the exponent of the product *)
  assert (u + 63 <= v <= u + 106) as HT.
  { split.
    - destruct (Z_le_gt_dec (u + 63) v) as [| Hgt]; [done |]. exfalso.
      assert (V <= 2 ^ 62 * U) as HVU.
      { subst V U. rewrite <- Z.pow_add_r by (subst u; lia).
        apply Z.pow_le_mono_r; [lia |]. subst v. lia. }
      assert (N * V <= (2 ^ 42 - 1) * (2 ^ 62 * U)) as HNV
        by (apply Z.mul_le_mono_nonneg; lia).
      assert (2 ^ 104 * U <= A2 * U) as HAU by (apply Z.mul_le_mono_nonneg_r; lia).
      clear - HNV HAU Hnear1 HCE HmDU HUpos. lia.
    - destruct (Z_le_gt_dec v (u + 106)) as [| Hgt]; [done |]. exfalso.
      assert (2 ^ 107 * U <= V) as HVU.
      { subst V U. rewrite <- Z.pow_add_r by (subst u; lia).
        apply Z.pow_le_mono_r; [lia |]. subst v. lia. }
      assert (V <= N * V) as HNV by (clear - HN HV; nia).
      assert (A2 * U < 2 ^ 106 * U) as HAU by (apply Z.mul_lt_mono_pos_r; lia).
      clear - HVU HNV HAU Hnear1 HCE HmDU HUpos. lia. }
  set (T := v - u).
  assert (V = 2 ^ T * U) as HVT
    by (subst V U T; rewrite <- Z.pow_add_r by (subst u v; lia); f_equal; lia).
  assert (0 < 2 ^ T) as HpT by (apply Z.pow_pos_nonneg; subst T; lia).
  assert (2 * Z.abs (A2 - N * 2 ^ T) <= Zpos mD) as Hnear1'.
  { assert (2 * Z.abs (A2 * U - N * V) <= Zpos mD * U) as Hn by lia.
    replace (A2 * U - N * V) with ((A2 - N * 2 ^ T) * U) in Hn by (rewrite HVT; ring).
    rewrite Z.abs_mul, (Z.abs_eq U) in Hn by lia.
    set (X := Z.abs (A2 - N * 2 ^ T)) in *.
    clear - Hn HUpos. nia. }
  assert (e + eD = - T) as HeT by (subst T u v j; lia).
  rewrite HeT.
  clear Hnear1 HCE HmDU HVT HU.
  (* the second rounding *)
  set (dq := Zdigits2 A2).
  assert (105 <= dq <= 106) as Hdq.
  { subst dq. split.
    - apply Zdigits2_ge; [lia |]. change (105 - 1) with 104. lia.
    - apply Zdigits2_le; lia. }
  destruct (binary_round_aux_rounds neg A2 1 A2 (- T) loc_Exact
              (shr_represents_exact A2 ltac:(lia)))
    as (mw & ew & Hw & Hmw & Hew & Hround2 & _);
    [fold dq; lia | fold dq; subst T; lia | fold dq; subst T; lia |].
  fold dq in Hew, Hround2.
  set (k2 := dq - 53) in *.
  set (j2 := ew - (- T + k2)) in *.
  assert (0 <= j2 <= 1) as Hj2 by (subst j2; lia).
  rewrite Z.mul_1_l in Hround2.
  assert (0 < 2 ^ k2) as Hpk2 by (apply Z.pow_pos_nonneg; subst k2; lia).
  assert (2 ^ k2 <= 2 ^ 53) as Hk2le by (apply Z.pow_le_mono_r; subst k2; lia).
  destruct (round_half_even_nearest A2 (2 ^ k2)) as [_ Hnear2]; [lia | lia |].
  rewrite <- Hround2 in Hnear2.
  set (h := T - k2 - j2).
  assert (9 <= h) as Hh by (subst h k2 T; lia).
  assert (ew = - h) as Hewh by (subst h j2; lia).
  rewrite Hewh in Hw.
  set (d := 2 ^ h). assert (0 < d) as Hd by (subst d; apply Z.pow_pos_nonneg; lia).
  set (K := 2 ^ j2 * 2 ^ k2).
  assert (1 <= 2 ^ j2) as Hpj2
    by (assert (0 < 2 ^ j2) by (apply Z.pow_pos_nonneg; lia); lia).
  assert (0 < K) as HK by (subst K; apply Z.mul_pos_pos; lia).
  assert (2 ^ T = d * K) as HTd.
  { subst d K. rewrite <- !Z.pow_add_r by (subst k2; lia). f_equal. subst h. lia. }
  assert (2 ^ 63 <= 2 ^ T) as HT63 by (apply Z.pow_le_mono_r; subst T; lia).
  assert (2 ^ 10 * Z.abs (Zpos mw - N * d) < d) as Hnear.
  { assert (2 * Z.abs (Zpos mw * K - N * 2 ^ T) < 2 ^ 54) as Hsum.
    { replace (Zpos mw * K - N * 2 ^ T)
        with ((Zpos mw * 2 ^ j2 * 2 ^ k2 - A2) + (A2 - N * 2 ^ T)) by (subst K; ring).
      change (2 ^ 54) with (2 ^ 53 + 2 ^ 53).
      clear - Hnear2 Hnear1' Hk2le HmD. lia. }
    replace (Zpos mw * K - N * 2 ^ T) with ((Zpos mw - N * d) * K) in Hsum
      by (rewrite HTd; ring).
    rewrite Z.abs_mul, (Z.abs_eq K) in Hsum by lia.
    rewrite HTd in HT63.
    set (X := Z.abs (Zpos mw - N * d)) in *.
    assert (0 <= X) as HX by (subst X; apply Z.abs_nonneg).
    change (2 ^ 54) with (2 * 2 ^ 53) in Hsum.
    change (2 ^ 63) with (2 ^ 10 * 2 ^ 53) in HT63.
    destruct (Z_lt_ge_dec (2 ^ 10 * X) d) as [| Hge]; [done |]. exfalso.
    assert (d * K <= 2 ^ 10 * X * K) as Hmul by (apply Z.mul_le_mono_nonneg_r; lia).
    clear - Hsum HT63 Hmul. lia. }
  assert (h <= 53) as Hh53.
  { destruct (Z_le_gt_dec h 53) as [| Hgt]; [done |]. exfalso.
    assert (2 ^ 54 <= d) as Hd54 by (subst d; apply Z.pow_le_mono_r; lia).
    change (2 ^ 54) with (2 * 2 ^ 53) in *. change (2 ^ 10) with 1024 in *.
    assert (d <= N * d) as HNd by (clear - HN Hd; nia).
    clear - Hd54 HNd Hnear Hmw. lia. }
  exists mw, h. split; [exact Hw |]. split; [lia |]. split; [lia | exact Hnear].
Qed.

Lemma math_Round_near (neg : bool) (mw pN : positive) (h : Z) :
  0 < h ->
  2 ^ 10 * Z.abs (Zpos mw - Zpos pN * 2 ^ h) < 2 ^ h ->
  math_Round (S754_finite neg mw (- h)) = binary_round 53 1024 neg pN 0.
Proof.
  intros Hh Hnear. unfold math_Round.
  destruct (0 <=? - h) eqn:He; [apply Z.leb_le in He; lia |].
  rewrite Z.opp_involutive.
  set (d := 2 ^ h) in *.
  assert (0 < d) as Hd by (subst d; apply Z.pow_pos_nonneg; lia).
  cbv zeta. rewrite half_away_quotient by lia.
  assert ((2 * Zpos mw + d) / (2 * d) = Zpos pN) as ->.
  { symmetry. apply (Z.div_unique _ (2 * d) _ (2 * Zpos mw + d - 2 * d * Zpos pN)); lia. }
  by destruct neg.
Qed.

Lemma FloatToInt_literal (unrepresentable : float64 -> Z) (k power : Z) :
  0 <= power <= 22 -> Z.abs k < 2 ^ 42 ->
  FloatToInt unrepresentable (f64_lit k power) power = Ok k.
Proof.
  intros Hpower Hk.
  destruct (math_Pow10_exact power Hpower) as (mD & eD & Hy & HmD & HeD & HD).
  unfold FloatToInt. rewrite Hy. unfold f64_lit.
  set (D := 10 ^ power) in *. set (neg := k <? 0). set (N := Z.abs k) in *.
  assert (0 < D) as HDpos by (subst D; apply Z.pow_pos_nonneg; lia).
  destruct (Z.eq_dec N 0) as [HN0 | HN0].
  { assert (k = 0) as -> by lia. subst neg N. reflexivity. }
  assert (Zdigits2 D <= 1000) as HdD.
  { apply Zdigits2_le; [lia |]. split; [lia |].
    assert (D <= 10 ^ 22) by (subst D; apply Z.pow_le_mono_r; lia).
    assert (10 ^ 22 < 2 ^ 1000) by (by vm_compute). lia. }
  destruct (f64_mul_ratio_near neg N D mD eD ltac:(lia) HDpos HdD HmD HeD HD)
    as (mw & h & -> & Hh & Hmw & Hnear).
  destruct N as [| pN | pN] eqn:HN; [lia | | lia].
  rewrite (math_Round_near neg mw pN h ltac:(lia) Hnear).
  assert (cond_Zopp neg (Zpos pN) = k) as Hkval.
  { subst neg. destruct (Z.ltb_spec k 0); cbn [cond_Zopp]; lia. }
  assert (int64_of_float64 unrepresentable (binary_round 53 1024 neg pN 0) = k) as Hint.
  { unfold int64_of_float64. rewrite f64_trunc_binary_round by lia. rewrite Hkval.
    destruct (Z.leb_spec (- 2 ^ 63) k); [| lia].
    destruct (Z.ltb_spec k (2 ^ 63)); [reflexivity | lia]. }
  rewrite Hint.
  destruct (binary_round_exact neg pN 0 ltac:(lia) ltac:(lia)) as (mN & -> & HeN & HmN).
  set (eN := Z.max (Zpos (digits2_pos pN) + 0 - 53) (- 1074)) in *.
  assert (- 52 <= eN) as HeN52.
  { subst eN. pose proof (Pos2Z.is_pos (digits2_pos pN)). lia. }
  unfold f64_sub. cbn [SFsub].
  set (ez := Z.min eN (- h)).
  rewrite !shl_align_value by (subst ez; lia).
  rewrite f64_difference_below_1e_3; [reflexivity | subst ez; lia |].
  set (P := 2 ^ (- h - ez)).
  assert (0 < P) as HP by (subst P; apply Z.pow_pos_nonneg; subst ez; lia).
  assert (Zpos mN * 2 ^ (eN - ez) = Zpos pN * 2 ^ h * P) as ->.
  { rewrite HmN. subst P. rewrite <- !Z.mul_assoc, <- !Z.pow_add_r by (subst ez; lia).
    f_equal. f_equal. lia. }
  assert (2 ^ (- ez) = 2 ^ h * P) as ->
    by (subst P; rewrite <- Z.pow_add_r by (subst ez; lia); f_equal; lia).
  fold P.
  assert (Z.abs (cond_Zopp neg (Zpos pN * 2 ^ h * P) - cond_Zopp neg (Zpos mw * P))
          = Z.abs (Zpos mw - Zpos pN * 2 ^ h) * P) as ->.
  { rewrite <- (Z.abs_eq P) at 3 by lia. rewrite <- Z.abs_mul.
    destruct neg; cbn [cond_Zopp]; lia. }
  set (X := Z.abs (Zpos mw - Zpos pN * 2 ^ h)) in *.
  clear - Hnear HP. nia.
Qed.

(** X18.  A decimal with at most 22 fractional digits whose digits are below
    [2^42] converts to the integer of its digits: [FloatToInt] of the float64
    nearest to [k / 10^power] is [k]; so are [FloatToUSDInt] at six and
    [FloatToIntForHashing] at eight fractional digits. *)
Theorem FloatToInt_decimal_literal (unrepresentable : float64 -> Z) (k : Z) :
  Z.abs k < 2 ^ 42 ->
  (forall power, 0 <= power <= 22 ->
     FloatToInt unrepresentable (f64_lit k power) power = Ok k)
  /\ FloatToUSDInt unrepresentable (f64_lit k 6) = Ok k
  /\ FloatToIntForHashing unrepresentable (f64_lit k 8) = Ok k.
Proof.
  intros Hk. split; [| split].
  - intros power Hpower. by apply FloatToInt_literal.
  - unfold FloatToUSDInt. apply FloatToInt_literal; [lia | exact Hk].
  - unfold FloatToIntForHashing. apply FloatToInt_literal; [lia | exact Hk].
Qed.

Lemma FloatToInt_decimal_literal_instance :
  FloatToUSDInt (fun _ => 0) (f64_lit 1234567890123 6) = Ok 1234567890123.
Proof.
  apply (FloatToInt_decimal_literal (fun _ => 0) 1234567890123). by vm_compute.
Defined.

(** ** Client order ids *)

Lemma parse_uint_hex_digit (d : Z) (s : string) (n : Z) :
  0 <= d < 16 ->
  parse_uint_digits 16 (String (hex_digit d) s) n
  = if 2 ^ 64 <=? n * 16 + d then None else parse_uint_digits 16 s (n * 16 + d).
Proof.
  intros Hd.
  assert (d = 0 \/ d = 1 \/ d = 2 \/ d = 3 \/ d = 4 \/ d = 5 \/ d = 6 \/ d = 7 \/ d = 8
          \/ d = 9 \/ d = 10 \/ d = 11 \/ d = 12 \/ d = 13 \/ d = 14 \/ d = 15) as Hcases by lia.
  repeat (destruct Hcases as [-> | Hcases]; [reflexivity |]).
  subst d. reflexivity.
Qed.

Lemma hex_digit_not_underscore (d : Z) : 0 <= d < 16 -> Ascii.eqb "_" (hex_digit d) = false.
Proof.
  intros Hd.
  assert (d = 0 \/ d = 1 \/ d = 2 \/ d = 3 \/ d = 4 \/ d = 5 \/ d = 6 \/ d = 7 \/ d = 8
          \/ d = 9 \/ d = 10 \/ d = 11 \/ d = 12 \/ d = 13 \/ d = 14 \/ d = 15) as Hcases by lia.
  repeat (destruct Hcases as [-> | Hcases]; [reflexivity |]).
  subst d. reflexivity.
Qed.

Lemma parse_uint_hex_loop (fuel : nat) (n : Z) (acc : string) :
  0 <= n < 16 ^ Z.of_nat fuel -> n < 2 ^ 64 ->
  parse_uint_digits 16 (hex_loop fuel n acc) 0 = parse_uint_digits 16 acc n.
Proof.
  revert n acc. induction fuel as [| fuel IH]; intros n acc Hn H64.
  - cbn in Hn. assert (n = 0) as -> by lia. reflexivity.
  - cbn [hex_loop].
    assert (0 <= n mod 16 < 16) as Hmod by (apply Z.mod_pos_bound; lia).
    destruct (n <? 16) eqn:Hlt.
    + apply Z.ltb_lt in Hlt. rewrite Z.mod_small by lia.
      rewrite parse_uint_hex_digit by lia.
      destruct (2 ^ 64 <=? 0 * 16 + n) eqn:Hle; [apply Z.leb_le in Hle; lia |].
      f_equal.
    + apply Z.ltb_ge in Hlt.
      rewrite Nat2Z.inj_succ, Z.pow_succ_r in Hn by lia.
      rewrite IH.
      * rewrite parse_uint_hex_digit by lia.
        assert (n / 16 * 16 + n mod 16 = n) as -> by (rewrite (Z.div_mod n 16) at 3; lia).
        destruct (2 ^ 64 <=? n) eqn:Hle; [apply Z.leb_le in Hle; lia | reflexivity].
      * split; [apply Z.div_pos; lia | apply Z.div_lt_upper_bound; lia].
      * assert (n / 16 <= n) by (apply Z.div_le_upper_bound; lia). lia.
Qed.

Lemma log2_fuel (n : Z) : 0 <= n -> n < 16 ^ Z.of_nat (S (Z.to_nat (Z.log2 n))).
Proof.
  intros Hn. destruct (Z.eq_dec n 0) as [-> | Hne]; [cbn; lia |].
  destruct (Z.log2_spec n ltac:(lia)) as [_ Hhi].
  pose proof (Z.log2_nonneg n) as Hl.
  rewrite Nat2Z.inj_succ, Z2Nat.id by lia.
  eapply Z.lt_le_trans; [exact Hhi |].
  change 16 with (2 ^ 4). rewrite <- Z.pow_mul_r by lia.
  apply Z.pow_le_mono_r; lia.
Qed.

Lemma parse_uint_hex_digits (n : Z) :
  0 <= n < 2 ^ 64 -> parse_uint_digits 16 (hex_digits n) 0 = Some n.
Proof.
  intros Hn. unfold hex_digits. rewrite parse_uint_hex_loop; [reflexivity | | lia].
  split; [lia | apply log2_fuel; lia].
Qed.

Lemma length_hex_loop (fuel k : nat) (n : Z) (acc : string) :
  (1 <= k)%nat -> (1 <= fuel)%nat -> 0 <= n < 16 ^ Z.of_nat k ->
  (String.length acc < String.length (hex_loop fuel n acc) <= String.length acc + k)%nat.
Proof.
  revert k n acc. induction fuel as [| fuel IH]; intros k n acc Hk Hfuel Hn; [lia |].
  cbn [hex_loop]. destruct (n <? 16) eqn:Hlt.
  - cbn [String.length]. lia.
  - apply Z.ltb_ge in Hlt.
    destruct k as [| [| k]]; [lia | cbn in Hn; lia |].
    destruct fuel as [| fuel]; [cbn [hex_loop String.length]; lia |].
    rewrite (Nat2Z.inj_succ (S k)), Z.pow_succ_r in Hn by lia.
    specialize (IH (S k) (n / 16) (String (hex_digit (n mod 16)) acc)).
    cbn [String.length] in IH.
    assert (0 <= n / 16 < 16 ^ Z.of_nat (S k))
      by (split; [apply Z.div_pos; lia | apply Z.div_lt_upper_bound; lia]).
    lia.
Qed.

Lemma length_hex_digits (n : Z) :
  0 <= n < 2 ^ 64 -> (1 <= String.length (hex_digits n) <= 16)%nat.
Proof.
  intros Hn. unfold hex_digits.
  pose proof (length_hex_loop (S (Z.to_nat (Z.log2 n))) 16 n EmptyString) as H.
  cbn [String.length] in H. apply H; [lia | lia |].
  change (16 ^ Z.of_nat 16) with (2 ^ 64). lia.
Qed.

Lemma no_underscore_hex_loop (fuel : nat) (n : Z) (acc : string) :
  0 <= n ->
  existsb (Ascii.eqb "_") (list_ascii_of_string acc) = false ->
  existsb (Ascii.eqb "_") (list_ascii_of_string (hex_loop fuel n acc)) = false.
Proof.
  revert n acc. induction fuel as [| fuel IH]; intros n acc Hn Hacc; [exact Hacc |].
  cbn [hex_loop].
  assert (0 <= n mod 16 < 16) as Hmod by (apply Z.mod_pos_bound; lia).
  assert (existsb (Ascii.eqb "_")
            (list_ascii_of_string (String (hex_digit (n mod 16)) acc)) = false) as Hacc'.
  { cbn [list_ascii_of_string existsb]. by rewrite hex_digit_not_underscore, Hacc. }
  destruct (n <? 16); [exact Hacc' |].
  apply IH; [apply Z.div_pos; lia | exact Hacc'].
Qed.

Lemma string_of_repeat_cons (c : ascii) (k : nat) :
  string_of_list_ascii (repeat c (S k)) = String c (string_of_list_ascii (repeat c k)).
Proof. reflexivity. Qed.

Lemma length_string_of_repeat (c : ascii) (k : nat) :
  String.length (string_of_list_ascii (repeat c k)) = k.
Proof. induction k as [| k IH]; [reflexivity |]. cbn [repeat string_of_list_ascii String.length]. lia. Qed.

(** Zeros in front of a number do not change what [ParseUint] reads. *)
Lemma parse_uint_zeros (k : nat) (s : string) :
  parse_uint_digits 16 (string_of_list_ascii (repeat "0"%char k) +:+ s) 0
  = parse_uint_digits 16 s 0.
Proof.
  induction k as [| k IH]; [by rewrite append_nil_l |].
  rewrite string_of_repeat_cons, append_cons.
  change "0"%char with (hex_digit 0). rewrite parse_uint_hex_digit by lia.
  change (2 ^ 64 <=? 0 * 16 + 0) with false. cbn iota.
  change (0 * 16 + 0) with 0. exact IH.
Qed.

Lemma no_underscore_zeros (k : nat) (s : string) :
  existsb (Ascii.eqb "_") (list_ascii_of_string s) = false ->
  existsb (Ascii.eqb "_")
    (list_ascii_of_string (string_of_list_ascii (repeat "0"%char k) +:+ s)) = false.
Proof.
  intros Hs. induction k as [| k IH]; [by rewrite append_nil_l |].
  rewrite string_of_repeat_cons, append_cons. cbn [list_ascii_of_string existsb].
  rewrite IH. reflexivity.
Qed.

(** The text of [%#0<width>x] for a natural number with fewer digits than
    the width: [0x] and [width] digits. *)
Lemma fmt_Sprintf_0x_nonneg (width : nat) (n : Z) :
  0 <= n < 2 ^ 64 -> (16 <= width)%nat ->
  fmt_Sprintf_0x true width n
  = String "0" (String "x"
      (string_of_list_ascii (repeat "0"%char (width - String.length (hex_digits n)))
         +:+ hex_digits n))
  /\ String.length (fmt_Sprintf_0x true width n) = (2 + width)%nat.
Proof.
  intros Hn Hw. pose proof (length_hex_digits n Hn) as Hlen.
  set (digits := string_of_list_ascii _ +:+ hex_digits n).
  assert (String.length digits = width) as Hd.
  { subst digits. rewrite length_append, length_string_of_repeat. lia. }
  assert (fmt_Sprintf_0x true width n = String "0" (String "x" digits)) as ->.
  { unfold fmt_Sprintf_0x.
    destruct (n <? 0) eqn:Hneg; [apply Z.ltb_lt in Hneg; lia |].
    rewrite Z.abs_eq by lia. unfold pad_left at 2. fold digits.
    change ("0x" +:+ digits) with (String "0" (String "x" digits)).
    unfold pad_left. cbn [String.length]. rewrite Hd.
    replace (width - S (S width))%nat with 0%nat by lia.
    cbn [repeat string_of_list_ascii]. by rewrite append_nil_l. }
  cbn [String.length]. split; [reflexivity | lia].
Qed.

Lemma fmt_Sprintf_0x_neg (width : nat) (n : Z) :
  - 2 ^ 64 < n < 0 -> (17 <= width)%nat ->
  fmt_Sprintf_0x true width n
  = String "-" (String "0" (String "x"
      (string_of_list_ascii (repeat "0"%char (width - 1 - String.length (hex_digits (- n))))
         +:+ hex_digits (- n))))
  /\ String.length (fmt_Sprintf_0x true width n) = (2 + width)%nat.
Proof.
  intros Hn Hw. pose proof (length_hex_digits (- n) ltac:(lia)) as Hlen.
  set (digits := string_of_list_ascii _ +:+ hex_digits (- n)).
  assert (String.length digits = (width - 1)%nat) as Hd.
  { subst digits. rewrite length_append, length_string_of_repeat. lia. }
  assert (fmt_Sprintf_0x true width n = String "-" (String "0" (String "x" digits))) as ->.
  { unfold fmt_Sprintf_0x.
    destruct (n <? 0) eqn:Hneg; [| apply Z.ltb_ge in Hneg; lia].
    rewrite Z.abs_neq by lia. unfold pad_left at 2. fold digits.
    change ("-" +:+ ("0x" +:+ digits)) with (String "-" (String "0" (String "x" digits))).
    unfold pad_left. cbn [String.length]. rewrite Hd.
    replace (width - S (S (S (width - 1))))%nat with 0%nat by lia.
    cbn [repeat string_of_list_ascii]. by rewrite append_nil_l. }
  cbn [String.length]. split; [reflexivity | lia].
Qed.

Lemma strconv_ParseUint_0x (k : nat) (n : Z) :
  0 <= n < 2 ^ 64 ->
  strconv_ParseUint
    (String "0" (String "x" (string_of_list_ascii (repeat "0"%char k) +:+ hex_digits n)))
  = Some n.
Proof.
  intros Hn. pose proof (length_hex_digits n Hn) as Hlen.
  unfold strconv_ParseUint.
  change (Ascii.eqb "0" "0") with true. cbn iota.
  set (r := string_of_list_ascii (repeat "0"%char k) +:+ hex_digits n).
  assert ((3 <=? String.length (String "0" (String "x" r)))%nat = true) as ->.
  { apply Nat.leb_le. subst r. cbn [String.length]. rewrite length_append. lia. }
  change (Ascii.eqb (lower "x") "b") with false.
  change (Ascii.eqb (lower "x") "o") with false.
  change (Ascii.eqb (lower "x") "x") with true.
  cbn [andb]. cbn iota.
  subst r. rewrite parse_uint_zeros, parse_uint_hex_digits by lia.
  rewrite no_underscore_zeros; [reflexivity |].
  unfold hex_digits. apply no_underscore_hex_loop; [lia | reflexivity].
Qed.

(** X8.  An integer made into a cloid and read back is the same integer. *)
Theorem Cloid_ToInt_NewCloidFromInt (cloid : Z) :
  - 2 ^ 63 <= cloid < 2 ^ 63 ->
  Cloid_ToInt (NewCloidFromInt cloid) = Ok cloid.
Proof.
  intros Hn. unfold Cloid_ToInt, NewCloidFromInt. cbn [rawCloid].
  destruct (Z_lt_ge_dec cloid 0) as [Hneg | Hpos].
  - destruct (fmt_Sprintf_0x_neg 34 cloid) as [-> _]; [lia | lia |].
    unfold strconv_ParseInt.
    change (Ascii.eqb "-" "+") with false. change (Ascii.eqb "-" "-") with true. cbn iota.
    rewrite strconv_ParseUint_0x by lia. cbn [negb andb].
    destruct (2 ^ 63 <? - cloid) eqn:Hlt; [apply Z.ltb_lt in Hlt; lia |].
    f_equal. lia.
  - destruct (fmt_Sprintf_0x_nonneg 34 cloid) as [-> _]; [lia | lia |].
    unfold strconv_ParseInt.
    change (Ascii.eqb "0" "+") with false. change (Ascii.eqb "0" "-") with false. cbn iota.
    rewrite strconv_ParseUint_0x by lia. cbn [negb andb].
    destruct (2 ^ 63 <=? cloid) eqn:Hle; [apply Z.leb_le in Hle; lia |].
    reflexivity.
Qed.

Lemma Cloid_ToInt_NewCloidFromInt_instance :
  Cloid_ToInt (NewCloidFromInt 1) = Ok 1.
Proof. apply (Cloid_ToInt_NewCloidFromInt 1). lia. Defined.

(** X9.  [NewCloidFromInt] never makes a cloid that [validate] accepts. *)
Theorem NewCloidFromInt_not_valid (cloid : Z) :
  - 2 ^ 63 <= cloid < 2 ^ 63 ->
  String.length (Cloid_ToRaw (NewCloidFromInt cloid)) = 36%nat
  /\ Cloid_validate (NewCloidFromInt cloid)
     = Some (fmt_Errorf (if cloid <? 0 then "cloid is not a hex string"
                         else "cloid is not 16 bytes"))
  /\ NewCloid (Cloid_ToRaw (NewCloidFromInt cloid))
     = Failed (fmt_Errorf (if cloid <? 0 then "cloid is not a hex string"
                           else "cloid is not 16 bytes")).
Proof.
  intros Hn. unfold NewCloid, Cloid_ToRaw, NewCloidFromInt, Cloid_validate. cbn [rawCloid].
  destruct (cloid <? 0) eqn:Hsign.
  - apply Z.ltb_lt in Hsign.
    destruct (fmt_Sprintf_0x_neg 34 cloid) as [Heq Hlen]; [lia | lia |].
    rewrite Hlen. split; [reflexivity |]. rewrite Heq.
    split; reflexivity.
  - apply Z.ltb_ge in Hsign.
    destruct (fmt_Sprintf_0x_nonneg 34 cloid) as [Heq Hlen]; [lia | lia |].
    rewrite Hlen. split; [reflexivity |]. rewrite Heq in Hlen |- *.
    cbn [strings_HasPrefix strip_prefix string_from String.length] in Hlen |- *.
    change (Ascii.eqb "0" "0") with true. change (Ascii.eqb "x" "x") with true. cbn iota.
    cbn [negb].
    assert (String.length (string_of_list_ascii
               (repeat "0"%char (34 - String.length (hex_digits cloid)))
             +:+ hex_digits cloid) = 34%nat) as -> by lia.
    split; reflexivity.
Qed.

Lemma NewCloidFromInt_not_valid_instance :
  Cloid_ToRaw (NewCloidFromInt 1) = "0x0000000000000000000000000000000001"%string
  /\ NewCloid (Cloid_ToRaw (NewCloidFromInt 1)) = Failed (fmt_Errorf "cloid is not 16 bytes").
Proof.
  split; [reflexivity |].
  apply (NewCloidFromInt_not_valid 1). lia.
Defined.

Lemma fold_be_ge (bs : list Z) (a : Z) :
  0 <= a -> Forall is_byte bs -> a <= fold_left (fun acc b => 256 * acc + b) bs a.
Proof.
  intros Ha Hbs. revert a Ha. induction Hbs as [| b bs Hb _ IH]; intros a Ha; [cbn; lia |].
  cbn [fold_left]. unfold is_byte in Hb. specialize (IH (256 * a + b) ltac:(lia)). lia.
Qed.

Lemma parse_uint_hex_EncodeToString (bs : list Z) (acc : Z) :
  0 <= acc < 2 ^ 64 -> Forall is_byte bs ->
  parse_uint_digits 16 (hex_EncodeToString bs) acc
  = let total := fold_left (fun acc b => 256 * acc + b) bs acc in
    if total <? 2 ^ 64 then Some total else None.
Proof.
  intros Hacc Hbs. revert acc Hacc.
  induction Hbs as [| b bs Hb Hbs IH]; intros acc Hacc; cbn zeta.
  - cbn [hex_EncodeToString parse_uint_digits fold_left].
    destruct (acc <? 2 ^ 64) eqn:Hlt; [reflexivity | apply Z.ltb_ge in Hlt; lia].
  - cbn [hex_EncodeToString fold_left]. unfold is_byte in Hb.
    assert (0 <= b / 16 < 16)
      by (split; [apply Z.div_pos; lia | apply Z.div_lt_upper_bound; lia]).
    assert (0 <= b mod 16 < 16) by (apply Z.mod_pos_bound; lia).
    assert (b = 16 * (b / 16) + b mod 16) as Hdm by (apply Z.div_mod; lia).
    pose proof (fold_be_ge bs (256 * acc + b) ltac:(lia) Hbs) as Hge.
    rewrite parse_uint_hex_digit by lia.
    destruct (2 ^ 64 <=? acc * 16 + b / 16) eqn:H1.
    { apply Z.leb_le in H1.
      destruct (_ <? 2 ^ 64) eqn:Hlt; [apply Z.ltb_lt in Hlt; lia | reflexivity]. }
    apply Z.leb_gt in H1. rewrite parse_uint_hex_digit by lia.
    replace ((acc * 16 + b / 16) * 16 + b mod 16) with (256 * acc + b) by lia.
    destruct (2 ^ 64 <=? 256 * acc + b) eqn:H2.
    { apply Z.leb_le in H2.
      destruct (_ <? 2 ^ 64) eqn:Hlt; [apply Z.ltb_lt in Hlt; lia | reflexivity]. }
    apply Z.leb_gt in H2. apply IH. lia.
Qed.

Lemma no_underscore_hex_EncodeToString (bs : list Z) :
  Forall is_byte bs ->
  existsb (Ascii.eqb "_") (list_ascii_of_string (hex_EncodeToString bs)) = false.
Proof.
  induction 1 as [| b bs Hb _ IH]; [reflexivity |].
  unfold is_byte in Hb. cbn [hex_EncodeToString list_ascii_of_string existsb].
  rewrite !hex_digit_not_underscore, IH; [reflexivity | |].
  - apply Z.mod_pos_bound; lia.
  - split; [apply Z.div_pos; lia | apply Z.div_lt_upper_bound; lia].
Qed.

(** X10.  [NewCloid] accepts [0x] followed by any 32 characters; the cloid of
    16 bytes converts to an integer exactly when it is below [2^63]. *)
Theorem Cloid_ToInt_16_bytes (bs : list Z) :
  length bs = 16%nat ->
  Forall is_byte bs ->
  (forall body, String.length body = 32%nat ->
     NewCloid (String "0" (String "x" body)) = Done {| rawCloid := String "0" (String "x" body) |})
  /\ NewCloid (hexutil_Encode bs) = Done {| rawCloid := hexutil_Encode bs |}
  /\ Cloid_ToInt {| rawCloid := hexutil_Encode bs |}
     = (if be_value bs <? 2 ^ 63 then Ok (be_value bs) else Err ErrParseInt).
Proof.
  intros Hlen Hbs.
  assert (forall body, String.length body = 32%nat ->
            NewCloid (String "0" (String "x" body))
            = Done {| rawCloid := String "0" (String "x" body) |}) as Hnew.
  { intros body Hbody. unfold NewCloid, Cloid_validate. cbn [rawCloid].
    cbn [strings_HasPrefix strip_prefix string_from].
    change (Ascii.eqb "0" "0") with true. change (Ascii.eqb "x" "x") with true. cbn iota.
    rewrite Hbody. reflexivity. }
  split; [exact Hnew |].
  change (hexutil_Encode bs) with (String "0" (String "x" (hex_EncodeToString bs))).
  split; [apply Hnew; rewrite length_hex_EncodeToString; lia |].
  unfold Cloid_ToInt, strconv_ParseInt. cbn [rawCloid].
  change (Ascii.eqb "0" "+") with false. change (Ascii.eqb "0" "-") with false. cbn iota.
  unfold strconv_ParseUint.
  change (Ascii.eqb "0" "0") with true. cbn iota.
  assert ((3 <=? String.length (String "0" (String "x" (hex_EncodeToString bs))))%nat = true)
    as ->.
  { apply Nat.leb_le. cbn [String.length]. rewrite length_hex_EncodeToString. lia. }
  change (Ascii.eqb (lower "x") "b") with false.
  change (Ascii.eqb (lower "x") "o") with false.
  change (Ascii.eqb (lower "x") "x") with true.
  cbn [andb]. cbn iota.
  rewrite parse_uint_hex_EncodeToString by (done || lia). cbn zeta. fold (be_value bs).
  rewrite no_underscore_hex_EncodeToString by done. cbn [andb negb].
  pose proof (fold_be_ge bs 0 ltac:(lia) Hbs) as Hge. fold (be_value bs) in Hge.
  destruct (be_value bs <? 2 ^ 64) eqn:H64.
  - apply Z.ltb_lt in H64. cbn iota.
    destruct (2 ^ 63 <=? be_value bs) eqn:H63.
    + apply Z.leb_le in H63.
      destruct (be_value bs <? 2 ^ 63) eqn:Hlt; [apply Z.ltb_lt in Hlt; lia | reflexivity].
    + apply Z.leb_gt in H63.
      destruct (be_value bs <? 2 ^ 63) eqn:Hlt; [reflexivity | apply Z.ltb_ge in Hlt; lia].
  - apply Z.ltb_ge in H64.
    destruct (be_value bs <? 2 ^ 63) eqn:Hlt; [apply Z.ltb_lt in Hlt; lia | reflexivity].
Qed.

Lemma Cloid_ToInt_16_bytes_instance :
  Cloid_ToInt {| rawCloid := "0x00000000000000000000000000000001" |} = Ok 1
  /\ Cloid_ToInt {| rawCloid := "0xffffffffffffffffffffffffffffffff" |} = Err ErrParseInt.
Proof.
  split.
  - apply (Cloid_ToInt_16_bytes (replicate 15 0 ++ [1])); [reflexivity |].
    repeat constructor; unfold is_byte; lia.
  - apply (Cloid_ToInt_16_bytes (replicate 16 255)); [reflexivity |].
    repeat constructor; unfold is_byte; lia.
Defined.

(** ** The info client *)

Lemma setPerpMeta_loop_absent (universe : list AssetInfo) (asset offset : Z) (i : Info)
    (name : string) :
  (forall a, a ∈ universe -> asset_Name a <> name) ->
  coinToAsset (setPerpMeta_loop universe asset offset i) !! name = coinToAsset i !! name
  /\ nameToCoins (setPerpMeta_loop universe asset offset i) !! name = nameToCoins i !! name.
Proof.
  revert asset i. induction universe as [| a universe IH]; intros asset i Habs; [done |].
  cbn [setPerpMeta_loop].
  destruct (IH (asset + 1)
              {| info_baseURL := info_baseURL i;
                 info_wsManager := info_wsManager i;
                 coinToAsset := <[asset_Name a := asset + offset]> (coinToAsset i);
                 nameToCoins := <[asset_Name a := asset_Name a]> (nameToCoins i);
                 assetToSzDecimals :=
                   <[asset + offset := asset_SzDecimals a]> (assetToSzDecimals i) |})
    as [H1 H2].
  { intros b Hb. apply Habs. by right. }
  rewrite H1, H2. cbn [coinToAsset nameToCoins].
  assert (asset_Name a <> name) by (apply Habs; by left).
  by rewrite !lookup_insert_ne.
Qed.

Lemma setPerpMeta_loop_last (universe : list AssetInfo) (asset offset : Z) (i : Info)
    (k : nat) (a : AssetInfo) :
  universe !! k = Some a ->
  (forall j b, (k < j)%nat -> universe !! j = Some b -> asset_Name b <> asset_Name a) ->
  coinToAsset (setPerpMeta_loop universe asset offset i) !! asset_Name a
  = Some (asset + Z.of_nat k + offset)
  /\ nameToCoins (setPerpMeta_loop universe asset offset i) !! asset_Name a
     = Some (asset_Name a).
Proof.
  revert asset i k. induction universe as [| a0 universe IH]; intros asset i k Hk Hlast;
    [done |].
  cbn [setPerpMeta_loop]. destruct k as [| k].
  - injection Hk as ->.
    match goal with
    | |- context [setPerpMeta_loop universe ?s offset ?i0] =>
        destruct (setPerpMeta_loop_absent universe s offset i0 (asset_Name a)) as [H1 H2]
    end.
    { intros b Hb. apply list_elem_of_lookup in Hb as [j Hj].
      apply (Hlast (S j) b); [lia | exact Hj]. }
    rewrite H1, H2. cbn [coinToAsset nameToCoins]. rewrite !lookup_insert_eq.
    split; [f_equal; lia | reflexivity].
  - cbn in Hk.
    match goal with
    | |- context [setPerpMeta_loop universe ?s offset ?i0] =>
        destruct (IH s i0 k Hk) as [H1 H2]
    end.
    { intros j b Hj Hb. apply (Hlast (S j) b); [lia | exact Hb]. }
    rewrite H1, H2. split; [f_equal; lia | reflexivity].
Qed.

Lemma setPerpMeta_loop_decimals_out (universe : list AssetInfo) (asset offset : Z) (i : Info)
    (id : Z) :
  id < asset + offset \/ asset + offset + Z.of_nat (length universe) <= id ->
  assetToSzDecimals (setPerpMeta_loop universe asset offset i) !! id
  = assetToSzDecimals i !! id.
Proof.
  revert asset i. induction universe as [| a universe IH]; intros asset i Hid; [done |].
  cbn [setPerpMeta_loop]. cbn [length] in Hid. rewrite IH by lia.
  cbn [assetToSzDecimals]. rewrite lookup_insert_ne by lia. reflexivity.
Qed.

Lemma setPerpMeta_loop_decimals (universe : list AssetInfo) (asset offset : Z) (i : Info)
    (k : nat) (a : AssetInfo) :
  universe !! k = Some a ->
  assetToSzDecimals (setPerpMeta_loop universe asset offset i) !! (asset + Z.of_nat k + offset)
  = Some (asset_SzDecimals a).
Proof.
  revert asset i k. induction universe as [| a0 universe IH]; intros asset i k Hk; [done |].
  cbn [setPerpMeta_loop]. destruct k as [| k].
  - injection Hk as ->. rewrite setPerpMeta_loop_decimals_out by lia.
    cbn [assetToSzDecimals]. replace (asset + Z.of_nat 0 + offset) with (asset + offset) by lia.
    by rewrite lookup_insert_eq.
  - cbn in Hk.
    replace (asset + Z.of_nat (S k) + offset) with (asset + 1 + Z.of_nat k + offset) by lia.
    by apply IH.
Qed.

Lemma setPerpMeta_NameToAsset_aux (i : Info) (meta : Meta) (offset : Z) :
  (forall (k : nat) a,
     meta_Universe meta !! k = Some a ->
     (forall j b, (k < j)%nat -> meta_Universe meta !! j = Some b ->
                  asset_Name b <> asset_Name a) ->
     NameToAsset (setPerpMeta i meta offset) (asset_Name a) = Done (Z.of_nat k + offset))
  /\ (forall name,
        (forall a, a ∈ meta_Universe meta -> asset_Name a <> name) ->
        nameToCoins (setPerpMeta i meta offset) !! name = nameToCoins i !! name
        /\ coinToAsset (setPerpMeta i meta offset) !! name = coinToAsset i !! name).
Proof.
  unfold setPerpMeta. split.
  - intros k a Hk Hlast.
    destruct (setPerpMeta_loop_last _ 0 offset i k a Hk Hlast) as [H1 H2].
    unfold NameToAsset. rewrite H2, H1. f_equal.
  - intros name Habs.
    destruct (setPerpMeta_loop_absent _ 0 offset i name Habs) as [H1 H2]. by split.
Qed.

(** X11.  After [setPerpMeta], a name of the universe resolves to the position
    of its last entry plus the offset. *)
Theorem setPerpMeta_NameToAsset (i : Info) (meta : Meta) (offset : Z) :
  let i' := setPerpMeta i meta offset in
  (forall (k : nat) a,
     meta_Universe meta !! k = Some a ->
     (forall j b, (k < j)%nat -> meta_Universe meta !! j = Some b ->
                  asset_Name b <> asset_Name a) ->
     NameToAsset i' (asset_Name a) = Done (Z.of_nat k + offset))
  /\ (forall (k : nat) a,
        meta_Universe meta !! k = Some a ->
        assetToSzDecimals i' !! (Z.of_nat k + offset) = Some (asset_SzDecimals a))
  /\ (forall name,
        (forall a, a ∈ meta_Universe meta -> asset_Name a <> name) ->
        nameToCoins i' !! name = nameToCoins i !! name
        /\ coinToAsset i' !! name = coinToAsset i !! name)
  /\ (forall id,
        id < offset \/ offset + Z.of_nat (length (meta_Universe meta)) <= id ->
        assetToSzDecimals i' !! id = assetToSzDecimals i !! id).
Proof.
  intros i'. subst i'. unfold setPerpMeta. split; [| split; [| split]].
  - intros k a Hk Hlast.
    destruct (setPerpMeta_loop_last _ 0 offset i k a Hk Hlast) as [H1 H2].
    unfold NameToAsset. rewrite H2, H1. f_equal.
  - intros k a Hk. apply (setPerpMeta_loop_decimals _ 0 offset i k a Hk).
  - intros name Habs.
    destruct (setPerpMeta_loop_absent _ 0 offset i name Habs) as [H1 H2]. by split.
  - intros id Hid. apply setPerpMeta_loop_decimals_out. lia.
Qed.

Lemma NewInfo_spot_None (tokens : list SpotTokenInfo) (i : Info) (s : SpotAssetInfo) :
  NewInfo_spot tokens i s = None
  <-> slice_index tokens (fst (spot_Tokens s)) = None
      \/ slice_index tokens (snd (spot_Tokens s)) = None.
Proof.
  unfold NewInfo_spot.
  destruct (slice_index tokens (fst (spot_Tokens s))) as [b |]; cbn [mbind option_bind];
    [| by split; [left |]].
  destruct (slice_index tokens (snd (spot_Tokens s))) as [q |]; cbn [mbind option_bind];
    [| by split; [right |]].
  split; [discriminate | by intros [|]].
Qed.

Lemma NewInfo_spots_None (tokens : list SpotTokenInfo) (universe : list SpotAssetInfo)
    (i : Info) :
  NewInfo_spots tokens universe i = None
  <-> exists s, s ∈ universe
                /\ (slice_index tokens (fst (spot_Tokens s)) = None
                    \/ slice_index tokens (snd (spot_Tokens s)) = None).
Proof.
  revert i. induction universe as [| s universe IH]; intros i; cbn [NewInfo_spots].
  - split; [discriminate | intros (s & Hs & _); by apply elem_of_nil in Hs].
  - destruct (NewInfo_spot tokens i s) as [i1 |] eqn:Hstep; cbn [mbind option_bind].
    + rewrite IH. split.
      * intros (s' & Hs' & Hbad). exists s'. split; [by right | exact Hbad].
      * intros (s' & Hs' & Hbad). apply elem_of_cons in Hs' as [-> | Hs'].
        -- apply (proj2 (NewInfo_spot_None tokens i s)) in Hbad. congruence.
        -- by exists s'.
    + split; [| done]. intros _. exists s. split; [by left |].
      by apply NewInfo_spot_None in Hstep.
Qed.

Lemma NewInfo_spot_keep (tokens : list SpotTokenInfo) (i i' : Info) (s : SpotAssetInfo)
    (n : string) :
  NewInfo_spot tokens i s = Some i' ->
  spot_Name s <> n ->
  is_Some (nameToCoins i !! n) ->
  coinToAsset i' !! n = coinToAsset i !! n /\ nameToCoins i' !! n = nameToCoins i !! n.
Proof.
  unfold NewInfo_spot. intros Hstep Hne [c Hc].
  destruct (slice_index tokens (fst (spot_Tokens s))) as [b |]; cbn [mbind option_bind] in Hstep;
    [| discriminate].
  destruct (slice_index tokens (snd (spot_Tokens s))) as [q |]; cbn [mbind option_bind] in Hstep;
    [| discriminate].
  injection Hstep as <-. cbn [coinToAsset nameToCoins].
  split; [by rewrite lookup_insert_ne |].
  destruct (_ !! (token_Name b +:+ "/" +:+ token_Name q)) as [x |] eqn:Halias.
  - by rewrite lookup_insert_ne.
  - destruct (decide (token_Name b +:+ "/" +:+ token_Name q = n)) as [Heq | Hneq].
    + rewrite Heq, lookup_insert_ne, Hc in Halias by done. discriminate.
    + by rewrite !lookup_insert_ne.
Qed.

Lemma NewInfo_spots_keep (tokens : list SpotTokenInfo) (universe : list SpotAssetInfo)
    (i i' : Info) (n : string) :
  NewInfo_spots tokens universe i = Some i' ->
  (forall s, s ∈ universe -> spot_Name s <> n) ->
  is_Some (nameToCoins i !! n) ->
  coinToAsset i' !! n = coinToAsset i !! n /\ nameToCoins i' !! n = nameToCoins i !! n.
Proof.
  revert i. induction universe as [| s universe IH]; intros i Hrun Habs Hin;
    cbn [NewInfo_spots] in Hrun.
  - by injection Hrun as <-.
  - destruct (NewInfo_spot tokens i s) as [i1 |] eqn:Hstep; cbn [mbind option_bind] in Hrun;
      [| discriminate].
    destruct (NewInfo_spot_keep tokens i i1 s n Hstep) as [H1 H2]; [apply Habs; by left | done |].
    destruct (IH i1 Hrun) as [H3 H4].
    + intros s' Hs'. apply Habs. by right.
    + by rewrite H2.
    + by rewrite H3, H4.
Qed.

Lemma NewInfo_spots_last (tokens : list SpotTokenInfo) (universe : list SpotAssetInfo)
    (i i' : Info) (k : nat) (s : SpotAssetInfo) :
  NewInfo_spots tokens universe i = Some i' ->
  universe !! k = Some s ->
  (forall j b, (k < j)%nat -> universe !! j = Some b -> spot_Name b <> spot_Name s) ->
  coinToAsset i' !! spot_Name s = Some (spot_Index s + 10000)
  /\ nameToCoins i' !! spot_Name s = Some (spot_Name s).
Proof.
  revert i k. induction universe as [| s0 universe IH]; intros i k Hrun Hk Hlast; [done |].
  cbn [NewInfo_spots] in Hrun.
  destruct (NewInfo_spot tokens i s0) as [i1 |] eqn:Hstep; cbn [mbind option_bind] in Hrun;
    [| discriminate].
  destruct k as [| k].
  - injection Hk as ->.
    assert (coinToAsset i1 !! spot_Name s = Some (spot_Index s + 10000)
            /\ nameToCoins i1 !! spot_Name s = Some (spot_Name s)) as [H1 H2].
    { unfold NewInfo_spot in Hstep.
      destruct (slice_index tokens (fst (spot_Tokens s))) as [b |];
        cbn [mbind option_bind] in Hstep; [| discriminate].
      destruct (slice_index tokens (snd (spot_Tokens s))) as [q |];
        cbn [mbind option_bind] in Hstep; [| discriminate].
      injection Hstep as <-. cbn [coinToAsset nameToCoins].
      split; [by rewrite lookup_insert_eq |].
      destruct (_ !! (token_Name b +:+ "/" +:+ token_Name q)) as [x |] eqn:Halias.
      - by rewrite lookup_insert_eq.
      - destruct (decide (token_Name b +:+ "/" +:+ token_Name q = spot_Name s)) as [Heq | Hneq].
        + rewrite Heq, lookup_insert_eq in Halias. discriminate.
        + by rewrite lookup_insert_ne, lookup_insert_eq. }
    destruct (NewInfo_spots_keep tokens universe i1 i' (spot_Name s) Hrun) as [H3 H4].
    + intros b Hb. apply list_elem_of_lookup in Hb as [j Hj].
      apply (Hlast (S j) b); [lia | exact Hj].
    + by rewrite H2.
    + by rewrite H3, H4.
  - cbn in Hk. apply (IH i1 k Hrun Hk).
    intros j b Hj Hb. apply (Hlast (S j) b); [lia | exact Hb].
Qed.

Section InfoClientProperties.

Variable MainnetAPIURL : string.
Variable ws_Start : string -> option fmt_error.
Variable info_SpotMeta : string -> outcome SpotMeta.
Variable info_PerpDexs : string -> outcome Json.
Variable info_Meta : string -> string -> outcome Meta.

(** X12.  Given the metadata, [NewInfo] sends no request: it panics exactly
    when a spot pair names a token that the token list does not have, and
    otherwise returns a client in which a perp name resolves to its position
    and the name of a spot pair that no perp has to its index plus 10000. *)
Theorem NewInfo_given_metadata (baseURL : string) (meta : Meta) (spotMeta : SpotMeta) :
  let r := NewInfo MainnetAPIURL ws_Start info_SpotMeta info_PerpDexs info_Meta
             baseURL true (Some meta) (Some spotMeta) None in
  (r = None
   <-> exists s, s ∈ spotMeta_Universe spotMeta
                 /\ (slice_index (spotMeta_Tokens spotMeta) (fst (spot_Tokens s)) = None
                     \/ slice_index (spotMeta_Tokens spotMeta) (snd (spot_Tokens s)) = None))
  /\ (forall o, r = Some o ->
        exists info,
          o = Done info
          /\ (forall (k : nat) a,
                meta_Universe meta !! k = Some a ->
                (forall j b, (k < j)%nat -> meta_Universe meta !! j = Some b ->
                             asset_Name b <> asset_Name a) ->
                NameToAsset info (asset_Name a) = Done (Z.of_nat k))
          /\ (forall (k : nat) s,
                spotMeta_Universe spotMeta !! k = Some s ->
                (forall j b, (k < j)%nat -> spotMeta_Universe spotMeta !! j = Some b ->
                             spot_Name b <> spot_Name s) ->
                (forall a, a ∈ meta_Universe meta -> asset_Name a <> spot_Name s) ->
                NameToAsset info (spot_Name s) = Done (spot_Index s + 10000))).
Proof.
  intros r. subst r. unfold NewInfo. cbn [negb].
  set (info0 := {| info_baseURL := _; info_wsManager := false; coinToAsset := ∅;
                   nameToCoins := ∅; assetToSzDecimals := ∅ |}).
  destruct (NewInfo_spots (spotMeta_Tokens spotMeta) (spotMeta_Universe spotMeta) info0)
    as [i1 |] eqn:Hspots; cbn [mbind option_bind].
  - split.
    + split; [discriminate |]. intros Hbad.
      apply (proj2 (NewInfo_spots_None _ _ info0)) in Hbad. congruence.
    + intros o [= <-]. cbn [NewInfo_perps]. change (String.eqb "" "") with true. cbn iota.
      rewrite lookup_singleton_eq. cbn [default from_option]. unfold id.
      eexists. split; [reflexivity |].
      destruct (setPerpMeta_NameToAsset_aux i1 meta 0) as (Hperp & Habs). split.
      * intros k a Hk Hlast. rewrite (Hperp k a Hk Hlast). f_equal. lia.
      * intros k s Hk Hlast Hnoperp.
        destruct (NewInfo_spots_last _ _ _ _ k s Hspots Hk Hlast) as [H1 H2].
        destruct (Habs (spot_Name s) Hnoperp) as [H3 H4].
        unfold NameToAsset. rewrite H3, H2, H4, H1. reflexivity.
  - split; [| discriminate]. split; [| done]. intros _. by apply NewInfo_spots_None in Hspots.
Qed.

End InfoClientProperties.

(** ** The exchange client *)

Section ExchangeProperties.

Context `{Crypto}.

Variable range_order : list string -> list string.
Variable MainnetAPIURL : string.
Variable Post : string -> string -> gmap string Value -> outcome Json.

Lemma SignInner_Ok_inv (privateKey : PrivateKey) (data : TypedData) (sig : Signature) :
  SignInner privateKey data = Ok sig ->
  exists digest out,
    length digest = 32%nat /\ Forall is_byte digest
    /\ crypto_Sign digest privateKey = Ok out
    /\ sig = {| sig_R := hexutil_Encode (firstn 32 out);
                sig_S := hexutil_Encode (firstn 32 (skipn 32 out));
                sig_V := (nth 64 out 0 + 27) mod 256 |}.
Proof.
  unfold SignInner.
  destruct (HashStruct data "EIP712Domain" _) as [d |]; cbn [bind]; [| discriminate].
  destruct (HashStruct data (td_PrimaryType data) _) as [t |]; cbn [bind]; [| discriminate].
  destruct (crypto_Sign _ privateKey) as [out |] eqn:Hsign; cbn [bind]; [| discriminate].
  intros [= <-]. eexists. exists out.
  split; [apply length_sha3_Keccak256 |].
  split; [apply sha3_Keccak256_bytes |].
  split; [exact Hsign | reflexivity].
Qed.

(** X13.  The signature that the exchange client posts is one text: [r], [s]
    and [v] one after the other. *)
Theorem signature_text_format (privateKey : PrivateKey) (data : TypedData) (sig : Signature) :
  (forall digest out,
     length digest = 32%nat -> Forall is_byte digest ->
     crypto_Sign digest privateKey = Ok out ->
     length out = 65%nat /\ Forall is_byte out /\ (nth 64 out 0 = 0 \/ nth 64 out 0 = 1)) ->
  SignInner privateKey data = Ok sig ->
  exists r s,
    length r = 32%nat /\ length s = 32%nat /\ Forall is_byte r /\ Forall is_byte s
    /\ (sig_V sig = 27 \/ sig_V sig = 28)
    /\ signature_text sig
       = ("0x" +:+ hex_EncodeToString r) +:+ ("0x" +:+ hex_EncodeToString s)
           +:+ (if sig_V sig =? 27 then "1b" else "1c")
    /\ String.length (signature_text sig) = 134%nat.
Proof.
  intros Hformat Hsig.
  destruct (SignInner_Ok_inv _ _ _ Hsig) as (digest & out & Hd & Hdb & Hsign & ->).
  destruct (Hformat digest out Hd Hdb Hsign) as (Hlen & Hbytes & Hv).
  exists (firstn 32 out), (firstn 32 (skipn 32 out)).
  assert (length (firstn 32 out) = 32%nat) as Hr by (rewrite length_take; lia).
  assert (length (firstn 32 (skipn 32 out)) = 32%nat) as Hs
    by (rewrite length_take, length_drop; lia).
  split; [exact Hr |]. split; [exact Hs |].
  split; [by apply Forall_take |]. split; [by apply Forall_take, Forall_drop |].
  unfold signature_text. cbn [sig_R sig_S sig_V].
  change (hexutil_Encode ?bs) with ("0x" +:+ hex_EncodeToString bs).
  assert (forall tail : string,
            String.length (("0x" +:+ hex_EncodeToString (firstn 32 out))
                           +:+ ("0x" +:+ hex_EncodeToString (firstn 32 (skipn 32 out)))
                           +:+ tail)
            = (132 + String.length tail)%nat) as Hlength
    by (intros tail; rewrite !length_append, !length_hex_EncodeToString, Hr, Hs;
        cbn [String.length]; lia).
  destruct Hv as [-> | ->].
  - split; [by left |].
    change (fmt_Sprintf_0x false 2 ((0 + 27) mod 256)) with "1b"%string.
    split; [reflexivity | apply Hlength].
  - split; [by right |].
    change (fmt_Sprintf_0x false 2 ((1 + 27) mod 256)) with "1c"%string.
    split; [reflexivity | apply Hlength].
Qed.

Lemma BulkOrders_wires_Done (info : Info) (orderRequests : list OrderRequest)
    (orderWires : list OrderWire) :
  BulkOrders_wires info orderRequests = Done orderWires
  <-> Forall2 (converts info) orderRequests orderWires.
Proof.
  revert orderWires. induction orderRequests as [| order rest IH]; intros orderWires;
    cbn [BulkOrders_wires].
  - split; [intros [= <-]; constructor | intros Hall; by inversion Hall].
  - split.
    + destruct (NameToAsset info (req_Coin order)) as [asset | err] eqn:Hasset; [| discriminate].
      destruct (OrderRequestToOrderWire order asset) as [wire | err] eqn:Hwire; [| discriminate].
      destruct (BulkOrders_wires info rest) as [wires | err]; [| discriminate].
      intros [= <-]. constructor; [by exists asset | by apply IH].
    + intros Hall. inversion Hall as [| ? wire ? wires (asset & Hasset & Hwire) Hrest]; subst.
      rewrite Hasset, Hwire. apply IH in Hrest. by rewrite Hrest.
Qed.

Lemma BulkOrders_wires_Failed (info : Info) (orderRequests : list OrderRequest) (k : nat)
    (order : OrderRequest) :
  orderRequests !! k = Some order ->
  does_not_convert info order ->
  exists err, BulkOrders_wires info orderRequests = Failed err.
Proof.
  revert k. induction orderRequests as [| order0 rest IH]; intros k Hk Hbad; [done |].
  cbn [BulkOrders_wires].
  destruct (NameToAsset info (req_Coin order0)) as [asset | err] eqn:Hasset; [| by eexists].
  destruct (OrderRequestToOrderWire order0 asset) as [wire | err] eqn:Hwire; [| by eexists].
  destruct k as [| k].
  - injection Hk as ->. destruct Hbad as [[err Herr] | (asset' & err & Ha & Herr)]; congruence.
  - cbn in Hk. destruct (IH k Hk Hbad) as [err ->]. by eexists.
Qed.

(** X14.  [BulkOrders] posts nothing unless every request converts, and then
    posts the action of the wires in the order of the requests, with the
    clock reading as nonce and the signature of that action. *)
Theorem BulkOrders_posts (e : Exchange) (now : Z) (orderRequests : list OrderRequest)
    (builder : option BuilderInfo) :
  let signed orderWires :=
    SignL1Action range_order (ex_privateKey e)
      (VMap (OrderWiresToOrderAction orderWires (builder_B <$> builder)))
      (ex_vaultAddress e) (now mod 2 ^ 64) ((fun x => x mod 2 ^ 64) <$> ex_expiresAfter e)
      (String.eqb (ex_baseURL e) MainnetAPIURL) in
  (forall k order,
     orderRequests !! k = Some order -> does_not_convert (ex_info e) order ->
     exists err, BulkOrders range_order MainnetAPIURL Post e now orderRequests builder
                 = Failed err)
  /\ (forall orderWires err,
        Forall2 (converts (ex_info e)) orderRequests orderWires ->
        signed orderWires = Err err ->
        BulkOrders range_order MainnetAPIURL Post e now orderRequests builder
        = Failed (fmt_Errorf_w "failed to sign order action" (core_error err)))
  /\ (forall orderWires signature,
        Forall2 (converts (ex_info e)) orderRequests orderWires ->
        signed orderWires = Ok signature ->
        exists payload,
          BulkOrders range_order MainnetAPIURL Post e now orderRequests builder
          = Post (ex_baseURL e) "/exchange" payload
          /\ payload !! "action"
             = Some (VMap (OrderWiresToOrderAction orderWires (builder_B <$> builder)))
          /\ payload !! "nonce" = Some (VInt now)
          /\ payload !! "signature" = Some (VString (signature_text signature))
          /\ payload !! "vaultAddress" = VString <$> ex_vaultAddress e
          /\ payload !! "expiresAfter" = VInt <$> ex_expiresAfter e).
Proof.
  intros signed. unfold BulkOrders. split; [| split].
  - intros k order Hk Hbad.
    destruct (BulkOrders_wires_Failed _ _ k order Hk Hbad) as [err ->]. by exists err.
  - intros orderWires err Hall Hsigned. apply BulkOrders_wires_Done in Hall. rewrite Hall.
    unfold signed, uint64_of_int64 in *. by rewrite Hsigned.
  - intros orderWires signature Hall Hsigned. apply BulkOrders_wires_Done in Hall.
    rewrite Hall. unfold signed, uint64_of_int64 in *. rewrite Hsigned.
    unfold postAction.
    assert (OrderWiresToOrderAction orderWires (builder_B <$> builder) !! "type"
            = Some (VString "order")) as ->.
    { unfold OrderWiresToOrderAction. by destruct builder. }
    change (negb (String.eqb "order" "usdClassTransfer") && negb (String.eqb "order" "sendAsset"))
      with true. cbn iota.
    eexists. split; [reflexivity |].
    destruct (ex_vaultAddress e), (ex_expiresAfter e); by repeat split.
Qed.

(** [SignUserSignedAction] fails in [HashStruct] whenever the map, after the
    two assignments, has more entries than the type has fields. *)
Lemma SignUserSignedAction_extra_data (privateKey : PrivateKey) (action : nat)
    (payloadTypes : list apitypes_Type) (primaryType : string) (isMainnet : bool)
    (σ : Store) (m : gmap string Value) :
  extra_data_rule ->
  σ !! action = Some m ->
  (length payloadTypes < size (with_chain_fields isMainnet m))%nat ->
  exists err,
    SignUserSignedAction privateKey action payloadTypes primaryType isMainnet σ
    = Some (<[action := with_chain_fields isMainnet m]> σ, Err err)
    /\ bind (UserSignedPayload primaryType payloadTypes (with_chain_fields isMainnet m))
         (SignInner privateKey) = Err err.
Proof.
  intros Hrule Hm Hsize.
  rewrite (SignUserSignedAction_unfold _ _ _ _ _ _ m Hm).
  set (message := with_chain_fields isMainnet m) in *.
  assert (message !! "signatureChainId" = Some (VString "0x66eee")) as Hid.
  { unfold message, with_chain_fields. rewrite lookup_insert_ne by done.
    apply lookup_insert_eq. }
  unfold UserSignedPayload. rewrite Hid.
  change (strconv_ParseInt "0x66eee") with (Ok 421614). cbn [bind].
  unfold SignInner. cbn [td_Domain td_PrimaryType td_Message td_Types].
  destruct (HashStruct _ "EIP712Domain" _) as [d | err]; cbn [bind].
  - match goal with
    | |- context [HashStruct ?data primaryType message] =>
        destruct (Hrule data primaryType message) as [err Herr]
    end.
    + cbn [td_Types]. rewrite lookup_insert_eq. exact Hsize.
    + rewrite Herr. cbn [bind]. by exists err.
  - by exists err.
Qed.

(** X15.  [UsdTransfer] never posts: the map that it signs has six entries
    for the four fields of the type, which [HashStruct] refuses, so the
    result is the error of the signing, for every amount and destination. *)
Theorem UsdTransfer_never_posts (e : Exchange) (now : Z) (amount : float64)
    (destination : string) (σ : Store) :
  extra_data_rule ->
  let isMainnet := String.eqb (ex_baseURL e) MainnetAPIURL in
  let transfer : gmap string Value :=
    <["type" := VString "usdSend"]>
      (<["time" := VInt now]>
         (<["amount" := VString (fmt_Sprintf_f 6 amount)]>
            (<["destination" := VString destination]> ∅))) in
  let message := with_chain_fields isMainnet transfer in
  let action := fresh (dom σ) in
  size message = 6%nat
  /\ length USDSendSignTypes = 4%nat
  /\ exists err,
       bind (UserSignedPayload "HyperliquidTransaction:UsdSend" USDSendSignTypes message)
         (SignInner (ex_privateKey e)) = Err err
       /\ UsdTransfer MainnetAPIURL Post e now amount destination σ
          = Some (<[action := message]> σ,
                  Failed (fmt_Errorf_w "failed to sign USD transfer action" (core_error err))).
Proof.
  intros Hrule isMainnet transfer message action.
  assert (size message = 6%nat) as Hsize.
  { unfold message, with_chain_fields, transfer.
    rewrite !map_size_insert_None;
      [by rewrite map_size_empty | rewrite ?lookup_insert_ne by done; apply lookup_empty ..]. }
  split; [exact Hsize |]. split; [reflexivity |].
  unfold UsdTransfer, new_map, SignUSDTransferAction. fold action transfer isMainnet.
  destruct (SignUserSignedAction_extra_data (ex_privateKey e) action USDSendSignTypes
              "HyperliquidTransaction:UsdSend" isMainnet (<[action := transfer]> σ) transfer
              Hrule (lookup_insert_eq _ _ _))
    as (err & Hsign & Herr).
  { fold message. rewrite Hsize. cbn. lia. }
  rewrite Hsign. fold message. rewrite insert_insert_eq. cbn [mbind option_bind].
  exists err. split; [exact Herr | reflexivity].
Qed.

(** X16.  [UsdClassTransfer] never posts: the map that it signs, whose
    amount has the vault address appended when the client has one, has six
    entries for the four fields of the type, which [HashStruct] refuses, so
    the result is the error of the signing. *)
Theorem UsdClassTransfer_never_posts (e : Exchange) (now : Z) (amount : float64)
    (toPerp : bool) (σ : Store) :
  extra_data_rule ->
  let isMainnet := String.eqb (ex_baseURL e) MainnetAPIURL in
  let strAmount :=
    match ex_vaultAddress e with
    | Some vault => fmt_Sprintf_f 6 amount +:+ " subaccount:" +:+ vault
    | None => fmt_Sprintf_f 6 amount
    end in
  let transfer : gmap string Value :=
    <["nonce" := VInt now]>
      (<["toPerp" := VBool toPerp]>
         (<["amount" := VString strAmount]>
            (<["type" := VString "usdClassTransfer"]> ∅))) in
  let message := with_chain_fields isMainnet transfer in
  let action := fresh (dom σ) in
  size message = 6%nat
  /\ length USDClassTransferSignTypes = 4%nat
  /\ exists err,
       bind (UserSignedPayload "HyperliquidTransaction:UsdClassTransfer"
               USDClassTransferSignTypes message)
         (SignInner (ex_privateKey e)) = Err err
       /\ UsdClassTransfer MainnetAPIURL Post e now amount toPerp σ
          = Some (<[action := message]> σ,
                  Failed (fmt_Errorf_w "failed to sign USD class transfer action"
                            (core_error err))).
Proof.
  intros Hrule isMainnet strAmount transfer message action.
  assert (size message = 6%nat) as Hsize.
  { unfold message, with_chain_fields, transfer.
    rewrite !map_size_insert_None;
      [by rewrite map_size_empty | rewrite ?lookup_insert_ne by done; apply lookup_empty ..]. }
  split; [exact Hsize |]. split; [reflexivity |].
  unfold UsdClassTransfer, new_map, SignUSDClassTransferAction.
  assert (match ex_vaultAddress e with
          | Some vault => fmt_Sprintf_f 6 amount +:+ (" subaccount:" +:+ vault)
          | None => fmt_Sprintf_f 6 amount
          end = strAmount) as -> by (by destruct (ex_vaultAddress e)).
  fold action transfer isMainnet.
  destruct (SignUserSignedAction_extra_data (ex_privateKey e) action USDClassTransferSignTypes
              "HyperliquidTransaction:UsdClassTransfer" isMainnet (<[action := transfer]> σ)
              transfer Hrule (lookup_insert_eq _ _ _))
    as (err & Hsign & Herr).
  { fold message. rewrite Hsize. cbn. lia. }
  rewrite Hsign. fold message. rewrite insert_insert_eq. cbn [mbind option_bind].
  exists err. split; [exact Herr | reflexivity].
Qed.

End ExchangeProperties.

Lemma signature_text_format_instance :
  exists sig,
    @SignInner example_crypto tt example_data = Ok sig
    /\ String.length (signature_text sig) = 134%nat.
Proof.
  assert (forall digest out,
            length digest = 32%nat -> Forall is_byte digest ->
            @crypto_Sign example_crypto digest tt = Ok out ->
            length out = 65%nat /\ Forall is_byte out
            /\ (nth 64 out 0 = 0 \/ nth 64 out 0 = 1)) as Hformat.
  { intros digest out Hlen Hbytes [= <-].
    assert (length (firstn 32 digest) = 32%nat) as H32 by (rewrite length_take; lia).
    split; [rewrite !length_app, H32; reflexivity |].
    split; [rewrite !Forall_app; repeat split;
            [by apply Forall_take | by apply Forall_take
             | constructor; [unfold is_byte; lia | constructor]] |].
    right. rewrite app_nth2 by lia. rewrite app_nth2 by lia. rewrite H32. reflexivity. }
  destruct (@SignInner example_crypto tt example_data) as [sig | err] eqn:Hsig;
    [| vm_compute in Hsig; discriminate Hsig].
  exists sig. split; [reflexivity |].
  destruct (@signature_text_format example_crypto tt example_data sig Hformat Hsig)
    as (r & s & _ & _ & _ & _ & _ & _ & Hlen).
  exact Hlen.
Defined.

Lemma checking_crypto_extra_data : @extra_data_rule checking_crypto.
Proof.
  intros data primaryType message Hsize. exists ErrHashStruct.
  cbn [HashStruct checking_crypto].
  apply Nat.ltb_lt in Hsize. by rewrite Hsize.
Qed.

Lemma UsdTransfer_never_posts_instance :
  exists σ',
    @UsdTransfer checking_crypto "https://api.hyperliquid.xyz" (fun _ _ _ => Done JNull)
      example_exchange 1700000000000 (f64_lit 15 1) example_vault ∅
    = Some (σ', Failed (fmt_Errorf_w "failed to sign USD transfer action"
                          (core_error ErrHashStruct))).
Proof.
  destruct (@UsdTransfer_never_posts checking_crypto "https://api.hyperliquid.xyz"
              (fun _ _ _ => Done JNull) example_exchange 1700000000000 (f64_lit 15 1)
              example_vault ∅ checking_crypto_extra_data)
    as (_ & _ & err & Herr & Heq).
  vm_compute in Herr. injection Herr as <-.
  eexists. exact Heq.
Defined.

Lemma UsdClassTransfer_never_posts_instance :
  exists σ',
    @UsdClassTransfer checking_crypto "https://api.hyperliquid.xyz" (fun _ _ _ => Done JNull)
      example_exchange 1700000000000 (f64_lit 15 1) true ∅
    = Some (σ', Failed (fmt_Errorf_w "failed to sign USD class transfer action"
                          (core_error ErrHashStruct))).
Proof.
  destruct (@UsdClassTransfer_never_posts checking_crypto "https://api.hyperliquid.xyz"
              (fun _ _ _ => Done JNull) example_exchange 1700000000000 (f64_lit 15 1)
              true ∅ checking_crypto_extra_data)
    as (_ & _ & err & Herr & Heq).
  vm_compute in Herr. injection Herr as <-.
  eexists. exact Heq.
Defined.

Section CancelProperties.

Context `{Crypto}.

Variable range_order : list string -> list string.
Variable MainnetAPIURL : string.
Variable Post : string -> string -> gmap string Value -> outcome Json.

Lemma BulkCancel_cancels_Done (info : Info) (cancelRequests : list CancelRequest)
    (cancels : list Value) :
  BulkCancel_cancels info cancelRequests = Done cancels
  <-> Forall2 (cancel_entry info) cancelRequests cancels.
Proof.
  revert cancels. induction cancelRequests as [| cancel rest IH]; intros cancels;
    cbn [BulkCancel_cancels].
  - split; [intros [= <-]; constructor | intros Hall; by inversion Hall].
  - split.
    + destruct (NameToAsset info (cancel_Coin cancel)) as [asset | err] eqn:Hasset;
        [| discriminate].
      destruct (BulkCancel_cancels info rest) as [entries | err]; [| discriminate].
      intros [= <-]. constructor; [by exists asset | by apply IH].
    + intros Hall. inversion Hall as [| ? entry ? entries (asset & Hasset & ->) Hrest]; subst.
      rewrite Hasset. apply IH in Hrest. by rewrite Hrest.
Qed.

Lemma BulkCancel_cancels_Failed (info : Info) (cancelRequests : list CancelRequest) (k : nat)
    (cancel : CancelRequest) (err : fmt_error) :
  cancelRequests !! k = Some cancel ->
  NameToAsset info (cancel_Coin cancel) = Failed err ->
  exists err', BulkCancel_cancels info cancelRequests = Failed err'.
Proof.
  revert k. induction cancelRequests as [| cancel0 rest IH]; intros k Hk Hbad; [done |].
  cbn [BulkCancel_cancels].
  destruct (NameToAsset info (cancel_Coin cancel0)) as [asset | err0] eqn:Hasset; [| by eexists].
  destruct k as [| k].
  - injection Hk as ->. congruence.
  - cbn in Hk. destruct (IH k Hk Hbad) as [err' ->]. by eexists.
Qed.

(** X17.  [BulkCancel] posts nothing unless every coin resolves to an asset,
    and then posts one entry for each request, in their order. *)
Theorem BulkCancel_posts (e : Exchange) (now : Z) (cancelRequests : list CancelRequest) :
  let action cancels : gmap string Value :=
    <["cancels" := VSlice cancels]> (<["type" := VString "cancel"]> ∅) in
  let signed cancels :=
    SignL1Action range_order (ex_privateKey e) (VMap (action cancels))
      (ex_vaultAddress e) (now mod 2 ^ 64) ((fun x => x mod 2 ^ 64) <$> ex_expiresAfter e)
      (String.eqb (ex_baseURL e) MainnetAPIURL) in
  (forall k cancel err,
     cancelRequests !! k = Some cancel ->
     NameToAsset (ex_info e) (cancel_Coin cancel) = Failed err ->
     exists err', BulkCancel range_order MainnetAPIURL Post e now cancelRequests = Failed err')
  /\ (forall cancels err,
        Forall2 (cancel_entry (ex_info e)) cancelRequests cancels ->
        signed cancels = Err err ->
        BulkCancel range_order MainnetAPIURL Post e now cancelRequests
        = Failed (fmt_Errorf_w "failed to sign cancel action" (core_error err)))
  /\ (forall cancels signature,
        Forall2 (cancel_entry (ex_info e)) cancelRequests cancels ->
        signed cancels = Ok signature ->
        exists payload,
          BulkCancel range_order MainnetAPIURL Post e now cancelRequests
          = Post (ex_baseURL e) "/exchange" payload
          /\ payload !! "action" = Some (VMap (action cancels))
          /\ payload !! "nonce" = Some (VInt now)
          /\ payload !! "signature" = Some (VString (signature_text signature))
          /\ payload !! "vaultAddress" = VString <$> ex_vaultAddress e
          /\ payload !! "expiresAfter" = VInt <$> ex_expiresAfter e)
  /\ (forall name oid,
        Cancel range_order MainnetAPIURL Post e now name oid
        = BulkCancel range_order MainnetAPIURL Post e now
            [ {| cancel_Coin := name; cancel_OID := oid |} ]).
Proof.
  intros action signed. unfold BulkCancel. split; [| split; [| split]].
  - intros k cancel err Hk Hbad.
    destruct (BulkCancel_cancels_Failed _ _ k cancel err Hk Hbad) as [err' ->]. by exists err'.
  - intros cancels err Hall Hsigned. apply BulkCancel_cancels_Done in Hall. rewrite Hall.
    unfold signed, action, uint64_of_int64 in *. by rewrite Hsigned.
  - intros cancels signature Hall Hsigned. apply BulkCancel_cancels_Done in Hall.
    rewrite Hall. unfold signed, action, uint64_of_int64 in *. rewrite Hsigned.
    unfold postAction.
    rewrite lookup_insert_ne by done. rewrite lookup_insert_eq.
    change (negb (String.eqb "cancel" "usdClassTransfer") && negb (String.eqb "cancel" "sendAsset"))
      with true. cbn iota.
    eexists. split; [reflexivity |].
    destruct (ex_vaultAddress e), (ex_expiresAfter e); by repeat split.
  - reflexivity.
Qed.

End CancelProperties.
